(** * Ripple grid with a pinch knob: a shallow embedding of [sketch.js]

    The sketch keeps all of its state in global variables and is driven by
    the p5 runtime: [draw] once per frame, and the mouse and touch handlers
    in between.  The embedding below keeps the globals in one [state]
    record, grouped as the source groups them, and every function of the
    source that touches them becomes a function on [state].

    JavaScript numbers are modelled by exact rationals ([Q]): every
    arithmetic operation of the sketch is then exact, and the rounding of
    IEEE doubles is not part of the model.  The p5 function [dist] (a square
    root) is a parameter of the development; [lerp] and [constrain] follow
    their p5 definitions. *)

From Stdlib Require Import QArith Qround Qabs Qminmax ZArith List Bool Lia Lqa.
Import ListNotations.
Local Open Scope Q_scope.

(** ** Numbers *)

Definition Qltb (a b : Q) : bool := negb (Qle_bool b a).
Definition Qgeb (a b : Q) : bool := Qle_bool b a.

Infix "<?" := Qltb (at level 70, no associativity) : Q_scope.
Infix "<=?" := Qle_bool (at level 70, no associativity) : Q_scope.
Infix ">=?" := Qgeb (at level 70, no associativity) : Q_scope.
Infix "===" := Qeq_bool (at level 70, no associativity) : Q_scope.

(** [Math.ceil], [Math.floor], [Math.abs], [Math.min], [Math.max];
    [Math.pow(x, 3)] is the only power the sketch takes. *)
Module Math.
Definition ceil (x : Q) : Q := inject_Z (Qceiling x).
Definition floor (x : Q) : Q := inject_Z (Qfloor x).
Definition abs (x : Q) : Q := Qabs x.
Definition min (x y : Q) : Q := Qmin x y.
Definition max (x y : Q) : Q := Qmax x y.
Definition pow3 (x : Q) : Q := x * x * x.
End Math.

(** The remainder operator [a % b] of JavaScript: the quotient is truncated
    towards zero, so the result has the sign of [a]. *)
Definition Qtrunc (x : Q) : Z := Z.quot (Qnum x) (Zpos (Qden x)).
Definition js_rem (a b : Q) : Q := a - b * inject_Z (Qtrunc (a / b)).

(** p5: [lerp(start, stop, amt)] and [constrain(n, low, high)]. *)
Definition lerp (start stop amt : Q) : Q := amt * (stop - start) + start.
Definition constrain (n low high : Q) : Q := Math.max (Math.min n high) low.

(** A computable stand-in for p5's [dist], used where the development needs
    a concrete instance of the parameter: the integer square root of the
    squared distance, exact whenever the distance is rational. *)
Definition dist_isqrt (x1 y1 x2 y2 : Q) : Q :=
  let s := (x2 - x1) * (x2 - x1) + (y2 - y1) * (y2 - y1) in
  Z.sqrt (Qnum s * Zpos (Qden s)) # Qden s.

(** ** Constants of the sketch *)

Definition COLS : nat := 6.
Definition ROWS : nat := 8.
Definition GAP : Q := 16.
Definition N : nat := 120.

Definition HALF_MS : Q := 300.
Definition HOLD_MS_init : Q := 1500.
Definition HOLD_MIN : Q := 30.
Definition HOLD_MAX : Q := 3000.

Definition LONGPRESS_MS : Q := 350.
Definition WAVE_SPEED_PX_PER_MS : Q := 0.8.
Definition ACTIVATION_BAND : Q := 40.

Definition EMIT_INTERVAL_MS : Q := 40.
Definition MAX_EMITTERS : nat := 800.

Definition rBase : Q := 120.
Definition KNOB_SENSITIVITY : Q := 3.

(** The sentinels of [startMs] and [stopAtMs]. *)
Definition UNSET : Q := -1.
Definition DONE : Q := -2.

(** ** The globals *)

Record point := Point { pt_x : Q; pt_y : Q }.

(** An emitter [{t0, x, y}]. *)
Record emitter := Emitter { e_t0 : Q; e_x : Q; e_y : Q }.

(** [HOLD_MS] and the two values derived from it. *)
Record timing_t := Timing { HOLD_MS : Q; SEG_MS : Q; CYCLE_MS : Q }.

(** The canvas size (p5's [width], [height]) and the grid layout. *)
Record layout_t := Layout {
  width : Q; height : Q;
  tileDiam : Q; rTile : Q; sScale : Q; marginX : Q; marginY : Q }.

(** The three outlines, [N] points each. *)
Record shapes_t := Shapes {
  triX : list Q; triY : list Q;
  sqrX : list Q; sqrY : list Q;
  cirX : list Q; cirY : list Q }.

(** Per tile: [startMs] is -1 (not triggered), -2 (done) or the trigger
    time; [stopAtMs] is -1 or the time at which the tile stops. *)
Record tiles_t := Tiles { startMs : list (list Q); stopAtMs : list (list Q) }.

Record field_t := Field {
  emitters : list emitter; lastEmitMs : Q; maxReachDist : Q }.

Record gesture_t := Gesture {
  isPointerDown : bool; isLongPress : bool; lastPointer : point; downAtMs : Q }.

Record clock_t := Clock { logicalNow : Q; lastReal : Q; clockPaused : bool }.

Record knob_t := Knob {
  active : bool; center : point;
  baseDist : Q; lastDist : Q; angle : Q; enteredAt : Q }.

Record state := State {
  timing : timing_t;
  layout : layout_t;
  shapes : shapes_t;
  tiles : tiles_t;
  field : field_t;
  gesture : gesture_t;
  clock : clock_t;
  knob : knob_t }.

Definition set_timing (v : timing_t) (s : state) : state :=
  State v (layout s) (shapes s) (tiles s) (field s) (gesture s) (clock s) (knob s).
Definition set_layout (v : layout_t) (s : state) : state :=
  State (timing s) v (shapes s) (tiles s) (field s) (gesture s) (clock s) (knob s).
Definition set_tiles (v : tiles_t) (s : state) : state :=
  State (timing s) (layout s) (shapes s) v (field s) (gesture s) (clock s) (knob s).
Definition set_field (v : field_t) (s : state) : state :=
  State (timing s) (layout s) (shapes s) (tiles s) v (gesture s) (clock s) (knob s).
Definition set_gesture (v : gesture_t) (s : state) : state :=
  State (timing s) (layout s) (shapes s) (tiles s) (field s) v (clock s) (knob s).
Definition set_clock (v : clock_t) (s : state) : state :=
  State (timing s) (layout s) (shapes s) (tiles s) (field s) (gesture s) v (knob s).
Definition set_knob (v : knob_t) (s : state) : state :=
  State (timing s) (layout s) (shapes s) (tiles s) (field s) (gesture s) (clock s) v.

Definition set_clockPaused (b : bool) (s : state) : state :=
  set_clock (Clock (logicalNow (clock s)) (lastReal (clock s)) b) s.
Definition set_active (b : bool) (s : state) : state :=
  let k := knob s in
  set_knob (Knob b (center k) (baseDist k) (lastDist k) (angle k) (enteredAt k)) s.
Definition set_lastPointer (p : point) (s : state) : state :=
  let g := gesture s in
  set_gesture (Gesture (isPointerDown g) (isLongPress g) p (downAtMs g)) s.
Definition set_emitters (es : list emitter) (s : state) : state :=
  let f := field s in
  set_field (Field es (lastEmitMs f) (maxReachDist f)) s.

(** [startMs[iy][ix]]; the arrays are always [ROWS] by [COLS]. *)
Definition cell (g : list (list Q)) (iy ix : nat) : Q := nth ix (nth iy g []) 0.

Definition Qnat (n : nat) : Q := inject_Z (Z.of_nat n).

(** ** The sketch *)

Section Sketch.

(** p5's [dist(x1, y1, x2, y2)]. *)
Variable dist : Q -> Q -> Q -> Q -> Q.

Definition initStates (s : state) : state :=
  set_tiles (Tiles (repeat (repeat (-1) COLS) ROWS)
                   (repeat (repeat (-1) COLS) ROWS)) s.

Definition resetForNewGesture (s : state) : state :=
  let s := initStates s in
  set_field (Field [] 0 (maxReachDist (field s))) s.

(** [millis()] is read once per call; its value is the argument [realNow]. *)
Definition updateClock (realNow : Q) (s : state) : state :=
  let c := clock s in
  let dt := realNow - lastReal c in
  let now' := if negb (clockPaused c) then logicalNow c + dt else logicalNow c in
  set_clock (Clock now' realNow (clockPaused c)) s.

(** *** Emitters *)

Definition spawnEmitter (t x y : Q) (s : state) : state :=
  let f := field s in
  let es := emitters f ++ [Emitter t x y] in
  let es := if (MAX_EMITTERS <? length es)%nat
            then skipn (length es - MAX_EMITTERS) es else es in
  set_field (Field es t (maxReachDist f)) s.

(** One iteration of the loop of [hitByAnyEmitter]: does emitter [e] hit? *)
Definition hits (now px py : Q) (e : emitter) : bool :=
  let age := now - e_t0 e in
  if age <? 0 then false
  else
    let R := age * WAVE_SPEED_PX_PER_MS in
    let d := dist px py (e_x e) (e_y e) in
    Math.abs (d - R) <=? ACTIVATION_BAND.

(** The loop runs from the last emitter down to the first. *)
Definition hitByAnyEmitter (es : list emitter) (now px py : Q) : bool :=
  existsb (hits now px py) (rev es).

(** The loop of [pruneEmitters], entered at index [i] with [rest] the
    emitters from [i] on and [len] the length of the whole array; the result
    is the final value of [cut]. *)
Fixpoint prune_cut (now reach : Q) (len i : nat) (rest : list emitter) : nat :=
  match rest with
  | [] => 0%nat
  | e :: rest' =>
      let age := now - e_t0 e in
      let R := age * WAVE_SPEED_PX_PER_MS in
      if R <? reach then i
      else if (i =? len - 1)%nat then len
      else prune_cut now reach len (S i) rest'
  end.

Definition pruneEmitters (now : Q) (s : state) : state :=
  let es := emitters (field s) in
  let cut := prune_cut now (maxReachDist (field s)) (length es) 0 es in
  if (0 <? cut)%nat then set_emitters (skipn cut es) s else s.

(** *** Shapes *)

Definition easeInOutCubic (x : Q) : Q :=
  if x <? 0.5 then 4 * x * x * x else 1 - Math.pow3 (-2 * x + 2) / 2.

(** A drawn outline is the sequence of its [vertex] calls. *)
Definition outline := list (Q * Q).

Definition drawShape (scale : Q) (xs ys : list Q) : outline :=
  map (fun i => (nth i xs 0 * scale, nth i ys 0 * scale)) (seq 0 N).

Definition drawLoopCycle (sh : shapes_t) (tm : timing_t) (elapsedMs scale : Q)
  : outline :=
  let p := js_rem elapsedMs (CYCLE_MS tm) in
  let stage := Math.floor (p / SEG_MS tm) in
  let pin := p - stage * SEG_MS tm in
  let k := if pin <? HALF_MS then easeInOutCubic (pin / HALF_MS) else 1 in
  let '(ax, ay, bx, by_) :=
    if stage === 0 then (sqrX sh, sqrY sh, cirX sh, cirY sh)
    else if stage === 1 then (cirX sh, cirY sh, triX sh, triY sh)
    else (triX sh, triY sh, sqrX sh, sqrY sh) in
  map (fun i => (lerp (nth i ax 0) (nth i bx 0) k * scale,
                 lerp (nth i ay 0) (nth i by_ 0) k * scale)) (seq 0 N).

(** *** Layout *)

Definition tileCenter (l : layout_t) (ix iy : nat) : point :=
  Point (marginX l + tileDiam l * (Qnat ix + 0.5) + GAP * Qnat ix)
        (marginY l + tileDiam l * (Qnat iy + 0.5) + GAP * Qnat iy).

Definition computeGridLayout (w h : Q) (s : state) : state :=
  let tileDiamX := (w - GAP * (Qnat COLS - 1)) / Qnat COLS in
  let tileDiamY := (h - GAP * (Qnat ROWS - 1)) / Qnat ROWS in
  let tileDiam := Math.min tileDiamX tileDiamY in
  let rTile := (tileDiam / (2 * 1.4142 * 0.95)) * 0.95 in
  let sScale := rTile / rBase in
  let usedW := Qnat COLS * tileDiam + (Qnat COLS - 1) * GAP in
  let usedH := Qnat ROWS * tileDiam + (Qnat ROWS - 1) * GAP in
  let marginX := (w - usedW) * 0.5 in
  let marginY := (h - usedH) * 0.5 in
  let l := Layout w h tileDiam rTile sScale marginX marginY in
  let tl := tileCenter l 0 0 in
  let br := tileCenter l (COLS - 1) (ROWS - 1) in
  let reach := dist (pt_x tl) (pt_y tl) (pt_x br) (pt_y br) + 2 * tileDiam + 200 in
  let f := field s in
  set_field (Field (emitters f) (lastEmitMs f) reach) (set_layout l s).

(** *** Simulation and rendering *)

Definition simulateEmittersAndActivations (s : state) : state :=
  let now := logicalNow (clock s) in
  let g := gesture s in
  let s :=
    if isPointerDown g && negb (isLongPress g) then
      if now - downAtMs g >=? LONGPRESS_MS then
        let s := set_gesture (Gesture (isPointerDown g) true
                                      (lastPointer g) (downAtMs g)) s in
        let s := resetForNewGesture s in
        spawnEmitter now (pt_x (lastPointer g)) (pt_y (lastPointer g)) s
      else s
    else s in
  let s :=
    if isLongPress (gesture s) && (now - lastEmitMs (field s) >=? EMIT_INTERVAL_MS)
    then spawnEmitter now (pt_x (lastPointer (gesture s)))
                          (pt_y (lastPointer (gesture s))) s
    else s in
  pruneEmitters now s.

(** What one iteration of the double loop of [renderGrid] leaves behind:
    the two array cells of the tile and the outline drawn at its centre. *)
Record tile_out := TileOut {
  out_start : Q; out_stop : Q; out_at : point; out_shape : outline }.

Definition renderTile (s : state) (ix iy : nat) : tile_out :=
  let now := logicalNow (clock s) in
  let longPress := isLongPress (gesture s) in
  let c := tileCenter (layout s) ix iy in
  let start := cell (startMs (tiles s)) iy ix in
  let stop := cell (stopAtMs (tiles s)) iy ix in
  let sqr := drawShape (sScale (layout s)) (sqrX (shapes s)) (sqrY (shapes s)) in
  let loop elapsed :=
    drawLoopCycle (shapes s) (timing s) elapsed (sScale (layout s)) in
  let '(start, stop) :=
    if longPress && (start <? 0) then
      if hitByAnyEmitter (emitters (field s)) now (pt_x c) (pt_y c)
      then (now, -1) else (start, stop)
    else (start, stop) in
  let t0 := start in
  let tStop := stop in
  if (t0 === -1) || (t0 === -2) then TileOut start stop c sqr
  else
    let elapsed := now - t0 in
    if longPress then TileOut start stop c (loop elapsed)
    else
      let stop :=
        if tStop === -1 then
          let cycles := Math.ceil (elapsed / CYCLE_MS (timing s)) in
          t0 + cycles * CYCLE_MS (timing s)
        else stop in
      if now >=? stop then TileOut (-2) stop c sqr
      else TileOut start stop c (loop elapsed).

Definition renderCells (s : state) : list (list tile_out) :=
  map (fun iy => map (fun ix => renderTile s ix iy) (seq 0 COLS)) (seq 0 ROWS).

(** The frame that [renderGrid] draws, row by row, and the state it leaves. *)
Definition renderGrid (s : state) : state * list (point * outline) :=
  let cells := renderCells s in
  (set_tiles (Tiles (map (map out_start) cells) (map (map out_stop) cells)) s,
   map (fun o => (out_at o, out_shape o)) (concat cells)).

(** [draw]: the overlay of the knob mode ([drawKnobOverlay]) only paints and
    is left out of the frame. *)
Definition draw (realNow : Q) (s : state) : state * list (point * outline) :=
  let s := updateClock realNow s in
  let SEG := HALF_MS + HOLD_MS (timing s) in
  let s := set_timing (Timing (HOLD_MS (timing s)) SEG (3 * SEG)) s in
  if active (knob s) then
    let s := set_clockPaused true s in
    renderGrid s
  else
    let s := set_clockPaused false s in
    let s := simulateEmittersAndActivations s in
    renderGrid s.

(** *** Mouse *)

Definition mousePressed (mouseX mouseY : Q) (s : state) : state :=
  if active (knob s) then set_clockPaused false (set_active false s)
  else
    set_gesture (Gesture true false (Point mouseX mouseY)
                         (logicalNow (clock s))) s.

Definition mouseDragged (mouseX mouseY : Q) (s : state) : state :=
  set_lastPointer (Point mouseX mouseY) s.

Definition mouseMoved (mouseX mouseY : Q) (s : state) : state :=
  if isPointerDown (gesture s) then set_lastPointer (Point mouseX mouseY) s
  else s.

Definition mouseReleased (s : state) : state :=
  let g := gesture s in
  set_gesture (Gesture false false (lastPointer g) (downAtMs g)) s.

(** *** Touch; [touches] is p5's array of current contacts *)

(** Called with at least two contacts. *)
Definition enterKnobMode (touches : list point) (s : state) : state :=
  let p1 := nth 0 touches (Point 0 0) in
  let p2 := nth 1 touches (Point 0 0) in
  let c := Point ((pt_x p1 + pt_x p2) / 2) ((pt_y p1 + pt_y p2) / 2) in
  let d := dist (pt_x p1) (pt_y p1) (pt_x p2) (pt_y p2) in
  let s := set_knob (Knob true c d d 0 (logicalNow (clock s))) s in
  set_clockPaused true s.

(** Called with at least two contacts. *)
Definition updateKnobWithPinch (touches : list point) (s : state) : state :=
  let p1 := nth 0 touches (Point 0 0) in
  let p2 := nth 1 touches (Point 0 0) in
  let c := Point ((pt_x p1 + pt_x p2) / 2) ((pt_y p1 + pt_y p2) / 2) in
  let curDist := dist (pt_x p1) (pt_y p1) (pt_x p2) (pt_y p2) in
  let k := knob s in
  let delta := curDist - lastDist k in
  let tm := timing s in
  let hold := constrain (HOLD_MS tm + delta * KNOB_SENSITIVITY) HOLD_MIN HOLD_MAX in
  let s := set_knob (Knob (active k) c (baseDist k) curDist
                          (angle k + delta * 0.6) (enteredAt k)) s in
  set_timing (Timing hold (SEG_MS tm) (CYCLE_MS tm)) s.

Definition touchStarted (touches : list point) (mouseX mouseY : Q) (s : state)
  : state :=
  if (2 <=? length touches)%nat then enterKnobMode touches s
  else if active (knob s) && (length touches =? 1)%nat then
    set_clockPaused false (set_active false s)
  else
    let t := match touches with t :: _ => t | [] => Point mouseX mouseY end in
    set_gesture (Gesture true false (Point (pt_x t) (pt_y t))
                         (logicalNow (clock s))) s.

Definition touchMoved (touches : list point) (s : state) : state :=
  if active (knob s) && (2 <=? length touches)%nat then
    updateKnobWithPinch touches s
  else
    match touches with
    | t :: _ => set_lastPointer (Point (pt_x t) (pt_y t)) s
    | [] => s
    end.

Definition touchEnded (touches : list point) (s : state) : state :=
  match touches with
  | [] =>
      let g := gesture s in
      set_gesture (Gesture false false (lastPointer g) (downAtMs g)) s
  | _ => s
  end.

Definition windowResized (w h : Q) (s : state) : state := computeGridLayout w h s.

(** *** The sketch as a machine *)

(** [setup], on a canvas of [w] by [h], with the outlines that the
    [build...Points] functions computed and [millis()] = [realNow]. *)
Definition setup (sh : shapes_t) (w h realNow : Q) : state :=
  let s := State (Timing HOLD_MS_init (HALF_MS + HOLD_MS_init)
                         (3 * (HALF_MS + HOLD_MS_init)))
                 (Layout w h 0 0 0 0 0)
                 sh
                 (Tiles [] [])
                 (Field [] 0 0)
                 (Gesture false false (Point 0 0) 0)
                 (Clock 0 0 false)
                 (Knob false (Point 0 0) 0 0 0 0) in
  let s := initStates s in
  let s := computeGridLayout w h s in
  set_clock (Clock (logicalNow (clock s)) realNow (clockPaused (clock s))) s.

(** What the p5 runtime can call after [setup]. *)
Inductive event :=
| Draw (realNow : Q)
| MousePressed (mouseX mouseY : Q)
| MouseDragged (mouseX mouseY : Q)
| MouseMoved (mouseX mouseY : Q)
| MouseReleased
| TouchStarted (touches : list point) (mouseX mouseY : Q)
| TouchMoved (touches : list point)
| TouchEnded (touches : list point)
| WindowResized (w h : Q).

Definition handle (ev : event) (s : state) : state :=
  match ev with
  | Draw realNow => fst (draw realNow s)
  | MousePressed mx my => mousePressed mx my s
  | MouseDragged mx my => mouseDragged mx my s
  | MouseMoved mx my => mouseMoved mx my s
  | MouseReleased => mouseReleased s
  | TouchStarted ts mx my => touchStarted ts mx my s
  | TouchMoved ts => touchMoved ts s
  | TouchEnded ts => touchEnded ts s
  | WindowResized w h => windowResized w h s
  end.

Definition run (evs : list event) (s : state) : state :=
  fold_left (fun s ev => handle ev s) evs s.

(** [millis()] never runs backwards: a frame is admissible in [s] when its
    wall-clock time is not before the one of the last frame. *)
Definition admissible (s : state) (ev : event) : Prop :=
  match ev with
  | Draw realNow => lastReal (clock s) <= realNow
  | _ => True
  end.

(** The states of the running sketch. *)
Inductive reachable : state -> Prop :=
| reach_setup sh w h realNow : reachable (setup sh w h realNow)
| reach_step s ev :
    reachable s -> admissible s ev -> reachable (handle ev s).

End Sketch.

(** ** Vocabulary of the properties *)

(** An emitter whose ring has not yet grown to [reach]. *)
Definition within_reach (now reach : Q) (e : emitter) : bool :=
  (now - e_t0 e) * WAVE_SPEED_PX_PER_MS <? reach.

(** Outlines are compared vertex by vertex, as numbers. *)
Definition outline_eq (a b : outline) : Prop :=
  Forall2 (fun v w => fst v == fst w /\ snd v == snd w) a b.

(** The two flags that freeze the sketch agree. *)
Definition in_sync (s : state) : Prop := active (knob s) = clockPaused (clock s).

(** The knob is active in [s] and stays active through each of [evs]. *)
Fixpoint tuning_throughout (dist : Q -> Q -> Q -> Q -> Q)
  (s : state) (evs : list event) : Prop :=
  active (knob s) = true /\
  match evs with
  | [] => True
  | ev :: evs' => tuning_throughout dist (handle dist ev s) evs'
  end.

(** The wall-clock time that passes in the frames of [evs] entered with the
    clock running: each frame counts the time since the frame before it
    ([prev], initially the time of the last frame before [evs]). *)
Fixpoint unpaused_time (dist : Q -> Q -> Q -> Q -> Q)
  (prev : Q) (s : state) (evs : list event) : Q :=
  match evs with
  | [] => 0
  | Draw realNow :: evs' =>
      (if clockPaused (clock s) then 0 else realNow - prev)
      + unpaused_time dist realNow (handle dist (Draw realNow) s) evs'
  | ev :: evs' => unpaused_time dist prev (handle dist ev s) evs'
  end.

Definition hold_in_range (s : state) : Prop :=
  HOLD_MIN <= HOLD_MS (timing s) /\ HOLD_MS (timing s) <= HOLD_MAX.

(** A sequence of pinch updates, one [touches] array per update. *)
Definition pinch_all (dist : Q -> Q -> Q -> Q -> Q)
  (pinches : list (list point)) (s : state) : state :=
  fold_left (fun s touches => updateKnobWithPinch dist touches s) pinches s.

(** The values that a cell of [startMs] takes: not triggered, done, or the
    time at which the tile was triggered. *)
Definition tile_ok (a : Q) : Prop := a == UNSET \/ a == DONE \/ 0 <= a.

(** The moves of a tile within a gesture, from [startMs] = [a] to
    [startMs] = [b]: not triggered to triggered, triggered to done, or none. *)
Definition tile_step (a b : Q) : Prop :=
  (a == UNSET /\ (b == UNSET \/ 0 <= b)) \/
  (0 <= a /\ (b = a \/ b == DONE)) \/
  (a == DONE /\ b == DONE).

(** The long press of a new gesture begins between [s] and [s']. *)
Definition begins_longpress (s s' : state) : Prop :=
  isLongPress (gesture s) = false /\ isLongPress (gesture s') = true.

(** What holds of the grid in every state of the running sketch. *)
Definition grid_inv (s : state) : Prop :=
  0 <= logicalNow (clock s) /\
  forall iy ix, (iy < ROWS)%nat -> (ix < COLS)%nat ->
    tile_ok (cell (startMs (tiles s)) iy ix) /\
    (isLongPress (gesture s) = true -> ~ cell (startMs (tiles s)) iy ix == DONE).

(** A press at [(mouseX, mouseY)] in state [s], held without moving over the
    frames drawn at the wall-clock times [ts]. *)
Definition held_press (dist : Q -> Q -> Q -> Q -> Q)
  (s : state) (mouseX mouseY : Q) (ts : list Q) : state :=
  run dist (MousePressed mouseX mouseY :: map Draw ts) s.

(** Wall-clock times of successive frames after a frame at [prev], none
    later than [limit]. *)
Fixpoint frames_within (prev limit : Q) (ts : list Q) : Prop :=
  match ts with
  | [] => True
  | t :: ts' => prev <= t /\ t <= limit /\ frames_within t limit ts'
  end.

(** During the long press of a press made at logical time [d0] and held at
    [P]: all emitters are at [P], none older than the long press, and each
    spawn came [EMIT_INTERVAL_MS] or more after the one before. *)
Definition emit_inv (d0 : Q) (P : point) (s : state) : Prop :=
  let es := emitters (field s) in
  es <> [] /\
  Forall (fun e => e_x e = pt_x P /\ e_y e = pt_y P /\
                   d0 + LONGPRESS_MS <= e_t0 e) es /\
  d0 + LONGPRESS_MS + EMIT_INTERVAL_MS * (Qnat (length es) - 1)
    <= lastEmitMs (field s) /\
  lastEmitMs (field s) <= logicalNow (clock s).

(** The state of a press made at logical time [d0] and held at [P], with the
    knob off; [off] is the constant difference of the two clocks. *)
Definition press_inv (d0 off reach : Q) (P : point) (s : state) : Prop :=
  active (knob s) = false /\ clockPaused (clock s) = false /\
  isPointerDown (gesture s) = true /\ lastPointer (gesture s) = P /\
  downAtMs (gesture s) = d0 /\
  maxReachDist (field s) = reach /\
  logicalNow (clock s) - lastReal (clock s) == off /\
  if isLongPress (gesture s) then emit_inv d0 P s
  else logicalNow (clock s) - d0 < LONGPRESS_MS.

(** Every frame of [evs], run from [s], has a wall-clock time not before
    the frame that precedes it. *)
Fixpoint admissible_all (dist : Q -> Q -> Q -> Q -> Q)
  (s : state) (evs : list event) : Prop :=
  match evs with
  | [] => True
  | ev :: evs' => admissible s ev /\ admissible_all dist (handle dist ev s) evs'
  end.

(** [ts], the wall-clock times of successive frames, splits at [t], the
    first of them that comes [bound] or more after [from]. *)
Definition first_frame_from (from bound : Q) (ts before : list Q) (t : Q)
  (after : list Q) : Prop :=
  ts = before ++ t :: after /\
  Forall (fun u => u - from < bound) before /\
  bound <= t - from.

(** Emitter [e] is at [(x, y)] and carries the logical time of the frame
    drawn at wall-clock time [t], the clock running since state [s0]. *)
Definition spawned_in_frame (s0 : state) (x y t : Q) (e : emitter) : Prop :=
  e_x e = x /\ e_y e = y /\
  e_t0 e == logicalNow (clock s0) + (t - lastReal (clock s0)).

(** The emitters [es] of a press made in [s0] at [(x, y)] and held over the
    frames [ts]: one from the first frame that comes [LONGPRESS_MS] or more
    after the press, and a second one from the first frame that comes
    [EMIT_INTERVAL_MS] or more after that frame, if there is such a frame. *)
Definition held_emitters (s0 : state) (x y : Q) (ts : list Q)
  (es : list emitter) : Prop :=
  exists before t1 after e1,
    first_frame_from (lastReal (clock s0)) LONGPRESS_MS ts before t1 after /\
    spawned_in_frame s0 x y t1 e1 /\
    ((Forall (fun u => u - t1 < EMIT_INTERVAL_MS) after /\ es = [e1]) \/
     (exists mid t2 rest e2,
        first_frame_from t1 EMIT_INTERVAL_MS after mid t2 rest /\
        spawned_in_frame s0 x y t2 e2 /\ es = [e1; e2])).

(** ** A session of the sketch *)

(** The square as [buildSquarePoints] resamples it, 30 points a side, from
    the top left corner; the circle and the triangle have irrational
    coordinates, and two smaller squares stand in for them. *)
Definition square_side : Q := rBase * 1.4142 * 0.95.

Definition squareX (i : nat) : Q :=
  let s := square_side in
  if (i <? 30)%nat then - s + Qnat i * (s / 15)
  else if (i <? 60)%nat then s
  else if (i <? 90)%nat then s - Qnat (i - 60) * (s / 15)
  else - s.

Definition squareY (i : nat) : Q :=
  let s := square_side in
  if (i <? 30)%nat then - s
  else if (i <? 60)%nat then - s + Qnat (i - 30) * (s / 15)
  else if (i <? 90)%nat then s
  else s - Qnat (i - 90) * (s / 15).

Definition example_shapes : shapes_t :=
  let xs := map squareX (seq 0 N) in
  let ys := map squareY (seq 0 N) in
  Shapes (map (Qmult 0.5) xs) (map (Qmult 0.5) ys)
         xs ys
         (map (Qmult 0.75) xs) (map (Qmult 0.75) ys).

(** A canvas of 800 by 600: the tiles are 61 wide and the first one is
    centred at (207.5, 30.5). *)
Definition example_start : state := setup dist_isqrt example_shapes 800 600 0.

(** A press on the first tile at logical time 650 becomes a long press in
    the frame at 1000, which triggers the tile; then the button is
    released. *)
Definition example_gesture : list event :=
  [Draw 650; MousePressed 207.5 30.5; Draw 1000; MouseReleased].

Definition example_released : state := run dist_isqrt example_gesture example_start.

(** The state in which the frame at 2000 calls [renderGrid]. *)
Definition example_release_frame : state :=
  let s := example_released in
  simulateEmittersAndActivations
    (set_clockPaused false
       (set_timing (Timing (HOLD_MS (timing s))
                           (HALF_MS + HOLD_MS (timing s))
                           (3 * (HALF_MS + HOLD_MS (timing s))))
                   (updateClock 2000 s))).

(** After the frame at 2000, which plans the stop of the first tile, two
    fingers come down and pinch [HOLD_MS] from 1500 down to 30; they are
    lifted and a tap leaves the knob mode.  The wall clock stands at 2000
    throughout, no frame being drawn.  The frames at 6390 and 6400 come
    next. *)
Definition example_retune : list event :=
  [Draw 2000;
   TouchStarted [Point 300 300] 300 300;
   TouchStarted [Point 300 300; Point 600 700] 300 300;
   TouchMoved [Point 300 300; Point 306 308];
   TouchEnded [Point 300 300];
   TouchEnded [];
   TouchStarted [Point 400 400] 400 400].

Definition example_retuned : state := run dist_isqrt example_retune example_released.

(** The frame at 6390 of the session of [example_retune], and the frame at
    6400 that follows it. *)
Definition example_stale : state := handle dist_isqrt (Draw 6390) example_retuned.
Definition example_stopped : state := handle dist_isqrt (Draw 6400) example_stale.

(** Two fingers down: the knob mode. *)
Definition example_pinch : list point := [Point 300 300; Point 360 380].
Definition example_tuning : state :=
  run dist_isqrt [Draw 100; TouchStarted example_pinch 0 0] example_start.

(** ** The emitter array over time *)

(** Successive emitters were spawned [EMIT_INTERVAL_MS] or more apart. *)
Fixpoint spaced (es : list emitter) : Prop :=
  match es with
  | [] => True
  | e :: es' =>
      match es' with
      | [] => True
      | e' :: _ => e_t0 e + EMIT_INTERVAL_MS <= e_t0 e'
      end /\ spaced es'
  end.

(** Successive emitters are in the order of their spawn times. *)
Fixpoint time_ordered (es : list emitter) : Prop :=
  match es with
  | [] => True
  | e :: es' =>
      match es' with
      | [] => True
      | e' :: _ => e_t0 e <= e_t0 e'
      end /\ time_ordered es'
  end.

(** What holds of the emitter field at logical time [now]. *)
Definition field_ok (now : Q) (f : field_t) : Prop :=
  spaced (emitters f) /\
  Forall (fun e => e_t0 e <= now) (emitters f) /\
  (emitters f <> [] ->
   lastEmitMs f = e_t0 (last (emitters f) (Emitter 0 0 0))) /\
  (length (emitters f) <= MAX_EMITTERS)%nat.

(** ** The derived timing *)

(** [SEG_MS] and [CYCLE_MS] follow [HOLD_MS] at the next frame; between a
    pinch and that frame they are those of an earlier [HOLD_MS] in range. *)
Definition timing_ok (tm : timing_t) : Prop :=
  (HOLD_MIN <= HOLD_MS tm /\ HOLD_MS tm <= HOLD_MAX) /\
  (HALF_MS + HOLD_MIN <= SEG_MS tm /\ SEG_MS tm <= HALF_MS + HOLD_MAX) /\
  CYCLE_MS tm = 3 * SEG_MS tm.

(** ** The two arrays of the grid *)

(** An array of [ROWS] rows of [COLS] cells. *)
Definition grid_shape (g : list (list Q)) : Prop :=
  length g = ROWS /\ Forall (fun row => length row = COLS) g.

(** What holds of the two cells [a] = [startMs] and [b] = [stopAtMs] of a
    tile at logical time [now]: a trigger time is in the past; no stop is
    planned during a long press or for a tile that is not triggered; a
    planned stop is not before the trigger; a done tile stopped in the
    past. *)
Definition tile_data_ok (longPress : bool) (now a b : Q) : Prop :=
  (0 <= a -> a <= now) /\
  (longPress = true -> b == UNSET) /\
  (a == UNSET -> b == UNSET) /\
  (0 <= a -> ~ b == UNSET -> a <= b) /\
  (a == DONE -> ~ b == UNSET /\ b <= now).

(** The cells of every tile are as they should be. *)
Definition data_inv (s : state) : Prop :=
  forall iy ix, (iy < ROWS)%nat -> (ix < COLS)%nat ->
    tile_data_ok (isLongPress (gesture s)) (logicalNow (clock s))
                 (cell (startMs (tiles s)) iy ix) (cell (stopAtMs (tiles s)) iy ix).

(** No long press is under way in [s], nor after any of the events. *)
Fixpoint no_long_press (dist : Q -> Q -> Q -> Q -> Q)
  (s : state) (evs : list event) : Prop :=
  isLongPress (gesture s) = false /\
  match evs with
  | [] => True
  | ev :: evs' => no_long_press dist (handle dist ev s) evs'
  end.

(** ** One tile, one frame *)

(** The iteration of [renderGrid] for tile [(iy, ix)] as a function of the
    two cells it reads, [start] = [startMs[iy][ix]] and
    [stop] = [stopAtMs[iy][ix]]; [renderTile] is this function at the cells
    of the state. *)
Definition tileStep (dist : Q -> Q -> Q -> Q -> Q)
  (s : state) (ix iy : nat) (start stop : Q) : tile_out :=
  let now := logicalNow (clock s) in
  let longPress := isLongPress (gesture s) in
  let c := tileCenter (layout s) ix iy in
  let sqr := drawShape (sScale (layout s)) (sqrX (shapes s)) (sqrY (shapes s)) in
  let loop elapsed :=
    drawLoopCycle (shapes s) (timing s) elapsed (sScale (layout s)) in
  let '(start, stop) :=
    if longPress && (start <? 0) then
      if hitByAnyEmitter dist (emitters (field s)) now (pt_x c) (pt_y c)
      then (now, -1) else (start, stop)
    else (start, stop) in
  let t0 := start in
  let tStop := stop in
  if (t0 === -1) || (t0 === -2) then TileOut start stop c sqr
  else
    let elapsed := now - t0 in
    if longPress then TileOut start stop c (loop elapsed)
    else
      let stop :=
        if tStop === -1 then
          let cycles := Math.ceil (elapsed / CYCLE_MS (timing s)) in
          t0 + cycles * CYCLE_MS (timing s)
        else stop in
      if now >=? stop then TileOut (-2) stop c sqr
      else TileOut start stop c (loop elapsed).

(** Two states that [renderGrid] cannot tell apart, their tiles aside. *)
Definition same_view (s1 s2 : state) : Prop :=
  logicalNow (clock s1) = logicalNow (clock s2) /\
  isLongPress (gesture s1) = isLongPress (gesture s2) /\
  layout s1 = layout s2 /\ shapes s1 = shapes s2 /\ timing s1 = timing s2 /\
  emitters (field s1) = emitters (field s2).

(** ** Resampling an outline *)

Section Resampling.

(** [Math.hypot] of two numbers. *)
Variable hypot : Q -> Q -> Q.

Definition vdist (p q : point) : Q := hypot (pt_x p - pt_x q) (pt_y p - pt_y q).

Definition vlerp (a b : point) (t : Q) : point :=
  Point (lerp (pt_x a) (pt_x b) t) (lerp (pt_y a) (pt_y b) t).

(** [src[i]]; the polygons that the sketch resamples have all the vertices
    that the loops read. *)
Definition vertex (src : list point) (i : nat) : point := nth i src (Point 0 0).

(** The first loop of [resampleToArrays]: the length of the polygon. *)
Definition perimeter (src : list point) : Q :=
  fold_left (fun per i => per + vdist (vertex src i) (vertex src (S i)))
            (seq 0 (length src - 1)) 0.

(** The variables [d], [seg], [a], [b] that the second loop carries along. *)
Record cursor := Cursor { cur_d : Q; cur_seg : nat; cur_a : point; cur_b : point }.

(** The [while] loop, entered with [k = src.length - 2 - seg], the number of
    segments left to move on to. *)
Fixpoint advance (src : list point) (target : Q) (k : nat) (c : cursor) : cursor :=
  match k with
  | O => c
  | S k' =>
      if cur_d c + vdist (cur_a c) (cur_b c) <? target then
        advance src target k'
          (Cursor (cur_d c + vdist (cur_a c) (cur_b c)) (S (cur_seg c))
                  (vertex src (S (cur_seg c))) (vertex src (S (S (cur_seg c)))))
      else c
  end.

(** One iteration of the second loop: the cursor it leaves and the point
    it writes at index [i]. *)
Definition resample_point (src : list point) (step : Q) (c : cursor) (i : nat)
  : cursor * point :=
  let target := Qnat i * step in
  let c := advance src target (length src - 2 - cur_seg c) c in
  let remain := target - cur_d c in
  let L := vdist (cur_a c) (cur_b c) in
  let t := if L === 0 then 0 else remain / L in
  (c, vlerp (cur_a c) (cur_b c) t).

Fixpoint resample_loop (src : list point) (step : Q) (c : cursor) (idxs : list nat)
  : list point :=
  match idxs with
  | [] => []
  | i :: idxs' =>
      let '(c', p) := resample_point src step c i in
      p :: resample_loop src step c' idxs'
  end.

(** The points written to [outX] and [outY], arrays of [n] numbers. *)
Definition resamplePoints (src : list point) (n : nat) : list point :=
  let per := perimeter src in
  let step := per / Qnat n in
  resample_loop src step (Cursor 0 0 (vertex src 0) (vertex src 1)) (seq 0 n).

Definition resampleToArrays (src : list point) (n : nat) : list Q * list Q :=
  let pts := resamplePoints src n in
  (map pt_x pts, map pt_y pts).

Definition buildSquarePoints (n : nat) (r : Q) : list Q * list Q :=
  let s := r * 1.4142 * 0.95 in
  let poly := [Point (- s) (- s); Point s (- s); Point s s; Point (- s) s;
               Point (- s) (- s)] in
  resampleToArrays poly n.

End Resampling.

(** A computable stand-in for [Math.hypot], exact whenever the result is
    rational. *)
Definition hypot_isqrt (x y : Q) : Q := dist_isqrt 0 0 x y.

(** The length of the polygon up to vertex [j]. *)
Fixpoint length_to (hypot : Q -> Q -> Q) (src : list point) (j : nat) : Q :=
  match j with
  | O => 0
  | S j' => length_to hypot src j'
            + vdist hypot (vertex src j') (vertex src (S j'))
  end.

(** * Properties *)

(** ** Comparisons *)

Lemma Qltb_lt a b : (a <? b) = true <-> a < b.
Proof.
  unfold Qltb. rewrite negb_true_iff.
  destruct (Qle_bool b a) eqn:E.
  - apply Qle_bool_iff in E. split; [discriminate | intro; lra].
  - split; [intros _ | reflexivity].
    apply Qnot_le_lt. intro H. apply Qle_bool_iff in H. congruence.
Qed.

Lemma Qltb_ge a b : (a <? b) = false <-> b <= a.
Proof.
  destruct (a <? b) eqn:E.
  - apply Qltb_lt in E. split; [discriminate | intro; lra].
  - split; [intros _ | reflexivity].
    apply Qnot_lt_le. intro H. apply Qltb_lt in H. congruence.
Qed.

Lemma Qgeb_ge a b : (a >=? b) = true <-> b <= a.
Proof. unfold Qgeb. apply Qle_bool_iff. Qed.

Lemma Qgeb_lt a b : (a >=? b) = false <-> a < b.
Proof.
  unfold Qgeb. destruct (Qle_bool b a) eqn:E.
  - apply Qle_bool_iff in E. split; [discriminate | intro; lra].
  - split; [intros _ | reflexivity].
    apply Qnot_le_lt. intro H. apply Qle_bool_iff in H. congruence.
Qed.

Lemma Qeqb_false a b : (a === b) = false <-> ~ a == b.
Proof.
  split.
  - apply Qeq_bool_neq.
  - intro H. destruct (a === b) eqn:E; [|reflexivity].
    apply Qeq_bool_eq in E. contradiction.
Qed.

#[local] Instance Qltb_comp : Proper (Qeq ==> Qeq ==> eq) Qltb.
Proof. intros a b H c d H'. unfold Qltb. now rewrite H, H'. Qed.

(** ** Pruning *)

Section Pruning.

Variables now reach : Q.

Let far (e : emitter) : Prop := within_reach now reach e = false.

(** The loop stops at the first emitter within reach; entered at index [i]
    with [len - i] emitters to go, it leaves in [cut] the index of that
    emitter, or [len] when there is none. *)
Lemma prune_cut_spec (len : nat) (rest : list emitter) (i : nat) :
  rest <> [] -> (i + length rest = len)%nat ->
  exists gone kept,
    rest = gone ++ kept /\
    prune_cut now reach len i rest = (i + length gone)%nat /\
    Forall far gone /\
    match kept with [] => True | e :: _ => within_reach now reach e = true end.
Proof.
  revert i. induction rest as [|e rest IH]; intros i Hne Hlen; [congruence|].
  cbn [prune_cut]. fold (within_reach now reach e).
  destruct (within_reach now reach e) eqn:He.
  - exists [], (e :: rest). cbn. repeat split; auto; lia.
  - cbn [length] in Hlen. destruct rest as [|e' rest'].
    + replace (i =? len - 1)%nat with true by (symmetry; apply Nat.eqb_eq; cbn in Hlen; lia).
      exists [e], []. cbn in *. repeat split; auto; lia.
    + replace (i =? len - 1)%nat with false
        by (symmetry; apply Nat.eqb_neq; cbn in Hlen; lia).
      destruct (IH (S i)) as (gone & kept & E & Hc & Hf & Hk);
        [discriminate | cbn [length] in *; lia |].
      exists (e :: gone), kept.
      split; [cbn [app]; now rewrite E|].
      split; [rewrite Hc; cbn [length]; lia|]. split; auto.
Qed.

End Pruning.

Lemma set_emitters_same s : set_emitters (emitters (field s)) s = s.
Proof. destruct s as [? ? ? ? [] ? ? ?]. reflexivity. Qed.

(** C9. [pruneEmitters(now)] splits the emitter array, oldest first, into the
    emitters it removes and those it keeps, and changes nothing else: every
    removed emitter has a ring that reached [maxReachDist]
    ([R >= maxReachDist]), and the oldest emitter kept is the first whose
    ring is still within reach ([R < maxReachDist]).  So exactly the longest
    out-of-reach prefix goes, no emitter within reach is removed, and no
    emitter is removed while an older one within reach is kept. *)
Theorem C9_pruneEmitters_longest_prefix (now : Q) (s : state) :
  exists gone kept,
    emitters (field s) = gone ++ kept /\
    pruneEmitters now s = set_emitters kept s /\
    Forall (fun e => maxReachDist (field s)
                     <= (now - e_t0 e) * WAVE_SPEED_PX_PER_MS) gone /\
    match kept with
    | [] => True
    | e :: _ => (now - e_t0 e) * WAVE_SPEED_PX_PER_MS < maxReachDist (field s)
    end.
Proof.
  unfold pruneEmitters.
  destruct (emitters (field s)) as [|e es] eqn:Ees.
  - exists [], []. split; [reflexivity|]. split.
    + cbn. rewrite <- Ees. symmetry. apply set_emitters_same.
    + split; [constructor | exact I].
  - destruct (prune_cut_spec now (maxReachDist (field s))
                (length (e :: es)) (e :: es) 0)
      as (gone & kept & E & Hc & Hf & Hk); [discriminate | reflexivity |].
    exists gone, kept. rewrite Hc, E. cbn [plus].
    split; [reflexivity|]. split.
    + destruct gone as [|g gone'].
      * cbn in *. rewrite <- E, <- Ees. apply eq_sym, set_emitters_same.
      * replace (0 <? length (g :: gone'))%nat with true by reflexivity.
        now rewrite skipn_app, skipn_all, Nat.sub_diag.
    + split.
      * eapply Forall_impl; [|exact Hf]. intros a Ha. now apply Qltb_ge.
      * destruct kept; [exact I|]. now apply Qltb_lt.
Qed.

(** ** The hit test *)

Section HitTest.

Variable dist : Q -> Q -> Q -> Q -> Q.

Lemma hits_spec now px py e :
  hits dist now px py e = true <->
  0 <= now - e_t0 e /\
  Qabs (dist px py (e_x e) (e_y e) - (now - e_t0 e) * WAVE_SPEED_PX_PER_MS)
    <= ACTIVATION_BAND.
Proof.
  unfold hits, Math.abs.
  destruct (now - e_t0 e <? 0) eqn:E.
  - apply Qltb_lt in E. split; [discriminate | intros [H _]; lra].
  - apply Qltb_ge in E. rewrite Qle_bool_iff. tauto.
Qed.

Lemma hitByAnyEmitter_spec es now px py :
  hitByAnyEmitter dist es now px py = true <->
  exists e, In e es /\ hits dist now px py e = true.
Proof.
  unfold hitByAnyEmitter. rewrite existsb_exists.
  split; intros (e & Hin & H); exists e; split; auto;
    [apply in_rev | apply in_rev in Hin]; exact Hin.
Qed.

(** The band around a ring of radius [r], seen from distance [d]. *)
Lemma band_interval (d r : Q) :
  Qabs (d - r) <= ACTIVATION_BAND <->
  d - ACTIVATION_BAND <= r /\ r <= d + ACTIVATION_BAND.
Proof.
  rewrite Qabs_Qle_condition. unfold ACTIVATION_BAND. split; intros []; split; lra.
Qed.

Lemma hits_at_distance now px py e (d : Q) :
  dist px py (e_x e) (e_y e) == d ->
  hits dist now px py e = true <->
  0 <= now - e_t0 e /\
  d - ACTIVATION_BAND <= (now - e_t0 e) * WAVE_SPEED_PX_PER_MS /\
  (now - e_t0 e) * WAVE_SPEED_PX_PER_MS <= d + ACTIVATION_BAND.
Proof.
  intro Hd. rewrite hits_spec, band_interval, Hd. tauto.
Qed.

Lemma hitByAnyEmitter_single e now px py :
  hitByAnyEmitter dist [e] now px py = hits dist now px py e.
Proof. unfold hitByAnyEmitter. cbn. apply orb_false_r. Qed.

End HitTest.

(** C2. The hit test is true exactly when some emitter of the array has a
    non-negative age [now - t0] and a ring of radius [R = age * WAVE_SPEED]
    with [|dist(point, origin) - R| <= ACTIVATION_BAND]; an emitter of
    negative age never matches.  For one emitter, tested at its own origin
    (distance 0), that is when the age lies in
    [[0, ACTIVATION_BAND / WAVE_SPEED]]; tested at distance 100, with
    [WAVE_SPEED = 0.8] and [ACTIVATION_BAND = 40], when it lies in
    [[75, 175]]. *)
Theorem C2_hitByAnyEmitter_annulus
  (dist : Q -> Q -> Q -> Q -> Q) (es : list emitter) (now px py : Q) :
  (hitByAnyEmitter dist es now px py = true <->
   exists e, In e es /\
     0 <= now - e_t0 e /\
     Qabs (dist px py (e_x e) (e_y e)
           - (now - e_t0 e) * WAVE_SPEED_PX_PER_MS) <= ACTIVATION_BAND) /\
  (forall e, now - e_t0 e < 0 -> hits dist now px py e = false) /\
  (forall t0 x y, dist x y x y == 0 ->
     (hitByAnyEmitter dist [Emitter t0 x y] now x y = true <->
      0 <= now - t0 /\
      now - t0 <= ACTIVATION_BAND / WAVE_SPEED_PX_PER_MS)) /\
  (forall e, dist px py (e_x e) (e_y e) == 100 ->
     (hitByAnyEmitter dist [e] now px py = true <->
      75 <= now - e_t0 e /\ now - e_t0 e <= 175)).
Proof.
  split; [|split; [|split]].
  - rewrite hitByAnyEmitter_spec.
    split; intros (e & Hin & H); exists e; split; auto; now apply hits_spec.
  - intros e Hage. unfold hits.
    now replace (now - e_t0 e <? 0) with true by (symmetry; now apply Qltb_lt).
  - intros t0 x y Hd.
    rewrite hitByAnyEmitter_single,
      (hits_at_distance dist now x y (Emitter t0 x y) 0 Hd).
    cbn [e_t0].
    assert (E : ACTIVATION_BAND / WAVE_SPEED_PX_PER_MS == 50) by reflexivity.
    rewrite E. unfold ACTIVATION_BAND, WAVE_SPEED_PX_PER_MS.
    split; intros; repeat split; lra.
  - intros e Hd.
    rewrite hitByAnyEmitter_single, (hits_at_distance dist now px py _ 100 Hd).
    unfold ACTIVATION_BAND, WAVE_SPEED_PX_PER_MS.
    split; intros; repeat split; lra.
Qed.

(** ** The shape at a cycle boundary *)

Lemma Forall2_map_seq {A} (R : A -> A -> Prop) (f g : nat -> A) (l : list nat) :
  (forall i, R (f i) (g i)) -> Forall2 R (map f l) (map g l).
Proof. intro H. induction l; cbn; constructor; auto. Qed.

Lemma easeInOutCubic_0 (x : Q) : x == 0 -> easeInOutCubic x == 0.
Proof.
  intro H. unfold easeInOutCubic.
  replace (x <? 0.5) with true by (symmetry; apply Qltb_lt; rewrite H; reflexivity).
  rewrite H. ring.
Qed.

Lemma lerp_0 (a b k : Q) : k == 0 -> lerp a b k == a.
Proof. intro H. unfold lerp. rewrite H. ring. Qed.

(** At [p == 0] the loop is in stage 0 with interpolation factor 0. *)
Lemma drawLoopCycle_at_0 (sh : shapes_t) (tm : timing_t) (elapsed scale : Q) :
  js_rem elapsed (CYCLE_MS tm) == 0 ->
  outline_eq (drawLoopCycle sh tm elapsed scale)
             (drawShape scale (sqrX sh) (sqrY sh)).
Proof.
  intro Hp. unfold drawLoopCycle. cbv zeta.
  set (p := js_rem elapsed (CYCLE_MS tm)) in *.
  assert (Hst : Math.floor (p / SEG_MS tm) = 0).
  { unfold Math.floor. rewrite (Qfloor_comp (p / SEG_MS tm) 0).
    - reflexivity.
    - unfold Qdiv. rewrite Hp. ring. }
  rewrite Hst. change (0 === 0) with true. cbv iota beta.
  assert (Hpin : p - 0 * SEG_MS tm == 0) by (rewrite Hp; ring).
  replace (p - 0 * SEG_MS tm <? HALF_MS) with true
    by (symmetry; apply Qltb_lt; rewrite Hpin; reflexivity).
  assert (Hk : easeInOutCubic ((p - 0 * SEG_MS tm) / HALF_MS) == 0).
  { apply easeInOutCubic_0. unfold Qdiv. rewrite Hpin. ring. }
  unfold drawShape, outline_eq. apply Forall2_map_seq. intro i. cbn [fst snd].
  now rewrite !(lerp_0 _ _ _ Hk).
Qed.

(** C5. For every [HOLD_MS] within [[HOLD_MIN, HOLD_MAX]], with [SEG_MS] and
    [CYCLE_MS] derived from it as [draw] does, and every elapsed time at a
    cycle boundary ([elapsed % CYCLE_MS == 0]), the outline that
    [drawLoopCycle] draws is the square's, vertex for vertex. *)
Theorem C5_cycle_boundary_is_square
  (sh : shapes_t) (hold elapsed scale : Q) :
  HOLD_MIN <= hold -> hold <= HOLD_MAX ->
  js_rem elapsed (3 * (HALF_MS + hold)) == 0 ->
  outline_eq
    (drawLoopCycle sh (Timing hold (HALF_MS + hold) (3 * (HALF_MS + hold)))
                   elapsed scale)
    (drawShape scale (sqrX sh) (sqrY sh)).
Proof. intros _ _ Hp. now apply drawLoopCycle_at_0. Qed.

(** ** What each function leaves alone *)

Ltac destruct_ifs :=
  repeat match goal with
         | |- context [if ?b then _ else _] => destruct b
         | |- context [match ?l with [] => _ | _ :: _ => _ end] => destruct l
         end.

Section Frames.

Variable dist : Q -> Q -> Q -> Q -> Q.

Lemma run_cons ev evs s : run dist (ev :: evs) s = run dist evs (handle dist ev s).
Proof. reflexivity. Qed.

Lemma run_app evs1 evs2 s :
  run dist (evs1 ++ evs2) s = run dist evs2 (run dist evs1 s).
Proof. apply fold_left_app. Qed.

Lemma simulate_clock s : clock (simulateEmittersAndActivations s) = clock s.
Proof.
  unfold simulateEmittersAndActivations, pruneEmitters, spawnEmitter.
  destruct_ifs; reflexivity.
Qed.

Lemma simulate_knob s : knob (simulateEmittersAndActivations s) = knob s.
Proof.
  unfold simulateEmittersAndActivations, pruneEmitters, spawnEmitter.
  destruct_ifs; reflexivity.
Qed.

Lemma simulate_timing s : timing (simulateEmittersAndActivations s) = timing s.
Proof.
  unfold simulateEmittersAndActivations, pruneEmitters, spawnEmitter.
  destruct_ifs; reflexivity.
Qed.

(** The clock after a frame: the tick of [updateClock], then the pause flag
    that [draw] copies from the knob. *)
Lemma draw_clock realNow s :
  clock (fst (draw dist realNow s)) =
  Clock (if clockPaused (clock s) then logicalNow (clock s)
         else logicalNow (clock s) + (realNow - lastReal (clock s)))
        realNow (active (knob s)).
Proof.
  unfold draw, renderGrid. cbn.
  destruct (active (knob s)); cbn; [|rewrite simulate_clock; cbn];
    destruct (clockPaused (clock s)); reflexivity.
Qed.

Lemma draw_knob realNow s : knob (fst (draw dist realNow s)) = knob s.
Proof.
  unfold draw, renderGrid. cbn.
  destruct (active (knob s)); cbn; [|rewrite simulate_knob]; reflexivity.
Qed.

Lemma draw_HOLD_MS realNow s :
  HOLD_MS (timing (fst (draw dist realNow s))) = HOLD_MS (timing s).
Proof.
  unfold draw, renderGrid. cbn.
  destruct (active (knob s)); cbn; [|rewrite simulate_timing]; reflexivity.
Qed.

(** Only a frame moves the logical clock. *)
Lemma handle_logicalNow ev s :
  match ev with
  | Draw _ => True
  | _ => logicalNow (clock (handle dist ev s)) = logicalNow (clock s)
  end.
Proof.
  destruct ev; cbn; auto;
    unfold mousePressed, mouseMoved, touchStarted, touchMoved, touchEnded,
      enterKnobMode, updateKnobWithPinch;
    destruct_ifs; reflexivity.
Qed.

(** Every handler keeps the two flags together, and a frame makes them
    agree whatever they were. *)
Lemma draw_in_sync realNow s : in_sync (fst (draw dist realNow s)).
Proof. unfold in_sync. now rewrite draw_knob, draw_clock. Qed.

Lemma handle_in_sync ev s : in_sync s -> in_sync (handle dist ev s).
Proof.
  intro H. destruct ev; [apply draw_in_sync|..]; revert H; unfold in_sync; cbn;
    unfold mousePressed, mouseMoved, touchStarted, touchMoved, touchEnded,
      enterKnobMode, updateKnobWithPinch;
    repeat match goal with
           | |- context [if ?b then _ else _] => destruct b eqn:?
           | |- context [match ?l with [] => _ | _ :: _ => _ end] => destruct l
           end; cbn; intros; congruence.
Qed.

Lemma setup_in_sync sh w h realNow : in_sync (setup dist sh w h realNow).
Proof. reflexivity. Qed.

Lemma reachable_in_sync s : reachable dist s -> in_sync s.
Proof.
  induction 1 as [|s ev _ IH _]; [apply setup_in_sync | now apply handle_in_sync].
Qed.

End Frames.

(** ** The logical clock and the knob *)

Section ClockAndKnob.

Variable dist : Q -> Q -> Q -> Q -> Q.

Lemma tuning_keeps_logicalNow evs : forall s,
  in_sync s -> tuning_throughout dist s evs ->
  logicalNow (clock (run dist evs s)) = logicalNow (clock s).
Proof.
  induction evs as [|ev evs IH]; intros s Hsync Ht; [reflexivity|].
  cbn [tuning_throughout] in Ht. destruct Ht as [Hact Hrest].
  rewrite run_cons, IH; [|now apply handle_in_sync|exact Hrest].
  destruct ev;
    try match goal with
        | |- context [handle dist ?e s] => exact (handle_logicalNow dist e s)
        end.
  cbn [handle]. rewrite draw_clock. cbn.
  now rewrite <- Hsync, Hact.
Qed.

(** C7. A tick adds the wall-clock delta [realNow - lastReal] to
    [logicalNow] when [clockPaused] is false and leaves [logicalNow] as it
    is when [clockPaused] is true.  No handler other than a frame changes
    [logicalNow], so pausing and resuming do not alter it; and as long as
    the knob stays active, [logicalNow] is the same after any number of
    frames and other events. *)
Theorem C7_clock_frozen_while_tuning
  (s : state) (realNow : Q) (ev : event) (evs : list event) :
  logicalNow (clock (updateClock realNow s)) =
    (if clockPaused (clock s) then logicalNow (clock s)
     else logicalNow (clock s) + (realNow - lastReal (clock s))) /\
  match ev with
  | Draw _ => True
  | _ => logicalNow (clock (handle dist ev s)) = logicalNow (clock s)
  end /\
  (in_sync s -> tuning_throughout dist s evs ->
   logicalNow (clock (run dist evs s)) = logicalNow (clock s)).
Proof.
  split; [|split].
  - unfold updateClock. cbn. now destruct (clockPaused (clock s)).
  - apply handle_logicalNow.
  - apply tuning_keeps_logicalNow.
Qed.

(** C8. In every state of the running sketch, after [setup], after each
    handler and after each frame, [knob.active] equals [clockPaused]; and
    from such a state every event leads to such a state. *)
Theorem C8_knob_active_iff_clock_paused (s : state) :
  reachable dist s ->
  active (knob s) = clockPaused (clock s) /\
  forall ev,
    active (knob (handle dist ev s)) = clockPaused (clock (handle dist ev s)).
Proof.
  intro H. apply reachable_in_sync in H. split; [exact H|].
  intro ev. now apply handle_in_sync.
Qed.

Lemma unpaused_time_run evs : forall s,
  logicalNow (clock (run dist evs s)) ==
  logicalNow (clock s) + unpaused_time dist (lastReal (clock s)) s evs.
Proof.
  induction evs as [|ev evs IH]; intro s; [cbn; ring|].
  rewrite run_cons, IH.
  destruct ev;
    try (pose proof (handle_logicalNow dist) as E;
         match goal with |- context [handle dist ?e s] => specialize (E e s) end;
         cbn beta iota in E; rewrite E; cbn [unpaused_time];
         match goal with
         | |- context [lastReal (clock (handle dist ?e s))] =>
             replace (lastReal (clock (handle dist e s))) with (lastReal (clock s))
         end; [reflexivity|];
         cbn; unfold mousePressed, mouseMoved, touchStarted, touchMoved,
           touchEnded, enterKnobMode, updateKnobWithPinch;
         destruct_ifs; reflexivity).
  cbn [unpaused_time handle]. rewrite draw_clock. cbn [logicalNow lastReal].
  destruct (clockPaused (clock s)); ring.
Qed.

Lemma last_nonempty {A} (x : A) (l : list A) (d d' : A) :
  last (x :: l) d = last (x :: l) d'.
Proof. revert x. induction l as [|y l IH]; intro x; [reflexivity|]. apply (IH y). Qed.

(** Frames drawn while the knob is active leave the logical clock alone and
    move the wall-clock reference to the last of them. *)
Lemma paused_frames ts : forall s,
  in_sync s -> active (knob s) = true ->
  let s' := run dist (map Draw ts) s in
  in_sync s' /\ active (knob s') = true /\
  logicalNow (clock s') = logicalNow (clock s) /\
  lastReal (clock s') = last ts (lastReal (clock s)).
Proof.
  induction ts as [|t ts IH]; intros s Hsync Hact; [cbn; auto|].
  cbn [map]. cbv zeta. rewrite run_cons.
  destruct (IH (handle dist (Draw t) s)) as (H1 & H2 & H3 & H4).
  - apply draw_in_sync.
  - cbn. now rewrite draw_knob.
  - split; [exact H1|]. split; [exact H2|]. split.
    + rewrite H3. cbn. rewrite draw_clock. cbn. now rewrite <- Hsync, Hact.
    + rewrite H4. cbn [handle]. rewrite draw_clock. cbn [lastReal].
      destruct ts as [|q ts]; [reflexivity|].
      change (last (t :: q :: ts) (lastReal (clock s)))
        with (last (q :: ts) (lastReal (clock s))).
      apply last_nonempty.
Qed.

End ClockAndKnob.

(** C10. Over any sequence of events, [logicalNow] grows by exactly the
    wall-clock deltas of the frames entered with the clock running, each
    delta measured from the frame before it, paused or not.  In particular,
    after frames drawn in knob mode at wall-clock times [ts], the click that
    leaves knob mode and one more frame at time [t] advance [logicalNow] by
    that frame's own delta, [t - last ts], and by none of the time spent
    paused. *)
Theorem C10_resume_skips_paused_time
  (dist : Q -> Q -> Q -> Q -> Q) (s : state) (evs : list event)
  (ts : list Q) (mouseX mouseY t : Q) :
  logicalNow (clock (run dist evs s)) ==
    logicalNow (clock s) + unpaused_time dist (lastReal (clock s)) s evs /\
  (in_sync s -> active (knob s) = true ->
   logicalNow (clock (run dist (map Draw ts ++ [MousePressed mouseX mouseY; Draw t]) s))
   = logicalNow (clock s) + (t - last ts (lastReal (clock s)))).
Proof.
  split; [apply unpaused_time_run|].
  intros Hsync Hact. rewrite run_app.
  destruct (paused_frames dist ts s Hsync Hact) as (_ & H2 & H3 & H4).
  set (s' := run dist (map Draw ts) s) in *.
  rewrite !run_cons. cbn [run fold_left handle].
  rewrite draw_clock. unfold mousePressed. rewrite H2. cbn.
  now rewrite H3, H4.
Qed.

(** ** The knob's range *)

Lemma constrain_in_range (n : Q) :
  HOLD_MIN <= constrain n HOLD_MIN HOLD_MAX /\
  constrain n HOLD_MIN HOLD_MAX <= HOLD_MAX.
Proof.
  unfold constrain, Math.max, Math.min. split.
  - apply Q.le_max_r.
  - apply Q.max_lub; [apply Q.le_min_r | discriminate].
Qed.

Section KnobRange.

Variable dist : Q -> Q -> Q -> Q -> Q.

Lemma updateKnobWithPinch_in_range touches s :
  hold_in_range (updateKnobWithPinch dist touches s).
Proof. unfold hold_in_range, updateKnobWithPinch. cbn. apply constrain_in_range. Qed.

Lemma handle_hold_in_range ev s :
  hold_in_range s -> hold_in_range (handle dist ev s).
Proof.
  unfold hold_in_range. intro H. destruct ev; cbn [handle];
    [now rewrite draw_HOLD_MS|..];
    unfold mousePressed, mouseMoved, touchStarted, touchMoved, touchEnded,
      enterKnobMode;
    destruct_ifs; auto.
  apply updateKnobWithPinch_in_range.
Qed.

Lemma run_hold_in_range evs : forall s,
  hold_in_range s -> hold_in_range (run dist evs s).
Proof.
  induction evs as [|ev evs IH]; intros s H; [exact H|].
  rewrite run_cons. apply IH. now apply handle_hold_in_range.
Qed.

Lemma pinch_all_in_range pinches : forall s,
  hold_in_range s -> hold_in_range (pinch_all dist pinches s).
Proof.
  induction pinches as [|t pinches IH]; intros s H; [exact H|].
  apply IH, updateKnobWithPinch_in_range.
Qed.

(** C6. From a [HOLD_MS] within [[HOLD_MIN, HOLD_MAX]], after each update of
    any sequence of pinch updates, whatever the distances between the two
    contacts are, [HOLD_MS] is within [[HOLD_MIN, HOLD_MAX]]; and so it is
    after any sequence of events of the sketch. *)
Theorem C6_hold_stays_in_range
  (s : state) (pinches : list (list point)) (n : nat) (evs : list event) :
  HOLD_MIN <= HOLD_MS (timing s) -> HOLD_MS (timing s) <= HOLD_MAX ->
  hold_in_range (pinch_all dist (firstn n pinches) s) /\
  hold_in_range (run dist evs s).
Proof.
  intros Hlo Hhi. split.
  - apply pinch_all_in_range. now split.
  - apply run_hold_in_range. now split.
Qed.

End KnobRange.

(** ** One tile in one frame *)

Lemma nth_map_seq {A} (f : nat -> A) (n i : nat) (d : A) :
  (i < n)%nat -> nth i (map f (seq 0 n)) d = f i.
Proof.
  intro H. rewrite (nth_indep _ d (f 0%nat)) by (now rewrite length_map, length_seq).
  now rewrite map_nth, seq_nth.
Qed.

Lemma cell_map_map (f : tile_out -> Q) (cells : list (list tile_out)) iy ix :
  cell (map (map f) cells) iy ix =
  match nth_error (nth iy cells []) ix with
  | Some o => f o
  | None => 0
  end.
Proof.
  unfold cell.
  change (@nil Q) with (map f []). rewrite map_nth.
  generalize (nth iy cells []). intro row. revert ix.
  induction row as [|o row IH]; intros [|ix]; cbn; auto.
Qed.

Section Tile.

Variable dist : Q -> Q -> Q -> Q -> Q.

Lemma renderCells_nth s iy ix :
  (iy < ROWS)%nat -> (ix < COLS)%nat ->
  nth_error (nth iy (renderCells dist s) []) ix = Some (renderTile dist s ix iy).
Proof.
  intros Hy Hx. unfold renderCells.
  rewrite (nth_map_seq (fun iy => map (fun ix => renderTile dist s ix iy) (seq 0 COLS)))
    by exact Hy.
  rewrite nth_error_map, nth_error_nth' with (d := 0%nat) by (now rewrite length_seq).
  now rewrite seq_nth.
Qed.

(** After [renderGrid], the cells of tile [(iy, ix)] are those that its
    iteration of the loop left, and the frame holds its drawing. *)
Lemma renderGrid_startMs s iy ix :
  (iy < ROWS)%nat -> (ix < COLS)%nat ->
  cell (startMs (tiles (fst (renderGrid dist s)))) iy ix
  = out_start (renderTile dist s ix iy).
Proof.
  intros Hy Hx. unfold renderGrid, set_tiles. cbn [fst tiles startMs stopAtMs].
  now rewrite cell_map_map, renderCells_nth.
Qed.

Lemma renderGrid_stopAtMs s iy ix :
  (iy < ROWS)%nat -> (ix < COLS)%nat ->
  cell (stopAtMs (tiles (fst (renderGrid dist s)))) iy ix
  = out_stop (renderTile dist s ix iy).
Proof.
  intros Hy Hx. unfold renderGrid, set_tiles. cbn [fst tiles startMs stopAtMs].
  now rewrite cell_map_map, renderCells_nth.
Qed.

Lemma renderGrid_draws s iy ix :
  (iy < ROWS)%nat -> (ix < COLS)%nat ->
  In (tileCenter (layout s) ix iy, out_shape (renderTile dist s ix iy))
     (snd (renderGrid dist s)).
Proof.
  intros Hy Hx. unfold renderGrid. cbn [snd].
  apply in_map_iff. exists (renderTile dist s ix iy). split.
  - unfold renderTile. destruct_ifs; reflexivity.
  - apply in_concat. exists (nth iy (renderCells dist s) []). split.
    + apply nth_In. unfold renderCells. now rewrite length_map, length_seq.
    + eapply nth_error_In, renderCells_nth; assumption.
Qed.

(** The iteration for a tile that was triggered at [t0 >= 0], once the
    gesture is released. *)
Lemma renderTile_released s ix iy :
  let now := logicalNow (clock s) in
  let t0 := cell (startMs (tiles s)) iy ix in
  let tStop := cell (stopAtMs (tiles s)) iy ix in
  let c := tileCenter (layout s) ix iy in
  let stop :=
    if tStop === -1
    then t0 + Math.ceil ((now - t0) / CYCLE_MS (timing s)) * CYCLE_MS (timing s)
    else tStop in
  isLongPress (gesture s) = false -> 0 <= t0 ->
  renderTile dist s ix iy =
  if now >=? stop
  then TileOut (-2) stop c
         (drawShape (sScale (layout s)) (sqrX (shapes s)) (sqrY (shapes s)))
  else TileOut t0 stop c
         (drawLoopCycle (shapes s) (timing s) (now - t0) (sScale (layout s))).
Proof.
  intros now t0 tStop c stop Hrel Ht0. unfold renderTile. rewrite Hrel.
  cbn [andb]. fold t0 tStop now c.
  replace (t0 === -1) with false
    by (symmetry; apply Qeqb_false; intro E; lra).
  replace (t0 === -2) with false
    by (symmetry; apply Qeqb_false; intro E; lra).
  cbn [orb]. fold stop. reflexivity.
Qed.

End Tile.

(** ** Stopping after release *)

(** [t0 + ceil(elapsed / cycle) * cycle] is the first cycle boundary that is
    not before [t0 + elapsed]. *)
Lemma ceil_cycle_boundary (elapsed cycle : Q) :
  0 < cycle -> 0 <= elapsed ->
  let k := Qceiling (elapsed / cycle) in
  (0 <= k)%Z /\
  elapsed <= inject_Z k * cycle /\
  inject_Z k * cycle < elapsed + cycle.
Proof.
  intros Hc He k.
  assert (Hdiv : elapsed / cycle * cycle == elapsed) by (field; lra).
  assert (H0 : 0 <= elapsed / cycle).
  { apply Qle_shift_div_l; lra. }
  split; [|split].
  - change 0%Z with (Qceiling 0). now apply Qceiling_resp_le.
  - rewrite <- Hdiv at 1. apply Qmult_le_compat_r; [apply Qle_ceiling | lra].
  - pose proof (Qceiling_lt (elapsed / cycle)) as Hlt. fold k in Hlt.
    unfold Z.sub in Hlt. rewrite inject_Z_plus in Hlt.
    change (inject_Z (-1)) with (-1) in Hlt.
    assert (H : (inject_Z k + -1) * cycle < elapsed / cycle * cycle).
    { apply Qmult_lt_compat_r; assumption. }
    rewrite Hdiv in H. lra.
Qed.

(** X17. [renderGrid], run after release ([isLongPress] false) on a tile that
    is animating since [t0 >= 0]:
    - if [stopAtMs] of the tile is unset (-1), sets it to
      [t0 + ceil((now - t0) / CYCLE_MS) * CYCLE_MS], which is a whole number
      of cycles after [t0], not before [now] and less than a cycle after it;
      otherwise leaves it as it is;
    - with the [stopAtMs] so obtained, marks the tile done ([startMs] = -2)
      and draws the square when [now >= stopAtMs], and otherwise keeps
      [startMs] and draws the loop at [now - t0];
    - with [HOLD_MS] = 1500 (so [SEG_MS] = 1800, [CYCLE_MS] = 5400),
      [t0] = 1000 and [now] = 2000, sets [stopAtMs] to 6400. *)
Theorem X17_release_plans_next_cycle_boundary
  (dist : Q -> Q -> Q -> Q -> Q) (s : state) (iy ix : nat) :
  let now := logicalNow (clock s) in
  let cycle := CYCLE_MS (timing s) in
  let t0 := cell (startMs (tiles s)) iy ix in
  let tStop := cell (stopAtMs (tiles s)) iy ix in
  let s' := fst (renderGrid dist s) in
  let frame := snd (renderGrid dist s) in
  let start' := cell (startMs (tiles s')) iy ix in
  let stop' := cell (stopAtMs (tiles s')) iy ix in
  let c := tileCenter (layout s) ix iy in
  (iy < ROWS)%nat -> (ix < COLS)%nat ->
  isLongPress (gesture s) = false ->
  0 <= t0 -> t0 <= now -> 0 < cycle ->
  (tStop == UNSET ->
     stop' = t0 + Math.ceil ((now - t0) / cycle) * cycle /\
     (exists k : Z, (0 <= k)%Z /\ stop' = t0 + inject_Z k * cycle) /\
     now <= stop' /\ stop' < now + cycle) /\
  (~ tStop == UNSET -> stop' = tStop) /\
  (stop' <= now ->
     start' = DONE /\
     In (c, drawShape (sScale (layout s)) (sqrX (shapes s)) (sqrY (shapes s)))
        frame) /\
  (now < stop' ->
     start' = t0 /\
     In (c, drawLoopCycle (shapes s) (timing s) (now - t0) (sScale (layout s)))
        frame) /\
  (HOLD_MS (timing s) == 1500 ->
   SEG_MS (timing s) == HALF_MS + HOLD_MS (timing s) ->
   cycle == 3 * SEG_MS (timing s) ->
   t0 == 1000 -> now == 2000 -> tStop == UNSET ->
   SEG_MS (timing s) == 1800 /\ cycle == 5400 /\ stop' == 6400).
Proof.
  intros now cycle t0 tStop s' frame start' stop' c Hy Hx Hrel Ht0 Hnow Hcyc.
  pose proof (renderGrid_draws dist s iy ix Hy Hx) as Hdraw. fold frame c in Hdraw.
  unfold start', stop', s'.
  rewrite renderGrid_startMs, renderGrid_stopAtMs by assumption.
  revert Hdraw.
  rewrite (renderTile_released dist s ix iy Hrel Ht0).
  fold now t0 tStop cycle c.
  set (planned := t0 + Math.ceil ((now - t0) / cycle) * cycle).
  assert (Hstop : forall (b : bool) (x y : tile_out), out_stop x = out_stop y ->
                    out_stop (if b then x else y) = out_stop x)
    by (intros [] ? ? E; auto).
  rewrite Hstop by reflexivity. cbn [out_stop].
  set (stop := if tStop === -1 then planned else tStop).
  assert (Hplanned : tStop == UNSET -> stop = planned).
  { intro E. unfold UNSET in E. unfold stop. now rewrite (Qeq_eq_bool _ _ E). }
  destruct (ceil_cycle_boundary (now - t0) cycle Hcyc) as (Hk0 & Hk1 & Hk2);
    [lra|].
  intro Hdraw. split; [|split; [|split; [|split]]].
  - intro E. rewrite (Hplanned E). split; [reflexivity|]. split.
    + exists (Qceiling ((now - t0) / cycle)). now split.
    + unfold planned, Math.ceil. split; lra.
  - intro E. unfold stop. apply Qeqb_false in E. unfold UNSET in E. now rewrite E.
  - intro H. apply Qgeb_ge in H. rewrite H in Hdraw |- *. now split.
  - intro H. apply Qgeb_lt in H. rewrite H in Hdraw |- *. now split.
  - intros Hhold Hseg Hcycle E0 Enow E.
    assert (Es : SEG_MS (timing s) == 1800) by (rewrite Hseg, Hhold; reflexivity).
    assert (Ec : cycle == 5400) by (rewrite Hcycle, Es; reflexivity).
    split; [exact Es|]. split; [exact Ec|].
    rewrite (Hplanned E). unfold planned, Math.ceil.
    rewrite (Qceiling_comp ((now - t0) / cycle) ((2000 - 1000) / 5400))
      by (now rewrite Enow, E0, Ec).
    rewrite E0, Ec. reflexivity.
Qed.

(** ** The life of a tile *)

Ltac destruct_ifs_eqn :=
  repeat match goal with
         | |- context [if ?b then _ else _] => destruct b eqn:?
         end.

Lemma cell_fresh iy ix :
  (iy < ROWS)%nat -> (ix < COLS)%nat ->
  cell (repeat (repeat (-1) COLS) ROWS) iy ix = -1.
Proof.
  intros Hy Hx. unfold cell.
  rewrite (nth_repeat_lt (repeat (-1) COLS)) by exact Hy.
  now rewrite nth_repeat_lt.
Qed.

Section TileLife.

Variable dist : Q -> Q -> Q -> Q -> Q.

(** What one iteration of [renderGrid] can do to [startMs[iy][ix]]: nothing;
    trigger the tile, during a long press, from a negative value; or mark a
    triggered tile done, after release. *)
Lemma renderTile_start_cases s ix iy :
  let a := cell (startMs (tiles s)) iy ix in
  let b := out_start (renderTile dist s ix iy) in
  b = a \/
  (isLongPress (gesture s) = true /\ a < 0 /\ b = logicalNow (clock s)) \/
  (isLongPress (gesture s) = false /\ ~ a == UNSET /\ ~ a == DONE /\ b = DONE).
Proof.
  cbv zeta. unfold renderTile.
  destruct (isLongPress (gesture s)) eqn:Hlp; cbn [andb].
  - destruct (cell (startMs (tiles s)) iy ix <? 0) eqn:Hneg.
    + apply Qltb_lt in Hneg.
      destruct (hitByAnyEmitter _ _ _ _ _); destruct_ifs_eqn; cbn; auto.
    + destruct_ifs_eqn; cbn; auto.
  - destruct ((cell (startMs (tiles s)) iy ix === -1)
              || (cell (startMs (tiles s)) iy ix === -2)) eqn:Hs; [cbn; auto|].
    apply orb_false_iff in Hs. destruct Hs as [H1 H2].
    apply Qeqb_false in H1, H2.
    destruct_ifs_eqn; cbn; auto.
    all: right; right; auto.
Qed.

Lemma renderTile_step s ix iy :
  let a := cell (startMs (tiles s)) iy ix in
  let b := out_start (renderTile dist s ix iy) in
  0 <= logicalNow (clock s) ->
  tile_ok a ->
  (isLongPress (gesture s) = true -> ~ a == DONE) ->
  tile_step a b /\ tile_ok b /\
  (isLongPress (gesture s) = true -> ~ b == DONE).
Proof.
  cbv zeta. intros Hnow Hok Hinv.
  destruct (renderTile_start_cases s ix iy)
    as [E | [(Hlp & Ha & E) | (Hlp & H1 & H2 & E)]]; rewrite E; clear E.
  - split; [|split; auto].
    unfold tile_step. destruct Hok as [H | [H | H]]; auto 6.
  - assert (Hu : cell (startMs (tiles s)) iy ix == UNSET).
    { destruct Hok as [H | [H | H]]; [exact H | now apply Hinv in H | lra]. }
    split; [|split].
    + left. auto.
    + right. right. exact Hnow.
    + intros _ E. unfold DONE in E. lra.
  - assert (Ha : 0 <= cell (startMs (tiles s)) iy ix).
    { destruct Hok as [H | [H | H]]; [contradiction | contradiction | exact H]. }
    split; [|split].
    + right. left. split; [exact Ha|]. right. reflexivity.
    + right. left. reflexivity.
    + congruence.
Qed.

(** [simulateEmittersAndActivations] either leaves the grid and
    [isLongPress] alone, or begins a long press on a fresh grid. *)
Lemma simulate_cases s :
  let s' := simulateEmittersAndActivations s in
  (tiles s' = tiles s /\
   isLongPress (gesture s') = isLongPress (gesture s)) \/
  (isLongPress (gesture s) = false /\ isLongPress (gesture s') = true /\
   startMs (tiles s') = repeat (repeat (-1) COLS) ROWS).
Proof.
  cbv zeta. unfold simulateEmittersAndActivations.
  destruct (isPointerDown (gesture s) && negb (isLongPress (gesture s))) eqn:Hp.
  - apply andb_true_iff in Hp. destruct Hp as [_ Hp]. apply negb_true_iff in Hp.
    destruct (_ >=? LONGPRESS_MS).
    + right. unfold pruneEmitters, spawnEmitter. destruct_ifs; cbn; auto.
    + left. unfold pruneEmitters, spawnEmitter. destruct_ifs; cbn; auto.
  - left. unfold pruneEmitters, spawnEmitter. destruct_ifs; cbn; auto.
Qed.

End TileLife.

Section Gesture.

Variable dist : Q -> Q -> Q -> Q -> Q.

(** A frame ends with [renderGrid], run on a state [sr] whose grid is the one
    before the frame unless the frame began a long press. *)
Lemma draw_renders realNow s :
  exists sr,
    fst (draw dist realNow s) = fst (renderGrid dist sr) /\
    logicalNow (clock sr) = logicalNow (clock (updateClock realNow s)) /\
    ((tiles sr = tiles s /\
      isLongPress (gesture sr) = isLongPress (gesture s)) \/
     (isLongPress (gesture s) = false /\ isLongPress (gesture sr) = true /\
      startMs (tiles sr) = repeat (repeat (-1) COLS) ROWS)).
Proof.
  unfold draw. cbv zeta.
  match goal with |- context [if ?b then _ else _] => destruct b end.
  - eexists. split; [reflexivity|]. split; [reflexivity|]. left. now split.
  - eexists. split; [reflexivity|]. split.
    + now rewrite simulate_clock.
    + match goal with
      | |- context [simulateEmittersAndActivations ?x] =>
          destruct (simulate_cases x) as [[H1 H2] | (H1 & H2 & H3)]
      end.
      * left. rewrite H1, H2. now split.
      * right. rewrite H2, H3. now split.
Qed.

(** The handlers of the mouse, the touches and the window leave the grid
    alone and never begin a long press. *)
Lemma handle_tiles ev s :
  match ev with
  | Draw _ => True
  | _ => tiles (handle dist ev s) = tiles s /\
         (isLongPress (gesture (handle dist ev s)) = true ->
          isLongPress (gesture s) = true)
  end.
Proof.
  destruct ev; cbn; auto;
    unfold mousePressed, mouseMoved, touchStarted, touchMoved, touchEnded,
      enterKnobMode, updateKnobWithPinch;
    destruct_ifs; cbn; auto; split; auto; discriminate.
Qed.

Lemma updateClock_nonneg realNow s :
  0 <= logicalNow (clock s) -> lastReal (clock s) <= realNow ->
  0 <= logicalNow (clock (updateClock realNow s)).
Proof.
  intros H0 H. unfold updateClock. cbn.
  destruct (clockPaused (clock s)); cbn; lra.
Qed.

Lemma handle_grid_inv ev s :
  grid_inv s -> admissible s ev -> grid_inv (handle dist ev s).
Proof.
  intros [Hnow Hcells] Hadm. destruct ev.
  1: { cbn [handle]. cbn in Hadm.
       destruct (draw_renders realNow s) as (sr & E & Hclock & Hsr). rewrite E.
       assert (Hnow' : 0 <= logicalNow (clock sr))
         by (rewrite Hclock; now apply updateClock_nonneg).
       split; [exact Hnow'|]. intros iy ix Hy Hx.
       rewrite renderGrid_startMs by assumption.
       change (gesture (fst (renderGrid dist sr))) with (gesture sr).
       destruct (Hcells iy ix Hy Hx) as [Hok Hdone].
       apply renderTile_step; try assumption.
       - destruct Hsr as [[Ht _] | (_ & _ & Ht)]; rewrite Ht;
           [exact Hok | rewrite cell_fresh by assumption; now left].
       - destruct Hsr as [[Ht Hl] | (_ & _ & Ht)]; rewrite Ht;
           [now rewrite Hl | rewrite cell_fresh by assumption; discriminate]. }
  all: match goal with
       | |- grid_inv (handle _ ?e ?s0) =>
           pose proof (handle_tiles e s0) as [Ht Hl];
           pose proof (handle_logicalNow dist e s0) as Hc
       end;
    cbn beta iota in Hc; split; [now rewrite Hc|];
    intros iy ix Hy Hx; rewrite Ht;
    destruct (Hcells iy ix Hy Hx) as [Hok Hdone]; auto.
Qed.

Lemma setup_grid_inv sh w h realNow : grid_inv (setup dist sh w h realNow).
Proof.
  split; [cbn; discriminate|]. intros iy ix Hy Hx.
  change (startMs (tiles (setup dist sh w h realNow)))
    with (repeat (repeat (-1) COLS) ROWS).
  rewrite cell_fresh by assumption. split; [now left | discriminate].
Qed.

Lemma reachable_grid_inv s : reachable dist s -> grid_inv s.
Proof.
  induction 1 as [|s ev _ IH Hadm]; [apply setup_grid_inv | now apply handle_grid_inv].
Qed.

End Gesture.

Lemma tile_step_refl a : tile_ok a -> tile_step a a.
Proof. unfold tile_step. intros [H | [H | H]]; auto 6. Qed.

Lemma tile_step_done a b : a == DONE -> tile_step a b -> b == DONE.
Proof.
  unfold tile_step, DONE, UNSET.
  intros Ha [[H _] | [[H _] | [_ H]]]; [lra | lra | exact H].
Qed.

(** C4. In every state of the running sketch, for every tile and every next
    event (frames with a wall clock that does not run backwards):
    - while [isLongPress] holds, the tile is not done, so the trigger test
      [startMs < 0] only ever sees tiles that are not triggered;
    - unless the event begins the long press of a new gesture, the tile
      makes one of the moves of [tile_step] (not triggered to triggered,
      triggered to done, or none); in particular a done tile stays done;
    - the event that begins a long press leaves the tile not triggered, or
      triggered afresh in that same frame. *)
Theorem C4_done_is_terminal_within_a_gesture
  (dist : Q -> Q -> Q -> Q -> Q) (s : state) (ev : event) (iy ix : nat) :
  let s' := handle dist ev s in
  let a := cell (startMs (tiles s)) iy ix in
  let b := cell (startMs (tiles s')) iy ix in
  reachable dist s -> admissible s ev ->
  (iy < ROWS)%nat -> (ix < COLS)%nat ->
  (isLongPress (gesture s) = true -> ~ a == DONE) /\
  (~ begins_longpress s s' -> tile_step a b) /\
  (a == DONE -> ~ begins_longpress s s' -> b == DONE) /\
  (begins_longpress s s' -> b == UNSET \/ 0 <= b).
Proof.
  intros s' a b Hreach Hadm Hy Hx.
  destruct (reachable_grid_inv dist s Hreach) as [Hnow Hcells].
  destruct (Hcells iy ix Hy Hx) as [Hok Hdone]. fold a in Hok, Hdone.
  split; [exact Hdone|].
  assert (Hstep : (~ begins_longpress s s' -> tile_step a b) /\
                  (begins_longpress s s' -> b == UNSET \/ 0 <= b)).
  { unfold a, b, s', begins_longpress. destruct ev.
    1: { cbn [handle]. cbn in Hadm.
         destruct (draw_renders dist realNow s) as (sr & E & Hclock & Hsr).
         rewrite E. rewrite renderGrid_startMs by assumption.
         change (gesture (fst (renderGrid dist sr))) with (gesture sr).
         assert (Hnow' : 0 <= logicalNow (clock sr))
           by (rewrite Hclock; now apply updateClock_nonneg).
         pose proof (renderTile_step dist sr ix iy Hnow') as Hrt. cbv zeta in Hrt.
         destruct Hsr as [[Ht Hl] | (Hl & Hl' & Ht)].
         - rewrite Ht, Hl in Hrt. destruct Hrt as (Hs & _ & _); auto.
           split; [auto|]. intros [H1 H2]. congruence.
         - rewrite Ht, cell_fresh in Hrt by assumption.
           destruct Hrt as (Hs & _ & _); [now left | discriminate |].
           split; [intro H; exfalso; apply H; now split|]. intros _.
           destruct Hs as [[_ H] | [[H _] | [H _]]];
             [exact H | exfalso; now apply H | discriminate]. }
    all: match goal with
         | |- context [handle _ ?e ?s0] =>
             pose proof (handle_tiles dist e s0) as [Ht Hl]
         end;
      rewrite Ht; split; [intros _; now apply tile_step_refl|];
      intros [H1 H2]; apply Hl in H2; congruence. }
  destruct Hstep as [H1 H2]. split; [exact H1|]. split; [|exact H2].
  intros Ha Hnb. exact (tile_step_done a b Ha (H1 Hnb)).
Qed.

(** ** A press that is held *)

Lemma Qnat_S n : Qnat (S n) == Qnat n + 1.
Proof. unfold Qnat. rewrite Nat2Z.inj_succ, <- Z.add_1_r, inject_Z_plus. reflexivity. Qed.

Lemma Qnat_nonneg n : 0 <= Qnat n.
Proof.
  unfold Qnat. change 0 with (inject_Z 0). rewrite <- Zle_Qle. apply Nat2Z.is_nonneg.
Qed.

Lemma Qnat_small n : Qnat n < 3 -> (n <= 2)%nat.
Proof.
  intro H. destruct n as [|[|[|n]]]; try lia.
  exfalso. rewrite !Qnat_S in H. pose proof (Qnat_nonneg n). lra.
Qed.

Lemma Qnat_tiny n : Qnat n < 2 -> (n <= 1)%nat.
Proof.
  intro H. destruct n as [|[|n]]; try lia.
  exfalso. rewrite !Qnat_S in H. pose proof (Qnat_nonneg n). lra.
Qed.

(** Pruning does nothing while the oldest emitter is within reach. *)
Lemma pruneEmitters_noop now s e es :
  emitters (field s) = e :: es ->
  (now - e_t0 e) * WAVE_SPEED_PX_PER_MS < maxReachDist (field s) ->
  pruneEmitters now s = s.
Proof.
  intros E H. unfold pruneEmitters. rewrite E. cbn [prune_cut].
  apply Qltb_lt in H. now rewrite H.
Qed.

Lemma spawnEmitter_field t x y s :
  (length (emitters (field s)) < MAX_EMITTERS)%nat ->
  field (spawnEmitter t x y s)
  = Field (emitters (field s) ++ [Emitter t x y]) t (maxReachDist (field s)).
Proof.
  intro H. unfold spawnEmitter.
  replace (MAX_EMITTERS <? length (emitters (field s) ++ [Emitter t x y]))%nat
    with false; [reflexivity|].
  symmetry. apply Nat.ltb_ge. rewrite length_app. cbn [length]. lia.
Qed.

Lemma pruneEmitters_set now s :
  exists kept, pruneEmitters now s = set_emitters kept s.
Proof.
  unfold pruneEmitters. destruct (0 <? _)%nat; eexists; [reflexivity|].
  symmetry. apply set_emitters_same.
Qed.

(** One run of [simulateEmittersAndActivations] while the press is held. *)
Lemma simulate_press_inv (d0 reach : Q) (P : point) (x : state) :
  40 < reach ->
  isPointerDown (gesture x) = true -> lastPointer (gesture x) = P ->
  downAtMs (gesture x) = d0 -> maxReachDist (field x) = reach ->
  logicalNow (clock x) - d0 <= 400 ->
  (isLongPress (gesture x) = true -> emit_inv d0 P x) ->
  let x' := simulateEmittersAndActivations x in
  isPointerDown (gesture x') = true /\ lastPointer (gesture x') = P /\
  downAtMs (gesture x') = d0 /\ maxReachDist (field x') = reach /\
  if isLongPress (gesture x') then emit_inv d0 P x'
  else logicalNow (clock x') - d0 < LONGPRESS_MS.
Proof.
  intros Hreach Hpd HP Hd0 Hmr Hheld Hinv.
  destruct x as [tm ly sh tl [es le mr] [pd lp lpP dn] [now lr cp] kb].
  cbn in Hpd, HP, Hd0, Hmr, Hheld, Hinv. subst pd lpP dn mr.
  cbv zeta. unfold simulateEmittersAndActivations.
  destruct lp;
    cbn [gesture clock field isPointerDown isLongPress lastPointer downAtMs
         logicalNow lastEmitMs andb negb].
  - (* the long press is under way *)
    destruct (Hinv eq_refl) as (Hne & Hall & Hlo & Hhi).
    cbn in Hne, Hall, Hlo, Hhi.
    destruct es as [|e0 es0]; [congruence|].
    assert (Hhead : (now - e_t0 e0) * WAVE_SPEED_PX_PER_MS < reach).
    { inversion Hall as [|? ? (_ & _ & H0) _]; subst.
      unfold WAVE_SPEED_PX_PER_MS, LONGPRESS_MS in *. lra. }
    assert (Hlen : Qnat (length (e0 :: es0)) < 3).
    { unfold LONGPRESS_MS, EMIT_INTERVAL_MS in Hlo. lra. }
    apply Qnat_small in Hlen.
    destruct (now - le >=? EMIT_INTERVAL_MS) eqn:Hemit.
    + apply Qgeb_ge in Hemit.
      set (x1 := spawnEmitter _ _ _ _).
      assert (Hf : field x1 = Field ((e0 :: es0) ++ [Emitter now (pt_x P) (pt_y P)])
                                    now reach).
      { unfold x1. rewrite spawnEmitter_field; [reflexivity|].
        cbn [field emitters]. unfold MAX_EMITTERS. lia. }
      rewrite (pruneEmitters_noop now x1 e0 (es0 ++ [Emitter now (pt_x P) (pt_y P)]));
        [| now rewrite Hf | now rewrite Hf].
      unfold emit_inv. rewrite Hf. cbn -[Qnat length].
      repeat split; try reflexivity.
      * discriminate.
      * constructor; [now inversion Hall|].
        apply Forall_app. split; [now inversion Hall|].
        constructor; [|constructor]. cbn. repeat split; try reflexivity.
        inversion Hall as [|? ? (_ & _ & H0) _]; subst.
        unfold EMIT_INTERVAL_MS, LONGPRESS_MS in *.
        pose proof (Qnat_nonneg (length es0)).
        change (length (e0 :: es0)) with (S (length es0)) in Hlo.
        rewrite Qnat_S in Hlo. lra.
      * change (length (e0 :: es0 ++ [Emitter now (pt_x P) (pt_y P)]))
          with (S (length (es0 ++ [Emitter now (pt_x P) (pt_y P)]))).
        rewrite length_app. cbn [length]. rewrite Nat.add_1_r, !Qnat_S.
        change (length (e0 :: es0)) with (S (length es0)) in Hlo.
        rewrite Qnat_S in Hlo.
        unfold EMIT_INTERVAL_MS, LONGPRESS_MS in *. lra.
      * lra.
    + rewrite (pruneEmitters_noop now _ e0 es0); [| reflexivity | exact Hhead].
      unfold emit_inv. cbn -[Qnat length].
      repeat split; try reflexivity; assumption.
  - (* the press is not yet a long press *)
    destruct (now - d0 >=? LONGPRESS_MS) eqn:Hlong.
    + apply Qgeb_ge in Hlong.
      unfold resetForNewGesture, initStates, spawnEmitter.
      cbn -[Qgeb repeat pruneEmitters].
      replace (now - now >=? EMIT_INTERVAL_MS) with false
        by (symmetry; apply Qgeb_lt; unfold EMIT_INTERVAL_MS; lra).
      rewrite (pruneEmitters_noop now _ (Emitter now (pt_x P) (pt_y P)) []);
        [| reflexivity | cbn; unfold WAVE_SPEED_PX_PER_MS; lra].
      unfold emit_inv. cbn -[repeat].
      repeat split; try reflexivity; try discriminate.
      * constructor; [|constructor]. cbn. repeat split; try reflexivity. lra.
      * change (Qnat 1) with 1. unfold EMIT_INTERVAL_MS, LONGPRESS_MS in *. lra.
      * lra.
    + apply Qgeb_lt in Hlong.
      match goal with
      | |- context [pruneEmitters now ?s0] =>
          destruct (pruneEmitters_set now s0) as [kept E]; rewrite E
      end.
      cbn. repeat split; try reflexivity. exact Hlong.
Qed.

Section HeldPress.

Variable dist : Q -> Q -> Q -> Q -> Q.

Lemma draw_unpaused t s :
  active (knob s) = false ->
  fst (draw dist t s)
  = fst (renderGrid dist
           (simulateEmittersAndActivations
              (set_clockPaused false
                 (set_timing (Timing (HOLD_MS (timing s))
                                     (HALF_MS + HOLD_MS (timing s))
                                     (3 * (HALF_MS + HOLD_MS (timing s))))
                             (updateClock t s))))).
Proof.
  intro H. unfold draw. cbv zeta.
  change (active (knob (set_timing
            (Timing (HOLD_MS (timing (updateClock t s)))
                    (HALF_MS + HOLD_MS (timing (updateClock t s)))
                    (3 * (HALF_MS + HOLD_MS (timing (updateClock t s)))))
            (updateClock t s))))
    with (active (knob s)).
  rewrite H. reflexivity.
Qed.

Lemma draw_press_inv (d0 off reach : Q) (P : point) (t : Q) (s : state) :
  40 < reach ->
  press_inv d0 off reach P s ->
  lastReal (clock s) <= t -> t + off - d0 <= 400 ->
  press_inv d0 off reach P (fst (draw dist t s)).
Proof.
  intros Hreach (Hk & Hcp & Hpd & HP & Hd & Hmr & Hoff & Hif) Ht Hlim.
  rewrite (draw_unpaused t s Hk).
  set (x := set_clockPaused false _).
  assert (Hclock : clock x
                   = Clock (logicalNow (clock s) + (t - lastReal (clock s))) t false).
  { unfold x, set_clockPaused, updateClock. cbn. now rewrite Hcp. }
  assert (Hg : gesture x = gesture s) by reflexivity.
  assert (Hf : field x = field s) by reflexivity.
  assert (Hkx : knob x = knob s) by reflexivity.
  destruct (simulate_press_inv d0 reach P x Hreach)
    as (H1 & H2 & H3 & H4 & H5).
  - now rewrite Hg.
  - now rewrite Hg.
  - now rewrite Hg.
  - now rewrite Hf.
  - rewrite Hclock. cbn. lra.
  - rewrite Hg. intro Hlp. rewrite Hlp in Hif.
    destruct Hif as (I1 & I2 & I3 & I4).
    unfold emit_inv. rewrite Hf, Hclock. cbn [logicalNow].
    repeat split; try assumption. lra.
  - set (x' := simulateEmittersAndActivations x) in *.
    assert (Hclock' : clock x' = clock x) by apply simulate_clock.
    unfold press_inv.
    change (knob (fst (renderGrid dist x'))) with (knob x').
    change (clock (fst (renderGrid dist x'))) with (clock x').
    change (gesture (fst (renderGrid dist x'))) with (gesture x').
    change (field (fst (renderGrid dist x'))) with (field x').
    change (emit_inv d0 P (fst (renderGrid dist x'))) with (emit_inv d0 P x').
    unfold x' at 1. rewrite simulate_knob, Hkx, Hclock', Hclock.
    cbn [logicalNow lastReal clockPaused].
    repeat split; try assumption.
    + lra.
    + rewrite Hclock', Hclock in H5. exact H5.
Qed.

Lemma held_frames_inv (d0 off reach limit : Q) (P : point) (ts : list Q) :
  40 < reach -> limit + off - d0 <= 400 ->
  forall s,
    press_inv d0 off reach P s ->
    lastReal (clock s) <= limit ->
    frames_within (lastReal (clock s)) limit ts ->
    press_inv d0 off reach P (run dist (map Draw ts) s) /\
    lastReal (clock (run dist (map Draw ts) s)) <= limit.
Proof.
  intros Hreach Hlim.
  induction ts as [|t ts IH]; intros s Hinv Hlast Hts; [now split|].
  cbn [frames_within] in Hts. destruct Hts as (H1 & H2 & H3).
  cbn [map]. rewrite run_cons. cbn [handle].
  assert (Hlr : lastReal (clock (fst (draw dist t s))) = t)
    by now rewrite draw_clock.
  apply IH.
  - apply draw_press_inv; try assumption. lra.
  - now rewrite Hlr.
  - now rewrite Hlr.
Qed.

End HeldPress.

Section UntouchedTile.

Variable dist : Q -> Q -> Q -> Q -> Q.

(** A tile that is not triggered and not hit stays as it is. *)
Lemma renderTile_unset s ix iy :
  let c := tileCenter (layout s) ix iy in
  cell (startMs (tiles s)) iy ix == UNSET ->
  hitByAnyEmitter dist (emitters (field s)) (logicalNow (clock s))
                  (pt_x c) (pt_y c) = false ->
  out_start (renderTile dist s ix iy) = cell (startMs (tiles s)) iy ix.
Proof.
  cbv zeta. intros Hu Hhit. unfold renderTile. rewrite Hhit.
  unfold UNSET in Hu.
  assert (E : (if isLongPress (gesture s) && (cell (startMs (tiles s)) iy ix <? 0)
               then (cell (startMs (tiles s)) iy ix, cell (stopAtMs (tiles s)) iy ix)
               else (cell (startMs (tiles s)) iy ix, cell (stopAtMs (tiles s)) iy ix))
              = (cell (startMs (tiles s)) iy ix, cell (stopAtMs (tiles s)) iy ix))
    by (now destruct (_ && _)).
  rewrite E, (Qeq_eq_bool _ _ Hu). reflexivity.
Qed.

Lemma simulate_layout s : layout (simulateEmittersAndActivations s) = layout s.
Proof.
  unfold simulateEmittersAndActivations, pruneEmitters, spawnEmitter.
  destruct_ifs; reflexivity.
Qed.

Lemma draw_layout t s : layout (fst (draw dist t s)) = layout s.
Proof.
  unfold draw, renderGrid. cbn.
  destruct (active (knob s)); cbn; [|rewrite simulate_layout]; reflexivity.
Qed.

Lemma draw_unset_stays t s ix iy :
  let s' := fst (draw dist t s) in
  let c := tileCenter (layout s) ix iy in
  (iy < ROWS)%nat -> (ix < COLS)%nat ->
  cell (startMs (tiles s)) iy ix == UNSET ->
  hitByAnyEmitter dist (emitters (field s')) (logicalNow (clock s'))
                  (pt_x c) (pt_y c) = false ->
  cell (startMs (tiles s')) iy ix == UNSET.
Proof.
  cbv zeta. intros Hy Hx Hu. rewrite <- (draw_layout t s).
  destruct (draw_renders dist t s) as (sr & E & _ & Hsr). rewrite E.
  change (layout (fst (renderGrid dist sr))) with (layout sr).
  change (field (fst (renderGrid dist sr))) with (field sr).
  change (clock (fst (renderGrid dist sr))) with (clock sr).
  intro Hhit. rewrite renderGrid_startMs by assumption.
  assert (Hu' : cell (startMs (tiles sr)) iy ix == UNSET).
  { destruct Hsr as [[Ht _] | (_ & _ & Ht)]; rewrite Ht;
      [exact Hu | now rewrite cell_fresh]. }
  now rewrite renderTile_unset.
Qed.

Lemma frames_unset_stay ix iy (ts : list Q) : forall s,
  let c := tileCenter (layout s) ix iy in
  (iy < ROWS)%nat -> (ix < COLS)%nat ->
  cell (startMs (tiles s)) iy ix == UNSET ->
  (forall k, (k <= length ts)%nat ->
     let sk := run dist (map Draw (firstn k ts)) s in
     hitByAnyEmitter dist (emitters (field sk)) (logicalNow (clock sk))
                     (pt_x c) (pt_y c) = false) ->
  cell (startMs (tiles (run dist (map Draw ts) s))) iy ix == UNSET.
Proof.
  induction ts as [|t ts IH]; intros s c Hy Hx Hu Hhits; [exact Hu|].
  cbn [map]. rewrite run_cons. cbn [handle]. apply IH; try assumption.
  - apply draw_unset_stays; try assumption.
    apply (Hhits 1%nat). cbn. lia.
  - intros k Hk. rewrite draw_layout.
    apply (Hhits (S k)). cbn. lia.
Qed.

End UntouchedTile.

(** What one run of [simulateEmittersAndActivations] does to the emitters
    while the pointer is down. *)
Lemma simulate_held_emitters (x : state) :
  let now := logicalNow (clock x) in
  let g := gesture x in
  let P := lastPointer g in
  let x' := simulateEmittersAndActivations x in
  isPointerDown g = true ->
  (isLongPress g = false ->
     (now - downAtMs g < LONGPRESS_MS -> isLongPress (gesture x') = false) /\
     (LONGPRESS_MS <= now - downAtMs g -> 0 < maxReachDist (field x) ->
        isLongPress (gesture x') = true /\
        emitters (field x') = [Emitter now (pt_x P) (pt_y P)] /\
        lastEmitMs (field x') = now)) /\
  (isLongPress g = true ->
     forall e0 es0, emitters (field x) = e0 :: es0 ->
       (length (e0 :: es0) < MAX_EMITTERS)%nat ->
       (now - e_t0 e0) * WAVE_SPEED_PX_PER_MS < maxReachDist (field x) ->
       isLongPress (gesture x') = true /\
       (EMIT_INTERVAL_MS <= now - lastEmitMs (field x) ->
          emitters (field x') = (e0 :: es0) ++ [Emitter now (pt_x P) (pt_y P)] /\
          lastEmitMs (field x') = now) /\
       (now - lastEmitMs (field x) < EMIT_INTERVAL_MS ->
          emitters (field x') = e0 :: es0 /\
          lastEmitMs (field x') = lastEmitMs (field x))).
Proof.
  destruct x as [tm ly sh tl [es le mr] [pd lp lpP dn] [now lr cp] kb].
  cbv zeta.
  cbn [gesture clock field isPointerDown isLongPress lastPointer downAtMs
       logicalNow lastEmitMs emitters maxReachDist].
  intro Hpd. subst pd. split.
  - intro Hlp. subst lp. unfold simulateEmittersAndActivations.
    cbn [gesture clock field isPointerDown isLongPress lastPointer downAtMs
         logicalNow lastEmitMs andb negb].
    split.
    + intro Hlt. apply Qgeb_lt in Hlt. rewrite Hlt.
      cbn [gesture isLongPress andb].
      match goal with
      | |- context [pruneEmitters now ?s0] =>
          destruct (pruneEmitters_set now s0) as [kept E]; rewrite E
      end.
      reflexivity.
    + intros Hge Hreach. apply Qgeb_ge in Hge. rewrite Hge.
      unfold resetForNewGesture, initStates, spawnEmitter.
      cbn -[Qgeb repeat pruneEmitters].
      replace (now - now >=? EMIT_INTERVAL_MS) with false
        by (symmetry; apply Qgeb_lt; unfold EMIT_INTERVAL_MS; lra).
      rewrite (pruneEmitters_noop now _ (Emitter now (pt_x lpP) (pt_y lpP)) []);
        [| reflexivity | cbn; unfold WAVE_SPEED_PX_PER_MS; lra].
      cbn. repeat split; reflexivity.
  - intros Hlp e0 es0 Hes Hlen Hhead. subst lp es.
    unfold simulateEmittersAndActivations.
    cbn [gesture clock field isPointerDown isLongPress lastPointer downAtMs
         logicalNow lastEmitMs andb negb].
    destruct (now - le >=? EMIT_INTERVAL_MS) eqn:Hemit.
    + apply Qgeb_ge in Hemit.
      set (x1 := spawnEmitter _ _ _ _).
      assert (Hf : field x1 = Field ((e0 :: es0) ++ [Emitter now (pt_x lpP) (pt_y lpP)])
                                    now mr).
      { unfold x1. rewrite spawnEmitter_field; [reflexivity|]. exact Hlen. }
      rewrite (pruneEmitters_noop now x1 e0 (es0 ++ [Emitter now (pt_x lpP) (pt_y lpP)]));
        [| now rewrite Hf | now rewrite Hf].
      rewrite Hf. cbn [emitters lastEmitMs].
      split; [reflexivity|]. split; [intros _; now split|].
      intro H. exfalso. lra.
    + apply Qgeb_lt in Hemit.
      rewrite (pruneEmitters_noop now _ e0 es0); [| reflexivity | exact Hhead].
      cbn [gesture field emitters lastEmitMs isLongPress].
      split; [reflexivity|]. split; [|intros _; now split].
      intro H. exfalso. lra.
Qed.

Section HeldTrace.

Variable dist : Q -> Q -> Q -> Q -> Q.
Variable s0 : state.
Variables mouseX mouseY : Q.

Let d0 := logicalNow (clock s0).
Let r0 := lastReal (clock s0).
Let P := Point mouseX mouseY.

Hypothesis reach_40 : 40 < maxReachDist (field s0).

(** The press after the frames [done]: the emitters are those of
    [held_emitters], and [lastEmitMs] is the time of the newest. *)
Let trace_inv (s : state) (done : list Q) : Prop :=
  press_inv d0 (d0 - r0) (maxReachDist (field s0)) P s /\
  if isLongPress (gesture s) then
    exists before t1 after e1,
      first_frame_from r0 LONGPRESS_MS done before t1 after /\
      spawned_in_frame s0 mouseX mouseY t1 e1 /\
      ((Forall (fun u => u - t1 < EMIT_INTERVAL_MS) after /\
        emitters (field s) = [e1] /\ lastEmitMs (field s) = e_t0 e1) \/
       (exists mid t2 rest e2,
          first_frame_from t1 EMIT_INTERVAL_MS after mid t2 rest /\
          spawned_in_frame s0 mouseX mouseY t2 e2 /\
          emitters (field s) = [e1; e2] /\ lastEmitMs (field s) = e_t0 e2))
  else Forall (fun u => u - r0 < LONGPRESS_MS) done.

Lemma draw_trace_inv (t : Q) (s : state) (done : list Q) :
  trace_inv s done ->
  lastReal (clock s) <= t -> t - r0 <= 400 ->
  trace_inv (fst (draw dist t s)) (done ++ [t]).
Proof.
  intros [Hpress Htrace] Ht Hlim.
  assert (Hpress' : press_inv d0 (d0 - r0) (maxReachDist (field s0)) P
                              (fst (draw dist t s))).
  { apply draw_press_inv; try assumption. lra. }
  split; [exact Hpress'|].
  destruct Hpress as (Hk & Hcp & Hpd & HP & Hd & Hmr & Hoff & Hif).
  rewrite (draw_unpaused dist t s Hk).
  set (x := set_clockPaused false _).
  assert (Hclock : clock x
                   = Clock (logicalNow (clock s) + (t - lastReal (clock s))) t false).
  { unfold x, set_clockPaused, updateClock. cbn. now rewrite Hcp. }
  assert (Hg : gesture x = gesture s) by reflexivity.
  assert (Hf : field x = field s) by reflexivity.
  change (gesture (fst (renderGrid dist (simulateEmittersAndActivations x))))
    with (gesture (simulateEmittersAndActivations x)).
  change (field (fst (renderGrid dist (simulateEmittersAndActivations x))))
    with (field (simulateEmittersAndActivations x)).
  pose proof (simulate_held_emitters x) as Hsim. cbv zeta in Hsim.
  rewrite Hg, Hf, Hclock, Hpd, HP, Hd, Hmr in Hsim.
  cbn [logicalNow] in Hsim.
  set (now := logicalNow (clock s) + (t - lastReal (clock s))) in *.
  assert (Hnow : now == d0 + (t - r0)) by (unfold now; lra).
  destruct (Hsim eq_refl) as [Hpending Hlong]. clear Hsim.
  unfold LONGPRESS_MS, EMIT_INTERVAL_MS in *.
  destruct (isLongPress (gesture s)) eqn:Hlp.
  - (* the long press is under way *)
    destruct Htrace as (before & t1 & after & e1 & (Edone & Hbefore & Ht1) & Hs1 & Hcase).
    assert (He1 : e_t0 e1 == d0 + (t1 - r0)) by apply Hs1.
    unfold emit_inv in Hif. cbv zeta in Hif.
    destruct Hcase as [(Hafter & Ees & Ele) | (mid & t2 & rest & e2 & (Eafter & Hmid & Ht2) & Hs2 & Ees & Ele)].
    + destruct (Hlong eq_refl e1 [] Ees) as (Hlp' & Hspawn & Hkeep).
      * cbn. unfold MAX_EMITTERS. lia.
      * unfold WAVE_SPEED_PX_PER_MS. lra.
      * rewrite Hlp'. exists before, t1.
        destruct (Qlt_le_dec (t - t1) 40) as [Hlt | Hge].
        -- destruct Hkeep as [Ees' Ele']; [rewrite Ele; lra|].
           exists (after ++ [t]), e1. split; [|split; [exact Hs1|]].
           ++ split; [|now split]. rewrite Edone, <- app_assoc. reflexivity.
           ++ left. split; [|split; [exact Ees' | now rewrite Ele']].
              apply Forall_app. split; [exact Hafter|]. now constructor.
        -- destruct Hspawn as [Ees' Ele']; [rewrite Ele; lra|].
           exists (after ++ [t]), e1. split; [|split; [exact Hs1|]].
           ++ split; [|now split]. rewrite Edone, <- app_assoc. reflexivity.
           ++ right. exists after, t, [], (Emitter now mouseX mouseY).
              split; [now split|]. split; [now split|].
              split; [exact Ees' | now rewrite Ele'].
    + assert (He2 : e_t0 e2 == d0 + (t2 - r0)) by apply Hs2.
      destruct (Hlong eq_refl e1 [e2] Ees) as (Hlp' & _ & Hkeep).
      * cbn. unfold MAX_EMITTERS. lia.
      * unfold WAVE_SPEED_PX_PER_MS. lra.
      * rewrite Hlp'. destruct Hkeep as [Ees' Ele']; [rewrite Ele; lra|].
        exists before, t1, (after ++ [t]), e1. split; [|split; [exact Hs1|]].
        -- split; [|now split]. rewrite Edone, <- app_assoc. reflexivity.
        -- right. exists mid, t2, (rest ++ [t]), e2.
           split; [|split; [exact Hs2|split; [exact Ees' | now rewrite Ele']]].
           split; [|now split]. rewrite Eafter, <- app_assoc. reflexivity.
  - (* the press is not yet a long press *)
    destruct (Hpending eq_refl) as [Hshort Hbegin].
    destruct (Qlt_le_dec (t - r0) 350) as [Hlt | Hge].
    + rewrite Hshort by lra.
      apply Forall_app. split; [exact Htrace|]. now constructor.
    + destruct Hbegin as (Hlp' & Ees' & Ele'); [lra | lra |].
      rewrite Hlp'. exists done, t, [], (Emitter now mouseX mouseY).
      split; [now split|]. split; [now split|].
      left. split; [constructor|]. split; [exact Ees' | exact Ele'].
Qed.

Lemma held_frames_trace (limit : Q) (ts : list Q) :
  limit - r0 <= 400 ->
  forall s done,
    trace_inv s done ->
    lastReal (clock s) <= limit ->
    frames_within (lastReal (clock s)) limit ts ->
    trace_inv (run dist (map Draw ts) s) (done ++ ts).
Proof.
  intros Hlim.
  induction ts as [|t ts IH]; intros s done Hinv Hlast Hts;
    [now rewrite app_nil_r|].
  cbn [frames_within] in Hts. destruct Hts as (H1 & H2 & H3).
  cbn [map]. rewrite run_cons. cbn [handle].
  assert (Hlr : lastReal (clock (fst (draw dist t s))) = t)
    by now rewrite draw_clock.
  replace (done ++ t :: ts) with ((done ++ [t]) ++ ts)
    by (now rewrite <- app_assoc).
  apply IH.
  - apply draw_trace_inv; try assumption. lra.
  - now rewrite Hlr.
  - now rewrite Hlr.
Qed.

(** The emitters of a press held over [ts]. *)
Lemma held_press_emitters (ts : list Q) :
  active (knob s0) = false -> clockPaused (clock s0) = false ->
  frames_within r0 (r0 + 400) ts ->
  let s := held_press dist s0 mouseX mouseY ts in
  if isLongPress (gesture s)
  then held_emitters s0 mouseX mouseY ts (emitters (field s))
  else Forall (fun u => u - r0 < LONGPRESS_MS) ts.
Proof.
  intros Hk Hcp Hts s.
  set (s1 := mousePressed mouseX mouseY s0).
  assert (Hs1 : s1 = set_gesture (Gesture true false P d0) s0)
    by (unfold s1, mousePressed; now rewrite Hk).
  assert (Hinv1 : trace_inv s1 []).
  { split; [|rewrite Hs1; constructor].
    rewrite Hs1. unfold press_inv. cbn. repeat split; auto;
      unfold LONGPRESS_MS, d0, r0; lra. }
  destruct (held_frames_trace (r0 + 400) ts ltac:(lra) s1 [] Hinv1) as [_ Htrace].
  - rewrite Hs1. cbn. unfold r0. lra.
  - rewrite Hs1. exact Hts.
  - change (run dist (map Draw ts) s1) with s in Htrace. cbn [app] in Htrace.
    destruct (isLongPress (gesture s)); [|exact Htrace].
    destruct Htrace as (before & t1 & after & e1 & H1 & H2 & Hcase).
    exists before, t1, after, e1. split; [exact H1|]. split; [exact H2|].
    destruct Hcase as [(Ha & Ees & _) | (mid & t2 & rest & e2 & Hf & Hs2 & Ees & _)].
    + left. split; assumption.
    + right. exists mid, t2, rest, e2.
      split; [exact Hf|]. split; [exact Hs2 | exact Ees].
Qed.

End HeldTrace.

(** C3, amended.  With the knob off, a press at [(mouseX, mouseY)] is held
    without moving over frames that span at most 400 ms.  Before
    [LONGPRESS_MS] = 350 ms of logical time have passed there is no long
    press.  Once they have passed, the emitters are exactly these: one from
    the first frame that came 350 ms or more after the press, and a second
    one from the first frame that came [EMIT_INTERVAL_MS] = 40 ms or more
    after that frame, if there was such a frame; each is at the press
    position and carries the logical time of its frame.  So there are one
    or two emitters, none spawned before the long press, and exactly one as
    long as fewer than [LONGPRESS_MS + EMIT_INTERVAL_MS] = 390 ms have
    passed.  A tile that was not triggered, and whose centre no wave front
    covers in any of the frames, is still not triggered.  ([maxReachDist]
    is more than 40, as the layout makes it, so that no ring of these 50 ms
    is pruned.) *)
Theorem C3_held_press_one_or_two_emitters
  (dist : Q -> Q -> Q -> Q -> Q) (s0 : state) (mouseX mouseY : Q) (ts : list Q) :
  let s := held_press dist s0 mouseX mouseY ts in
  let held := logicalNow (clock s) - logicalNow (clock s0) in
  let es := emitters (field s) in
  active (knob s0) = false -> clockPaused (clock s0) = false ->
  40 < maxReachDist (field s0) ->
  frames_within (lastReal (clock s0)) (lastReal (clock s0) + 400) ts ->
  held <= 400 /\
  (held < LONGPRESS_MS -> isLongPress (gesture s) = false) /\
  (LONGPRESS_MS <= held ->
     held_emitters s0 mouseX mouseY ts es /\
     Forall (fun e => e_x e = mouseX /\ e_y e = mouseY /\
                      logicalNow (clock s0) + LONGPRESS_MS <= e_t0 e) es /\
     (1 <= length es <= 2)%nat /\
     (held < LONGPRESS_MS + EMIT_INTERVAL_MS -> length es = 1%nat)) /\
  (forall iy ix,
     (iy < ROWS)%nat -> (ix < COLS)%nat ->
     cell (startMs (tiles s0)) iy ix == UNSET ->
     (forall k, (k <= length ts)%nat ->
        let sk := held_press dist s0 mouseX mouseY (firstn k ts) in
        hitByAnyEmitter dist (emitters (field sk)) (logicalNow (clock sk))
          (pt_x (tileCenter (layout s0) ix iy))
          (pt_y (tileCenter (layout s0) ix iy)) = false) ->
     cell (startMs (tiles s)) iy ix == UNSET).
Proof.
  intros s held es Hk Hcp Hreach Hts.
  pose proof (held_press_emitters dist s0 mouseX mouseY Hreach ts Hk Hcp Hts)
    as Hexact.
  cbv zeta in Hexact. fold s in Hexact. fold es in Hexact.
  set (d0 := logicalNow (clock s0)).
  set (off := d0 - lastReal (clock s0)).
  set (s1 := mousePressed mouseX mouseY s0).
  assert (Hs1 : s1 = set_gesture (Gesture true false (Point mouseX mouseY) d0) s0)
    by (unfold s1, mousePressed; now rewrite Hk).
  assert (Hinv1 : press_inv d0 off (maxReachDist (field s0)) (Point mouseX mouseY) s1).
  { rewrite Hs1. unfold press_inv. cbn. repeat split; auto.
    unfold LONGPRESS_MS. fold d0. lra. }
  destruct (held_frames_inv dist d0 off (maxReachDist (field s0))
              (lastReal (clock s0) + 400) (Point mouseX mouseY) ts Hreach)
    with (s := s1) as [Hinv Hlast].
  - unfold off. lra.
  - exact Hinv1.
  - rewrite Hs1. cbn. lra.
  - rewrite Hs1. exact Hts.
  - change (run dist (map Draw ts) s1) with s in Hinv, Hlast.
    destruct Hinv as (_ & _ & _ & _ & _ & _ & Hoff & Hif).
    assert (Hheld : held <= 400) by (unfold held, off in *; fold d0; lra).
    split; [exact Hheld|].
    unfold emit_inv in Hif. fold es in Hif. cbv zeta in Hif.
    unfold LONGPRESS_MS, EMIT_INTERVAL_MS in *.
    split; [|split].
    + intro H. destruct (isLongPress (gesture s)); [|reflexivity].
      destruct Hif as (I1 & _ & I3 & I4). exfalso.
      assert (Hn : (1 <= length es)%nat \/ length es = 0%nat) by lia.
      unfold held in H. fold d0 in H.
      destruct Hn as [Hn | Hn].
      * destruct (length es) as [|n]; [lia|]. rewrite Qnat_S in I3.
        pose proof (Qnat_nonneg n). lra.
      * apply I1. now apply length_zero_iff_nil.
    + intro H. destruct (isLongPress (gesture s)).
      2: { exfalso. unfold held in H. fold d0 in H. lra. }
      destruct Hif as (I1 & I2 & I3 & I4).
      assert (Hpos : (1 <= length es)%nat).
      { destruct es; [congruence | cbn; lia]. }
      split; [exact Hexact|].
      split; [exact I2|]. split.
      * split; [exact Hpos|]. apply Qnat_small.
        unfold held in Hheld. fold d0 in Hheld. lra.
      * intro Hlt. assert (Hle : (length es <= 1)%nat); [|lia].
        apply Qnat_tiny. unfold held in Hlt. fold d0 in Hlt. lra.
    + intros iy ix Hy Hx Hu Hhits.
      apply (frames_unset_stay dist ix iy ts s1); try assumption.
      * now rewrite Hs1.
      * assert (Hl : layout s1 = layout s0) by now rewrite Hs1.
        intros k Hk'. rewrite Hl. exact (Hhits k Hk').
Qed.

(** ** The session, step by step *)

Lemma reachable_run (dist : Q -> Q -> Q -> Q -> Q) (evs : list event) :
  forall s, reachable dist s -> admissible_all dist s evs ->
            reachable dist (run dist evs s).
Proof.
  induction evs as [|ev evs IH]; intros s Hs Hadm; [exact Hs|].
  destruct Hadm as [H1 H2]. rewrite run_cons.
  apply IH; [now apply reach_step | exact H2].
Qed.

(** Closed comparisons of rationals, by computation. *)
Ltac qcompute :=
  vm_compute;
  first [ reflexivity | discriminate | exact I
        | let H := fresh in intro H; discriminate H ].

Lemma example_released_reachable : reachable dist_isqrt example_released.
Proof.
  apply reachable_run; [apply reach_setup|].
  vm_compute. repeat split; intro H; discriminate H.
Qed.

(** ** A stop planned before a retune *)

Lemma example_retuned_reachable : reachable dist_isqrt example_retuned.
Proof.
  apply reachable_run; [apply example_released_reachable|].
  vm_compute. repeat split; intro H; discriminate H.
Qed.

(** C1 fails on the code.  In the session of [example_retune] the first
    tile is triggered at 1000, the gesture is released, and the frame at
    2000 plans the stop for 6400 with [CYCLE_MS] = 5400; then the knob sets
    [HOLD_MS] to 30, and from the next frame on [CYCLE_MS] is 990.  The
    stop is not planned again.  The frame at 6390 finds the tile 440 ms
    into a cycle, in stage 1 and 110 ms into its morph, and draws an
    outline that is not the square; the frame at 6400 marks the tile done
    and draws the square, 5400 ms after the trigger, which is 5 cycles of
    990 ms and 450 ms more: the tile stops in the middle of a stage. *)
Lemma C1_retuned_tile_stops_mid_stage :
  let s := example_retuned in
  let c := tileCenter (layout s) 0 0 in
  let sqr := drawShape (sScale (layout s)) (sqrX (shapes s)) (sqrY (shapes s)) in
  let frame1 := snd (draw dist_isqrt 6390 s) in
  let frame2 := snd (draw dist_isqrt 6400 example_stale) in
  let cycle := CYCLE_MS (timing example_stopped) in
  reachable dist_isqrt example_stopped /\
  (isLongPress (gesture s) = false /\
   cell (startMs (tiles s)) 0 0 == 1000 /\
   cell (stopAtMs (tiles s)) 0 0 == 6400) /\
  (logicalNow (clock example_stale) == 6390 /\
   CYCLE_MS (timing example_stale) == 990 /\
   SEG_MS (timing example_stale) == 330 /\
   cell (startMs (tiles example_stale)) 0 0 == 1000 /\
   cell (stopAtMs (tiles example_stale)) 0 0 == 6400 /\
   js_rem (6390 - 1000) 990 == 440 /\
   Math.floor (440 / 330) == 1 /\
   nth 0 frame1 (c, []) =
     (c, drawLoopCycle (shapes s) (timing example_stale) (6390 - 1000)
           (sScale (layout s))) /\
   ~ outline_eq (snd (nth 0 frame1 (c, []))) sqr) /\
  (logicalNow (clock example_stopped) == 6400 /\ cycle == 990 /\
   cell (startMs (tiles example_stopped)) 0 0 == DONE /\
   nth 0 frame2 (c, []) = (c, sqr) /\
   js_rem (6400 - 1000) cycle == 450 /\
   ~ exists k : Z, 6400 - 1000 == inject_Z k * cycle).
Proof.
  cbv zeta. split; [|split; [|split]].
  - unfold example_stopped, example_stale.
    apply reach_step; [apply reach_step; [apply example_retuned_reachable|]|];
      vm_compute; intro H; discriminate H.
  - split; [vm_compute; reflexivity|]. split; vm_compute; reflexivity.
  - repeat (split; [vm_compute; reflexivity|]).
    intro H.
    assert (Hx : fst (nth 0 (snd (nth 0 (snd (draw dist_isqrt 6390 example_retuned))
                                    (tileCenter (layout example_retuned) 0 0, [])))
                          (0, 0))
                 == fst (nth 0 (drawShape (sScale (layout example_retuned))
                                  (sqrX (shapes example_retuned))
                                  (sqrY (shapes example_retuned))) (0, 0))).
    { revert H.
      generalize (snd (nth 0 (snd (draw dist_isqrt 6390 example_retuned))
                         (tileCenter (layout example_retuned) 0 0, []))).
      generalize (drawShape (sScale (layout example_retuned))
                    (sqrX (shapes example_retuned)) (sqrY (shapes example_retuned))).
      intros a b H. destruct H as [|v w ? ? [Hv _] _]; [reflexivity | exact Hv]. }
    revert Hx. clear. vm_compute. intro H. discriminate H.
  - repeat (split; [vm_compute; reflexivity|]).
    assert (E : CYCLE_MS (timing example_stopped) = 990)
      by (vm_compute; reflexivity).
    rewrite E. intros [k H]. unfold Qeq in H. cbn in H. lia.
Qed.

(** C3 as stated fails: with frames at 350 ms and 400 ms after the press,
    the press has been held for 400 ms without moving and there are two
    emitters, the second spawned [EMIT_INTERVAL_MS] or more after the
    first. *)
Lemma C3_counterexample_second_emitter :
  let s := held_press dist_isqrt example_start 100 100 [350; 400] in
  isPointerDown (gesture s) = true /\
  lastPointer (gesture s) = Point 100 100 /\
  logicalNow (clock s) - downAtMs (gesture s) == 400 /\
  emitters (field s) = [Emitter 350 100 100; Emitter 400 100 100] /\
  ~ (exists e, emitters (field s) = [e]).
Proof.
  assert (E : emitters (field (held_press dist_isqrt example_start 100 100 [350; 400]))
              = [Emitter 350 100 100; Emitter 400 100 100])
    by (vm_compute; reflexivity).
  cbv zeta. rewrite E.
  split; [vm_compute; reflexivity|].
  split; [vm_compute; reflexivity|].
  split; [vm_compute; reflexivity|].
  split; [reflexivity|].
  intros [e H]. discriminate H.
Qed.

(** ** The properties on the session *)

(** X17 on the session: the frame at 2000 after release plans the stop of the
    first tile, triggered at 1000, for 6400. *)
Lemma X17_witness_stop_at_6400 :
  cell (startMs (tiles example_release_frame)) 0 0 == 1000 /\
  logicalNow (clock example_release_frame) == 2000 /\
  cell (stopAtMs (tiles (fst (renderGrid dist_isqrt example_release_frame)))) 0 0
  == 6400.
Proof.
  pose proof (X17_release_plans_next_cycle_boundary
                dist_isqrt example_release_frame 0%nat 0%nat) as H.
  cbv zeta in H.
  specialize (H ltac:(unfold ROWS; lia) ltac:(unfold COLS; lia)
                ltac:(qcompute) ltac:(qcompute) ltac:(qcompute) ltac:(qcompute)).
  destruct H as (_ & _ & _ & _ & H).
  split; [qcompute|]. split; [qcompute|].
  apply H; qcompute.
Defined.

(** C2 on one emitter at the origin: the point (60, 80), at distance 100, is
    covered at age 100. *)
Lemma C2_witness_distance_100 :
  dist_isqrt 60 80 0 0 == 100 /\
  hitByAnyEmitter dist_isqrt [Emitter 0 0 0] 100 60 80 = true.
Proof.
  destruct (C2_hitByAnyEmitter_annulus dist_isqrt [Emitter 0 0 0] 100 60 80)
    as (_ & _ & _ & H).
  split; [qcompute|].
  apply (H (Emitter 0 0 0)); [qcompute|]. split; qcompute.
Defined.

(** C3, amended, on a press held over frames at 350 and 380: one emitter. *)
Lemma C3_witness_one_emitter_before_390 :
  length (emitters (field (held_press dist_isqrt example_start 100 100 [350; 380])))
  = 1%nat.
Proof.
  pose proof (C3_held_press_one_or_two_emitters
                dist_isqrt example_start 100 100 [350; 380]) as H.
  cbv zeta in H.
  specialize (H ltac:(qcompute) ltac:(qcompute) ltac:(qcompute)
                ltac:(vm_compute; repeat split; intro H'; discriminate H')).
  destruct H as (_ & _ & H & _).
  destruct H as (_ & _ & _ & H); [qcompute|].
  apply H. qcompute.
Defined.

(** C4 on the session: the first tile, triggered at 1000, is still
    triggered, with the same trigger time, after the frame at 2000. *)
Lemma C4_witness_triggered_tile :
  tile_step (cell (startMs (tiles example_released)) 0 0)
            (cell (startMs (tiles (handle dist_isqrt (Draw 2000) example_released))) 0 0).
Proof.
  pose proof (C4_done_is_terminal_within_a_gesture
                dist_isqrt example_released (Draw 2000) 0%nat 0%nat) as H.
  cbv zeta in H.
  specialize (H example_released_reachable ltac:(qcompute)
                ltac:(unfold ROWS; lia) ltac:(unfold COLS; lia)).
  destruct H as (_ & H & _).
  apply H. intros [_ H']. vm_compute in H'. discriminate H'.
Defined.

(** C5 at [HOLD_MS] = 1500, one cycle after the trigger. *)
Lemma C5_witness_after_one_cycle :
  outline_eq
    (drawLoopCycle example_shapes (Timing 1500 (HALF_MS + 1500) (3 * (HALF_MS + 1500)))
                   5400 1)
    (drawShape 1 (sqrX example_shapes) (sqrY example_shapes)).
Proof.
  apply (C5_cycle_boundary_is_square example_shapes 1500 5400 1); qcompute.
Defined.

(** C6 on two pinch updates, one far above the range and one back. *)
Lemma C6_witness_two_pinches :
  hold_in_range
    (pinch_all dist_isqrt
       (firstn 2 [[Point 0 0; Point 3000 4000]; [Point 0 0; Point 3 4]])
       example_tuning).
Proof.
  apply (C6_hold_stays_in_range dist_isqrt example_tuning
           [[Point 0 0; Point 3000 4000]; [Point 0 0; Point 3 4]] 2
           [Draw 200]); qcompute.
Defined.

(** C7 in knob mode: two frames and a pinch leave [logicalNow] at 100. *)
Lemma C7_witness_frozen_at_100 :
  logicalNow (clock (run dist_isqrt
                       [Draw 116; TouchMoved [Point 300 300; Point 330 340]; Draw 133]
                       example_tuning))
  = logicalNow (clock example_tuning).
Proof.
  destruct (C7_clock_frozen_while_tuning dist_isqrt example_tuning 116
              (Draw 116)
              [Draw 116; TouchMoved [Point 300 300; Point 330 340]; Draw 133])
    as (_ & _ & H).
  apply H.
  - qcompute.
  - vm_compute. repeat split; reflexivity.
Defined.

(** C8 on the session. *)
Lemma C8_witness_released :
  active (knob example_released) = clockPaused (clock example_released).
Proof.
  apply (C8_knob_active_iff_clock_paused dist_isqrt example_released).
  exact example_released_reachable.
Defined.

(** C10 in knob mode: frames at 200 and 300, a click, and a frame at 316
    advance [logicalNow] by 16. *)
Lemma C10_witness_resume_by_16 :
  logicalNow (clock (run dist_isqrt
                       (map Draw [200; 300] ++ [MousePressed 5 5; Draw 316])
                       example_tuning))
  = logicalNow (clock example_tuning) + (316 - 300).
Proof.
  destruct (C10_resume_skips_paused_time dist_isqrt example_tuning []
              [200; 300] 5 5 316) as (_ & H).
  apply H; qcompute.
Defined.

(** * Further properties of the sketch *)

(** ** The emitter array *)

Lemma last_app_nonempty {A} (l1 l2 : list A) (d : A) :
  l2 <> [] -> last (l1 ++ l2) d = last l2 d.
Proof.
  intro H. induction l1 as [|a l1 IH]; [reflexivity|].
  cbn [app]. rewrite <- IH.
  destruct (l1 ++ l2) eqn:E; [|reflexivity].
  apply app_eq_nil in E. destruct E. contradiction.
Qed.

Lemma last_skipn {A} (k : nat) (l : list A) (d : A) :
  skipn k l <> [] -> last (skipn k l) d = last l d.
Proof.
  intro H. rewrite <- (firstn_skipn k l) at 2.
  symmetry. now apply last_app_nonempty.
Qed.

(** X1. [spawnEmitter] appends the new emitter, records its time in
    [lastEmitMs], and keeps the newest [MAX_EMITTERS] emitters: whatever the
    length was, the array ends with the new emitter, is a suffix of the old
    array extended by it, and has [min (length + 1) MAX_EMITTERS]
    elements. *)
Theorem X1_spawnEmitter_keeps_newest (t x y : Q) (s : state) :
  let es := emitters (field s) in
  let es' := emitters (field (spawnEmitter t x y s)) in
  (exists dropped, es ++ [Emitter t x y] = dropped ++ es') /\
  last es' (Emitter 0 0 0) = Emitter t x y /\
  length es' = Nat.min (S (length es)) MAX_EMITTERS /\
  lastEmitMs (field (spawnEmitter t x y s)) = t /\
  maxReachDist (field (spawnEmitter t x y s)) = maxReachDist (field s).
Proof.
  cbv zeta. unfold spawnEmitter. cbn [field emitters lastEmitMs maxReachDist set_field].
  set (all := emitters (field s) ++ [Emitter t x y]).
  assert (Hlen : length all = S (length (emitters (field s))))
    by (unfold all; rewrite length_app; cbn; lia).
  destruct (MAX_EMITTERS <? length all)%nat eqn:E.
  - apply Nat.ltb_lt in E.
    split; [exists (firstn (length all - MAX_EMITTERS) all);
            now rewrite firstn_skipn|].
    split; [|split; [|split; reflexivity]].
    + assert (Hsplit : all = firstn (length all - MAX_EMITTERS) all
                             ++ skipn (length all - MAX_EMITTERS) all)
        by now rewrite firstn_skipn.
      assert (Hne : skipn (length all - MAX_EMITTERS) all <> []).
      { intro H0. apply (f_equal (@length emitter)) in H0.
        rewrite length_skipn in H0. cbn in H0. unfold MAX_EMITTERS in *. lia. }
      assert (Hlast : last all (Emitter 0 0 0) = Emitter t x y)
        by (unfold all; apply last_last).
      rewrite Hsplit in Hlast. rewrite last_app_nonempty in Hlast by exact Hne.
      exact Hlast.
    + rewrite length_skipn, <- Hlen. lia.
  - apply Nat.ltb_ge in E.
    split; [now exists []|].
    split; [unfold all; apply last_last|].
    split; [|split; reflexivity]. rewrite <- Hlen. lia.
Qed.

(** ** The emitter array in the running sketch *)

Lemma spaced_tail e es : spaced (e :: es) -> spaced es.
Proof. cbn. tauto. Qed.

Lemma spaced_skipn k : forall es, spaced es -> spaced (skipn k es).
Proof.
  induction k as [|k IH]; intros [|e es] H; cbn [skipn]; auto.
  apply IH. now apply spaced_tail in H.
Qed.

Lemma spaced_app_one (e : emitter) : forall es,
  spaced es ->
  (es <> [] -> e_t0 (last es (Emitter 0 0 0)) + EMIT_INTERVAL_MS <= e_t0 e) ->
  spaced (es ++ [e]).
Proof.
  induction es as [|a es IH]; intros Hs Hl; [cbn; auto|].
  destruct es as [|b es].
  - cbn. split; [|auto]. apply Hl. discriminate.
  - destruct Hs as [Hab Hs]. cbn [app]. split; [exact Hab|].
    apply IH; [exact Hs|]. intros _. apply Hl. discriminate.
Qed.

Lemma spaced_time_ordered : forall es, spaced es -> time_ordered es.
Proof.
  induction es as [|a es IH]; [auto|]. intros [H Hs]. split; [|auto].
  destruct es; [exact I|]. unfold EMIT_INTERVAL_MS in H. lra.
Qed.

Lemma Forall_skipn {A} (P : A -> Prop) k : forall l, Forall P l -> Forall P (skipn k l).
Proof.
  induction k as [|k IH]; intros [|a l] H; cbn [skipn]; auto.
  apply IH. now inversion H.
Qed.

(** Dropping the oldest emitters keeps the field as it should be. *)
Lemma field_ok_skipn now k es le reach :
  field_ok now (Field es le reach) -> field_ok now (Field (skipn k es) le reach).
Proof.
  intros (H1 & H2 & H3 & H4). unfold field_ok. cbn [emitters lastEmitMs] in *.
  split; [now apply spaced_skipn|]. split; [now apply Forall_skipn|]. split.
  - intro Hne. rewrite last_skipn by exact Hne. apply H3.
    intro E. apply Hne. rewrite E. now destruct k.
  - rewrite length_skipn. lia.
Qed.

Lemma field_ok_later now now' f : now <= now' -> field_ok now f -> field_ok now' f.
Proof.
  intros Hle (H1 & H2 & H3 & H4). repeat split; auto.
  eapply Forall_impl; [|exact H2]. cbn. intros. lra.
Qed.

Lemma pruneEmitters_field_ok t now s :
  field_ok now (field s) -> field_ok now (field (pruneEmitters t s)).
Proof.
  intro H. unfold pruneEmitters. destruct (0 <? _)%nat; [|exact H].
  unfold set_emitters. cbn [field set_field].
  apply field_ok_skipn. now destruct (field s).
Qed.

Lemma spawnEmitter_field_ok now x y s :
  field_ok now (field s) ->
  (emitters (field s) <> [] -> lastEmitMs (field s) + EMIT_INTERVAL_MS <= now) ->
  field_ok now (field (spawnEmitter now x y s)).
Proof.
  intros (H1 & H2 & H3 & H4) Hgap. unfold spawnEmitter. cbn [field set_field].
  set (all := emitters (field s) ++ [Emitter now x y]).
  assert (A1 : spaced all).
  { apply spaced_app_one; [exact H1|]. intro Hne. cbn [e_t0].
    rewrite <- (H3 Hne). now apply Hgap. }
  assert (A2 : Forall (fun e => e_t0 e <= now) all).
  { apply Forall_app. split; [exact H2|]. constructor; [cbn; lra|constructor]. }
  assert (A3 : last all (Emitter 0 0 0) = Emitter now x y) by apply last_last.
  assert (A4 : length all = S (length (emitters (field s))))
    by (unfold all; rewrite length_app; cbn; lia).
  unfold field_ok. cbn [emitters lastEmitMs].
  destruct (MAX_EMITTERS <? length all)%nat eqn:E.
  - split; [now apply spaced_skipn|]. split; [now apply Forall_skipn|]. split.
    + intro Hne. now rewrite last_skipn, A3.
    + rewrite length_skipn. lia.
  - apply Nat.ltb_ge in E. split; [exact A1|]. split; [exact A2|]. split.
    + intros _. now rewrite A3.
    + exact E.
Qed.

Lemma resetForNewGesture_field s :
  field (resetForNewGesture s) = Field [] 0 (maxReachDist (field s)).
Proof. reflexivity. Qed.

(** One run of [simulateEmittersAndActivations] at logical time [now]. *)
Lemma simulate_field_ok s :
  field_ok (logicalNow (clock s)) (field s) ->
  field_ok (logicalNow (clock s)) (field (simulateEmittersAndActivations s)).
Proof.
  intro H. unfold simulateEmittersAndActivations.
  set (now := logicalNow (clock s)) in *.
  apply pruneEmitters_field_ok.
  set (s1 := if isPointerDown (gesture s) && negb (isLongPress (gesture s)) then _ else s).
  assert (H1 : field_ok now (field s1)).
  { unfold s1. destruct (_ && _); [|exact H].
    destruct (_ >=? LONGPRESS_MS); [|exact H].
    apply spawnEmitter_field_ok.
    - rewrite resetForNewGesture_field. unfold field_ok. cbn.
      repeat split; auto; try congruence; lia.
    - rewrite resetForNewGesture_field. cbn. congruence. }
  destruct (isLongPress (gesture s1) && _) eqn:E; [|exact H1].
  apply andb_true_iff in E. destruct E as [_ E]. apply Qgeb_ge in E.
  apply spawnEmitter_field_ok; [exact H1|]. intros _. lra.
Qed.

Section EmittersOverTime.

Variable dist : Q -> Q -> Q -> Q -> Q.

(** A frame in knob mode runs neither the gesture nor the emitters. *)
Lemma draw_paused t s :
  active (knob s) = true ->
  field (fst (draw dist t s)) = field s /\
  gesture (fst (draw dist t s)) = gesture s.
Proof.
  intro H. unfold draw. cbv zeta.
  change (active (knob (set_timing
            (Timing (HOLD_MS (timing (updateClock t s)))
                    (HALF_MS + HOLD_MS (timing (updateClock t s)))
                    (3 * (HALF_MS + HOLD_MS (timing (updateClock t s)))))
            (updateClock t s))))
    with (active (knob s)).
  rewrite H. split; reflexivity.
Qed.

(** The handlers of the mouse, the touches and the window leave the
    emitters alone. *)
Lemma handle_emitters ev s :
  match ev with
  | Draw _ => True
  | _ => emitters (field (handle dist ev s)) = emitters (field s) /\
         lastEmitMs (field (handle dist ev s)) = lastEmitMs (field s)
  end.
Proof.
  destruct ev; cbn; auto;
    unfold mousePressed, mouseMoved, touchStarted, touchMoved, touchEnded,
      enterKnobMode, updateKnobWithPinch;
    destruct_ifs; cbn; auto.
Qed.

Lemma handle_field_ok ev s :
  admissible s ev ->
  field_ok (logicalNow (clock s)) (field s) ->
  field_ok (logicalNow (clock (handle dist ev s))) (field (handle dist ev s)).
Proof.
  intros Hadm H. destruct ev.
  1: { cbn [handle]. cbn in Hadm. rewrite draw_clock. cbn [logicalNow].
       set (now' := if clockPaused (clock s) then _ else _).
       assert (Hle : logicalNow (clock s) <= now')
         by (unfold now'; destruct (clockPaused (clock s)); lra).
       destruct (active (knob s)) eqn:Hk.
       - destruct (draw_paused realNow s Hk) as [E _]. rewrite E.
         now apply (field_ok_later (logicalNow (clock s))).
       - rewrite (draw_unpaused dist realNow s Hk).
         change (field (fst (renderGrid dist ?x))) with (field x).
         set (x := set_clockPaused false _).
         assert (Hx : logicalNow (clock x) = now').
         { unfold x, now', set_clockPaused, updateClock. cbn.
           now destruct (clockPaused (clock s)). }
         rewrite <- Hx. apply simulate_field_ok. rewrite Hx.
         now apply (field_ok_later (logicalNow (clock s))). }
  all: match goal with
       | |- context [handle _ ?e ?s0] =>
           pose proof (handle_emitters e s0) as [He Hl];
           pose proof (handle_logicalNow dist e s0) as Hc
       end;
    cbn beta iota in Hc; rewrite Hc;
    destruct H as (H1 & H2 & H3 & H4); unfold field_ok;
    rewrite He, Hl; auto.
Qed.

Lemma reachable_field_ok s :
  reachable dist s -> field_ok (logicalNow (clock s)) (field s).
Proof.
  induction 1 as [|s ev _ IH Hadm]; [|now apply handle_field_ok].
  unfold field_ok. cbn. repeat split; auto; try congruence; lia.
Qed.

(** X2. In every state of the running sketch the emitter array holds at
    most [MAX_EMITTERS] emitters. *)
Theorem X2_emitters_capped (s : state) :
  reachable dist s -> (length (emitters (field s)) <= MAX_EMITTERS)%nat.
Proof. intro H. now destruct (reachable_field_ok s H) as (_ & _ & _ & H4). Qed.

(** X3. In every state of the running sketch the emitters are in the order
    of their spawn times, successive ones [EMIT_INTERVAL_MS] or more apart,
    none spawned after the current logical time; and [lastEmitMs] is the
    spawn time of the newest emitter, when there is one. *)
Theorem X3_emitters_spaced_in_time (s : state) :
  reachable dist s ->
  spaced (emitters (field s)) /\
  time_ordered (emitters (field s)) /\
  Forall (fun e => e_t0 e <= logicalNow (clock s)) (emitters (field s)) /\
  (emitters (field s) <> [] ->
   lastEmitMs (field s) = e_t0 (last (emitters (field s)) (Emitter 0 0 0))).
Proof.
  intro H. destruct (reachable_field_ok s H) as (H1 & H2 & H3 & _).
  repeat split; auto. now apply spaced_time_ordered.
Qed.

End EmittersOverTime.

Lemma X2_witness_released :
  (length (emitters (field example_released)) <= MAX_EMITTERS)%nat.
Proof.
  apply (X2_emitters_capped dist_isqrt example_released).
  exact example_released_reachable.
Defined.

Lemma X3_witness_released :
  time_ordered (emitters (field example_released)) /\
  Forall (fun e => e_t0 e <= logicalNow (clock example_released))
         (emitters (field example_released)).
Proof.
  destruct (X3_emitters_spaced_in_time dist_isqrt example_released
              example_released_reachable) as (_ & H2 & H3 & _).
  now split.
Defined.

(** ** Pruning a time-ordered array *)

Lemma pruneEmitters_split (now : Q) (s : state) :
  exists gone kept,
    emitters (field s) = gone ++ kept /\
    emitters (field (pruneEmitters now s)) = kept /\
    Forall (fun e => within_reach now (maxReachDist (field s)) e = false) gone /\
    match kept with
    | [] => True
    | e :: _ => within_reach now (maxReachDist (field s)) e = true
    end.
Proof.
  unfold pruneEmitters.
  destruct (emitters (field s)) as [|e es] eqn:Ees.
  - exists [], []. cbn. rewrite Ees. repeat split; auto.
  - destruct (prune_cut_spec now (maxReachDist (field s))
                (length (e :: es)) (e :: es) 0)
      as (gone & kept & E & Hc & Hf & Hk); [discriminate | reflexivity |].
    exists gone, kept. rewrite Hc. cbn [plus].
    split; [exact E|]. split; [|split; assumption].
    destruct gone as [|g gone'].
    + cbn in *. now rewrite Ees.
    + replace (0 <? length (g :: gone'))%nat with true by reflexivity.
      cbn [set_emitters field set_field emitters]. rewrite E.
      now rewrite skipn_app, skipn_all, Nat.sub_diag.
Qed.

Lemma time_ordered_head e es :
  time_ordered (e :: es) -> Forall (fun e' => e_t0 e <= e_t0 e') es.
Proof.
  revert e. induction es as [|a es IH]; intros e H; [constructor|].
  destruct H as [Hea Ht]. constructor; [exact Hea|].
  eapply Forall_impl; [|apply (IH a Ht)]. cbn. intros. lra.
Qed.

Lemma within_reach_younger now reach e e' :
  e_t0 e <= e_t0 e' -> within_reach now reach e = true ->
  within_reach now reach e' = true.
Proof.
  unfold within_reach. rewrite !Qltb_lt. unfold WAVE_SPEED_PX_PER_MS. intros. lra.
Qed.

Lemma filter_none {A} (f : A -> bool) (l : list A) :
  Forall (fun a => f a = false) l -> filter f l = [].
Proof. induction 1 as [|a l Ha _ IH]; cbn; [|rewrite Ha]; auto. Qed.

Lemma filter_all {A} (f : A -> bool) (l : list A) :
  Forall (fun a => f a = true) l -> filter f l = l.
Proof. induction 1 as [|a l Ha _ IH]; cbn; [|rewrite Ha, IH]; auto. Qed.

Lemma time_ordered_app_r : forall es1 es2, time_ordered (es1 ++ es2) -> time_ordered es2.
Proof.
  induction es1 as [|a es1 IH]; intros es2 H; [exact H|].
  apply IH. cbn [app] in H. now destruct H.
Qed.

(** X4. On an array in the order of the spawn times, [pruneEmitters] removes
    exactly the emitters whose ring has reached [maxReachDist]: what is left
    is the array filtered by [R < maxReachDist], so every emitter left is
    within reach. *)
Theorem X4_pruneEmitters_is_a_filter (now : Q) (s : state) :
  time_ordered (emitters (field s)) ->
  emitters (field (pruneEmitters now s))
  = filter (within_reach now (maxReachDist (field s))) (emitters (field s)) /\
  Forall (fun e => (now - e_t0 e) * WAVE_SPEED_PX_PER_MS < maxReachDist (field s))
         (emitters (field (pruneEmitters now s))).
Proof.
  intro Hord.
  destruct (pruneEmitters_split now s) as (gone & kept & E & E' & Hg & Hk).
  rewrite E in Hord. apply time_ordered_app_r in Hord.
  assert (Hall : Forall (fun e => within_reach now (maxReachDist (field s)) e = true)
                        kept).
  { destruct kept as [|e kept]; [constructor|]. constructor; [exact Hk|].
    eapply Forall_impl; [|apply (time_ordered_head e kept Hord)].
    cbn. intros a Ha. now apply (within_reach_younger now _ e a). }
  rewrite E', E, filter_app, (filter_none _ gone Hg), (filter_all _ kept Hall).
  split; [reflexivity|].
  eapply Forall_impl; [|exact Hall]. cbn. intros a Ha. now apply Qltb_lt.
Qed.

Lemma X4_witness_one_out_of_reach :
  emitters (field (pruneEmitters 2100
     (set_emitters [Emitter 0 0 0; Emitter 2000 5 5] example_start)))
  = [Emitter 2000 5 5].
Proof.
  destruct (X4_pruneEmitters_is_a_filter 2100
              (set_emitters [Emitter 0 0 0; Emitter 2000 5 5] example_start))
    as [H _].
  - vm_compute. repeat split; intro H; discriminate H.
  - rewrite H. vm_compute. reflexivity.
Defined.

(** ** Frames outside a long press *)

Section NoLongPress.

Variable dist : Q -> Q -> Q -> Q -> Q.

Lemma pruneEmitters_gesture now s : gesture (pruneEmitters now s) = gesture s.
Proof. unfold pruneEmitters. now destruct (0 <? _)%nat. Qed.

Lemma spawnEmitter_gesture t x y s : gesture (spawnEmitter t x y s) = gesture s.
Proof. reflexivity. Qed.

(** When [simulateEmittersAndActivations] leaves [isLongPress] false, it has
    only pruned. *)
Lemma simulate_without_longpress x :
  isLongPress (gesture (simulateEmittersAndActivations x)) = false ->
  simulateEmittersAndActivations x = pruneEmitters (logicalNow (clock x)) x.
Proof.
  unfold simulateEmittersAndActivations. rewrite pruneEmitters_gesture.
  destruct (isPointerDown (gesture x) && negb (isLongPress (gesture x))) eqn:E1.
  - destruct (_ >=? LONGPRESS_MS).
    + cbn. destruct (_ >=? EMIT_INTERVAL_MS); cbn; discriminate.
    + intro H.
      assert (Hx : isLongPress (gesture x) = false)
        by (destruct (isLongPress (gesture x) && _); exact H).
      now rewrite Hx.
  - intro H.
    assert (Hx : isLongPress (gesture x) = false)
      by (destruct (isLongPress (gesture x) && _); exact H).
    now rewrite Hx.
Qed.

(** X5. A frame that ends with [isLongPress] false has spawned no emitter:
    the emitters after the frame are the emitters before it without some of
    the oldest, and [lastEmitMs] is unchanged; and every tile that was not
    triggered is still not triggered. *)
Theorem X5_no_emission_without_long_press (t : Q) (s : state) :
  let s' := fst (draw dist t s) in
  isLongPress (gesture s') = false ->
  (exists gone, emitters (field s) = gone ++ emitters (field s')) /\
  lastEmitMs (field s') = lastEmitMs (field s) /\
  forall iy ix, (iy < ROWS)%nat -> (ix < COLS)%nat ->
    cell (startMs (tiles s)) iy ix == UNSET ->
    cell (startMs (tiles s')) iy ix == UNSET.
Proof.
  cbv zeta. destruct (active (knob s)) eqn:Hk.
  - destruct (draw_paused dist t s Hk) as [Ef Eg]. rewrite Eg, Ef. intro Hlp.
    split; [now exists []|]. split; [reflexivity|].
    intros iy ix Hy Hx Hu.
    destruct (draw_renders dist t s) as (sr & E & _ & Hsr). rewrite E.
    rewrite E in Eg. change (gesture (fst (renderGrid dist sr))) with (gesture sr) in Eg.
    rewrite renderGrid_startMs by assumption.
    destruct Hsr as [[Ht Hl] | (_ & Hl & _)]; [|congruence].
    destruct (renderTile_start_cases dist sr ix iy)
      as [Eb | [(Hl' & _) | (_ & Hn & _)]].
    + now rewrite Eb, Ht.
    + congruence.
    + exfalso. apply Hn. now rewrite Ht.
  - rewrite (draw_unpaused dist t s Hk).
    set (x := set_clockPaused false _).
    change (gesture (fst (renderGrid dist ?y))) with (gesture y).
    change (field (fst (renderGrid dist ?y))) with (field y).
    intro Hlp. pose proof (simulate_without_longpress x Hlp) as Esim.
    split; [|split].
    + rewrite Esim.
      destruct (pruneEmitters_split (logicalNow (clock x)) x)
        as (gone & kept & E & E' & _).
      exists gone. now rewrite E'.
    + rewrite Esim. destruct (pruneEmitters_set (logicalNow (clock x)) x) as [k Ek].
      now rewrite Ek.
    + intros iy ix Hy Hx Hu. rewrite renderGrid_startMs by assumption.
      set (x' := simulateEmittersAndActivations x) in *.
      assert (Ht : tiles x' = tiles s).
      { rewrite Esim.
        destruct (pruneEmitters_set (logicalNow (clock x)) x) as [k Ek].
        now rewrite Ek. }
      destruct (renderTile_start_cases dist x' ix iy)
        as [Eb | [(Hl' & _) | (_ & Hn & _)]].
      * now rewrite Eb, Ht.
      * congruence.
      * exfalso. apply Hn. now rewrite Ht.
Qed.

End NoLongPress.

(** A press of 100 ms: no long press yet. *)
Lemma X5_witness_short_press :
  lastEmitMs (field (fst (draw dist_isqrt 100 (mousePressed 100 100 example_start))))
  = lastEmitMs (field (mousePressed 100 100 example_start)).
Proof.
  destruct (X5_no_emission_without_long_press dist_isqrt 100
              (mousePressed 100 100 example_start)) as (_ & H & _).
  - qcompute.
  - exact H.
Defined.

(** ** The easing curve *)

Lemma Qsquare_nonneg (z : Q) : 0 <= z * z.
Proof.
  destruct z as [n d]. unfold Qle. cbn. rewrite Z.mul_1_r. apply Z.square_nonneg.
Qed.

Lemma cube_le (a b : Q) : a <= b -> a * a * a <= b * b * b.
Proof.
  intro H.
  assert (E : b * b * b - a * a * a
              == (b - a) * ((a + 0.5 * b) * (a + 0.5 * b) + 0.75 * (b * b))) by ring.
  assert (H1 : 0 <= (a + 0.5 * b) * (a + 0.5 * b)) by apply Qsquare_nonneg.
  assert (H2 : 0 <= b * b) by apply Qsquare_nonneg.
  assert (H3 : 0 <= (b - a) * ((a + 0.5 * b) * (a + 0.5 * b) + 0.75 * (b * b))).
  { apply Qmult_le_0_compat; lra. }
  lra.
Qed.

Lemma easeInOutCubic_low (x : Q) : x < 0.5 -> easeInOutCubic x = 4 * x * x * x.
Proof. intro H. unfold easeInOutCubic. apply Qltb_lt in H. now rewrite H. Qed.

Lemma easeInOutCubic_high (x : Q) :
  0.5 <= x ->
  easeInOutCubic x = 1 - (-2 * x + 2) * (-2 * x + 2) * (-2 * x + 2) * (1 # 2).
Proof. intro H. unfold easeInOutCubic. apply Qltb_ge in H. now rewrite H. Qed.

Lemma easeInOutCubic_mono (x y : Q) :
  x <= y -> easeInOutCubic x <= easeInOutCubic y.
Proof.
  intro H.
  destruct (Qlt_le_dec x 0.5) as [Hx | Hx]; destruct (Qlt_le_dec y 0.5) as [Hy | Hy].
  - rewrite !easeInOutCubic_low by assumption.
    pose proof (cube_le x y H). lra.
  - rewrite (easeInOutCubic_low x), (easeInOutCubic_high y) by assumption.
    pose proof (cube_le x 0.5 (Qlt_le_weak _ _ Hx)) as H1.
    assert (H2 : -2 * y + 2 <= 1) by lra.
    pose proof (cube_le _ _ H2) as H3.
    lra.
  - lra.
  - rewrite !easeInOutCubic_high by assumption.
    assert (H2 : -2 * y + 2 <= -2 * x + 2) by lra.
    pose proof (cube_le _ _ H2). lra.
Qed.

(** X6. [easeInOutCubic] fixes 0, 1/2 and 1, never decreases, is symmetric
    about the point (1/2, 1/2), and so maps [[0, 1]] into [[0, 1]]: the two
    branches of its definition meet at 1/2. *)
Theorem X6_easeInOutCubic_shape (x y : Q) :
  easeInOutCubic 0 == 0 /\ easeInOutCubic 0.5 == 0.5 /\ easeInOutCubic 1 == 1 /\
  (x <= y -> easeInOutCubic x <= easeInOutCubic y) /\
  easeInOutCubic (1 - x) == 1 - easeInOutCubic x /\
  (0 <= x -> x <= 1 -> 0 <= easeInOutCubic x /\ easeInOutCubic x <= 1).
Proof.
  split; [reflexivity|]. split; [reflexivity|]. split; [reflexivity|].
  split; [apply easeInOutCubic_mono|]. split.
  - destruct (Qlt_le_dec x 0.5) as [Hx | Hx].
    + rewrite (easeInOutCubic_low x), (easeInOutCubic_high (1 - x)) by lra.
      ring.
    + destruct (Qeq_dec x 0.5) as [E | E].
      * rewrite (easeInOutCubic_high x), (easeInOutCubic_high (1 - x)) by lra.
        rewrite E. reflexivity.
      * assert (Hx' : 0.5 < x) by (apply Qle_lteq in Hx; destruct Hx as [|Hx];
                                   [assumption | symmetry in Hx; contradiction]).
        rewrite (easeInOutCubic_high x), (easeInOutCubic_low (1 - x)) by lra.
        ring.
  - intros H0 H1.
    pose proof (easeInOutCubic_mono 0 x H0) as A.
    pose proof (easeInOutCubic_mono x 1 H1) as B.
    assert (E0 : easeInOutCubic 0 == 0) by reflexivity.
    assert (E1 : easeInOutCubic 1 == 1) by reflexivity.
    split; lra.
Qed.

Lemma X6_witness_quarter :
  0 <= easeInOutCubic 0.25 /\ easeInOutCubic 0.25 <= easeInOutCubic 0.75.
Proof.
  destruct (X6_easeInOutCubic_shape 0.25 0.75) as (_ & _ & _ & Hm & _ & Hr).
  split; [apply Hr; qcompute | apply Hm; qcompute].
Defined.

(** ** The stages of the loop *)

Lemma Qtrunc_floor (x : Q) : 0 <= x -> Qtrunc x = Qfloor x.
Proof.
  destruct x as [n d]. unfold Qle, Qtrunc, Qfloor. cbn. intro H.
  apply Z.quot_div_nonneg; lia.
Qed.

Lemma Qfloor_unique (q : Q) (j : Z) :
  inject_Z j <= q -> q < inject_Z (j + 1) -> Qfloor q = j.
Proof.
  intros H1 H2. apply Z.le_antisymm.
  - assert (H : inject_Z (Qfloor q) < inject_Z (j + 1))
      by (eapply Qle_lt_trans; [apply Qfloor_le | exact H2]).
    rewrite <- Zlt_Qlt in H. lia.
  - rewrite <- (Qfloor_Z j). now apply Qfloor_resp_le.
Qed.

(** For a non-negative dividend and a positive divisor, [a % b] lies in
    [[0, b)]. *)
Lemma js_rem_bounds (a b : Q) :
  0 <= a -> 0 < b -> 0 <= js_rem a b /\ js_rem a b < b.
Proof.
  intros Ha Hb. unfold js_rem.
  assert (Hq : 0 <= a / b) by (apply Qle_shift_div_l; lra).
  rewrite (Qtrunc_floor _ Hq).
  pose proof (Qfloor_le (a / b)) as H1. pose proof (Qlt_floor (a / b)) as H2.
  rewrite inject_Z_plus in H2. change (inject_Z 1) with 1 in H2.
  set (k := inject_Z (Qfloor (a / b))) in *.
  assert (E : a / b * b == a) by (field; lra).
  assert (A1 : k * b <= a / b * b) by (apply Qmult_le_compat_r; lra).
  assert (A2 : a / b * b < (k + 1) * b) by (apply Qmult_lt_compat_r; lra).
  rewrite E in A1, A2. split; lra.
Qed.

Lemma lerp_1 (a b k : Q) : k == 1 -> lerp a b k == b.
Proof. intro H. unfold lerp. rewrite H. ring. Qed.

Section Dwell.

Variables (sh : shapes_t) (tm : timing_t) (elapsed scale : Q).

Let p := js_rem elapsed (CYCLE_MS tm).

Hypothesis Hseg : 0 < SEG_MS tm.

(** In the dwell of stage [j], the stage is [j] and the factor is 1. *)
Lemma dwell_stage (j : Z) :
  inject_Z j * SEG_MS tm + HALF_MS <= p -> p < inject_Z (j + 1) * SEG_MS tm ->
  Math.floor (p / SEG_MS tm) = inject_Z j /\
  (p - inject_Z j * SEG_MS tm <? HALF_MS) = false.
Proof.
  intros H1 H2. split.
  - unfold Math.floor. f_equal. apply Qfloor_unique.
    + apply Qle_shift_div_l; [exact Hseg|]. unfold HALF_MS in H1. lra.
    + now apply Qlt_shift_div_r.
  - apply Qltb_ge. lra.
Qed.

Lemma drawLoopCycle_dwell (j : Z) (bx by_ : list Q) :
  inject_Z j * SEG_MS tm + HALF_MS <= p -> p < inject_Z (j + 1) * SEG_MS tm ->
  (bx, by_) = (if inject_Z j === 0 then (cirX sh, cirY sh)
               else if inject_Z j === 1 then (triX sh, triY sh)
               else (sqrX sh, sqrY sh)) ->
  outline_eq (drawLoopCycle sh tm elapsed scale) (drawShape scale bx by_).
Proof.
  intros H1 H2 Hb. destruct (dwell_stage j H1 H2) as [Hst Hpin].
  unfold drawLoopCycle. cbv zeta. fold p. rewrite Hst, Hpin.
  unfold drawShape, outline_eq.
  destruct (inject_Z j === 0);
    [|destruct (inject_Z j === 1)]; injection Hb as -> ->;
    apply Forall2_map_seq; intro i; cbn [fst snd];
    now rewrite !(lerp_1 _ _ 1 (Qeq_refl 1)).
Qed.

End Dwell.

(** X7. With [SEG_MS] positive and [CYCLE_MS = 3 * SEG_MS], as [draw]
    derives them, and a non-negative elapsed time, the position in the
    cycle [p = elapsed % CYCLE_MS] lies in [[0, CYCLE_MS)], and from
    [HALF_MS] into each third of the cycle to its end the loop holds the
    target of that stage: the circle, then the triangle, then the square,
    which the loop thus shows up to the cycle boundary. *)
Theorem X7_drawLoopCycle_dwells (sh : shapes_t) (tm : timing_t) (elapsed scale : Q) :
  0 < SEG_MS tm -> CYCLE_MS tm == 3 * SEG_MS tm -> 0 <= elapsed ->
  let p := js_rem elapsed (CYCLE_MS tm) in
  (0 <= p /\ p < CYCLE_MS tm) /\
  (HALF_MS <= p -> p < SEG_MS tm ->
   outline_eq (drawLoopCycle sh tm elapsed scale)
              (drawShape scale (cirX sh) (cirY sh))) /\
  (SEG_MS tm + HALF_MS <= p -> p < 2 * SEG_MS tm ->
   outline_eq (drawLoopCycle sh tm elapsed scale)
              (drawShape scale (triX sh) (triY sh))) /\
  (2 * SEG_MS tm + HALF_MS <= p ->
   outline_eq (drawLoopCycle sh tm elapsed scale)
              (drawShape scale (sqrX sh) (sqrY sh))).
Proof.
  intros Hseg Hcyc He p.
  assert (Hp : 0 <= p /\ p < CYCLE_MS tm) by (apply js_rem_bounds; lra).
  split; [exact Hp|]. destruct Hp as [Hp0 Hp1]. fold p.
  split; [|split].
  - intros H1 H2. apply (drawLoopCycle_dwell sh tm elapsed scale Hseg 0);
      [fold p; change (inject_Z 0) with 0; lra
      | fold p; change (inject_Z (0 + 1)) with 1; lra | reflexivity].
  - intros H1 H2. apply (drawLoopCycle_dwell sh tm elapsed scale Hseg 1);
      [fold p; change (inject_Z 1) with 1; lra
      | fold p; change (inject_Z (1 + 1)) with 2; lra | reflexivity].
  - intros H1. apply (drawLoopCycle_dwell sh tm elapsed scale Hseg 2);
      [fold p; change (inject_Z 2) with 2; lra
      | fold p; change (inject_Z (2 + 1)) with 3; lra | reflexivity].
Qed.

(** At [HOLD_MS] = 1500, 5300 ms into the loop: the last dwell. *)
Lemma X7_witness_last_dwell :
  outline_eq (drawLoopCycle example_shapes (Timing 1500 1800 5400) 5300 1)
             (drawShape 1 (sqrX example_shapes) (sqrY example_shapes)).
Proof.
  destruct (X7_drawLoopCycle_dwells example_shapes (Timing 1500 1800 5400) 5300 1)
    as (_ & _ & _ & H); try qcompute.
  apply H. qcompute.
Defined.

(** ** The layout of the grid *)

Lemma dist_isqrt_nonneg (x1 y1 x2 y2 : Q) : 0 <= dist_isqrt x1 y1 x2 y2.
Proof.
  unfold dist_isqrt, Qle. cbn. rewrite Z.mul_1_r. apply Z.sqrt_nonneg.
Qed.

Ltac qnat_compute :=
  unfold Qnat; cbn [Nat.sub Z.of_nat Pos.of_succ_nat Pos.succ]; unfold inject_Z.

Section Layout.

Variable dist : Q -> Q -> Q -> Q -> Q.
Variables (w h : Q) (s : state).

Let l := layout (computeGridLayout dist w h s).

(** The tile size is the smaller of the two that fill the canvas, and the
    margins share what is left. *)
Lemma layout_equations :
  tileDiam l * 6 <= w - 80 /\ tileDiam l * 8 <= h - 112 /\
  (tileDiam l * 6 == w - 80 \/ tileDiam l * 8 == h - 112) /\
  marginX l * 2 == w - 80 - tileDiam l * 6 /\
  marginY l * 2 == h - 112 - tileDiam l * 8.
Proof.
  unfold l, computeGridLayout. cbn [layout set_layout set_field tileDiam marginX marginY].
  unfold Math.min, GAP.
  change (Qnat COLS) with 6. change (Qnat ROWS) with 8.
  set (tdx := (w - 16 * (6 - 1)) / 6). set (tdy := (h - 16 * (8 - 1)) / 8).
  assert (Ex : tdx * 6 == w - 80) by (unfold tdx; field).
  assert (Ey : tdy * 8 == h - 112) by (unfold tdy; field).
  destruct (Q.min_spec tdx tdy) as [[Hlt E] | [Hle E]]; rewrite !E;
    repeat split; try lra; auto; ring_simplify; lra.
Qed.

(** X8. Whatever the canvas, [computeGridLayout] leaves non-negative
    margins, one of them zero, and centres the grid: the centres of the
    tiles in mirrored columns (rows) are mirrored about the middle of the
    canvas.  On a canvas of at least the gaps (80 by 112) the tile size is
    not negative and every tile lies within the canvas; if moreover the
    distance between the corner tiles is not negative, [maxReachDist] is at
    least 200.  The tiles and the emitters are left alone. *)
Theorem X8_computeGridLayout_centres_the_grid (ix iy : nat) :
  (ix < COLS)%nat -> (iy < ROWS)%nat ->
  let c := tileCenter l ix iy in
  let c' := tileCenter l (COLS - 1 - ix) (ROWS - 1 - iy) in
  (0 <= marginX l /\ 0 <= marginY l /\ (marginX l == 0 \/ marginY l == 0)) /\
  (pt_x c + pt_x c' == w /\ pt_y c + pt_y c' == h) /\
  (80 <= w -> 112 <= h ->
   0 <= tileDiam l /\
   (0 <= pt_x c - 0.5 * tileDiam l /\ pt_x c + 0.5 * tileDiam l <= w) /\
   (0 <= pt_y c - 0.5 * tileDiam l /\ pt_y c + 0.5 * tileDiam l <= h) /\
   (0 <= dist (pt_x (tileCenter l 0 0)) (pt_y (tileCenter l 0 0))
              (pt_x (tileCenter l (COLS - 1) (ROWS - 1)))
              (pt_y (tileCenter l (COLS - 1) (ROWS - 1))) ->
    200 <= maxReachDist (field (computeGridLayout dist w h s)))) /\
  tiles (computeGridLayout dist w h s) = tiles s /\
  emitters (field (computeGridLayout dist w h s)) = emitters (field s).
Proof.
  intros Hx Hy c c'.
  destruct layout_equations as (H6 & H8 & Hone & Hmx & Hmy).
  assert (Hreach : maxReachDist (field (computeGridLayout dist w h s))
                   = dist (pt_x (tileCenter l 0 0)) (pt_y (tileCenter l 0 0))
                          (pt_x (tileCenter l (COLS - 1) (ROWS - 1)))
                          (pt_y (tileCenter l (COLS - 1) (ROWS - 1)))
                     + 2 * tileDiam l + 200) by reflexivity.
  split; [|split; [|split; [|split; reflexivity]]].
  - split; [lra|]. split; [lra|]. destruct Hone; [left | right]; lra.
  - unfold c, c', tileCenter, GAP. cbn [pt_x pt_y]. unfold COLS, ROWS in *. split.
    + clear Hy. do 6 (destruct ix as [|ix]; [qnat_compute; lra|]). lia.
    + clear Hx. do 8 (destruct iy as [|iy]; [qnat_compute; lra|]). lia.
  - intros Hw Hh.
    assert (Htd : 0 <= tileDiam l) by (destruct Hone; lra).
    split; [exact Htd|]. split; [|split].
    + unfold c, tileCenter, GAP. cbn [pt_x pt_y]. unfold COLS in *. clear Hy.
      do 6 (destruct ix as [|ix]; [qnat_compute; split; lra|]). lia.
    + unfold c, tileCenter, GAP. cbn [pt_x pt_y]. unfold ROWS in *. clear Hx.
      do 8 (destruct iy as [|iy]; [qnat_compute; split; lra|]). lia.
    + intro Hd. rewrite Hreach. lra.
Qed.

End Layout.

(** An 800 by 600 canvas: the third tile of the second row. *)
Lemma X8_witness_800_by_600 :
  let l := layout (computeGridLayout dist_isqrt 800 600 example_start) in
  0 <= tileDiam l /\
  pt_x (tileCenter l 2 1) + 0.5 * tileDiam l <= 800 /\
  200 <= maxReachDist (field (computeGridLayout dist_isqrt 800 600 example_start)).
Proof.
  destruct (X8_computeGridLayout_centres_the_grid dist_isqrt 800 600 example_start 2 1)
    as (_ & _ & H & _).
  - unfold COLS. lia.
  - unfold ROWS. lia.
  - destruct H as (H1 & (_ & H2) & _ & H3); try qcompute.
    split; [exact H1|]. split; [exact H2|]. apply H3. apply dist_isqrt_nonneg.
Defined.

(** ** The derived timing *)

Section Timing.

Variable dist : Q -> Q -> Q -> Q -> Q.

Lemma draw_timing t s :
  timing (fst (draw dist t s))
  = Timing (HOLD_MS (timing s)) (HALF_MS + HOLD_MS (timing s))
           (3 * (HALF_MS + HOLD_MS (timing s))).
Proof.
  unfold draw, renderGrid. cbn.
  destruct (active (knob s)); cbn; [|rewrite simulate_timing]; reflexivity.
Qed.

Lemma handle_timing_ok ev s : timing_ok (timing s) -> timing_ok (timing (handle dist ev s)).
Proof.
  intros (Hh & Hs & Hc). destruct ev; cbn [handle].
  1: { rewrite draw_timing. unfold timing_ok. cbn. repeat split; try tauto; lra. }
  all: unfold mousePressed, mouseMoved, touchStarted, touchMoved, touchEnded,
         enterKnobMode, windowResized, computeGridLayout;
    destruct_ifs; try (now repeat split).
  unfold updateKnobWithPinch, timing_ok. cbn.
  split; [apply constrain_in_range|]. now split.
Qed.

Lemma reachable_timing_ok s : reachable dist s -> timing_ok (timing s).
Proof.
  induction 1 as [|s ev _ IH _]; [|now apply handle_timing_ok].
  unfold timing_ok. cbn. repeat split; discriminate.
Qed.

(** X9. In every state of the running sketch [HOLD_MS] is within
    [[HOLD_MIN, HOLD_MAX]], [SEG_MS] within [[330, 3300]] and [CYCLE_MS] is
    [3 * SEG_MS], hence at least 990: no frame divides by a zero cycle.
    Each frame sets [SEG_MS] to [HALF_MS + HOLD_MS] and [CYCLE_MS] to three
    times that, for the [HOLD_MS] the pinches left. *)
Theorem X9_timing_follows_HOLD_MS (s : state) (t : Q) :
  reachable dist s ->
  (HOLD_MIN <= HOLD_MS (timing s) /\ HOLD_MS (timing s) <= HOLD_MAX) /\
  (330 <= SEG_MS (timing s) /\ SEG_MS (timing s) <= 3300) /\
  CYCLE_MS (timing s) = 3 * SEG_MS (timing s) /\
  990 <= CYCLE_MS (timing s) /\
  timing (fst (draw dist t s))
  = Timing (HOLD_MS (timing s)) (HALF_MS + HOLD_MS (timing s))
           (3 * (HALF_MS + HOLD_MS (timing s))).
Proof.
  intro H. destruct (reachable_timing_ok s H) as (Hh & Hs & Hc).
  unfold HALF_MS, HOLD_MIN, HOLD_MAX in *.
  split; [exact Hh|]. split; [split; lra|]. split; [exact Hc|].
  split; [rewrite Hc; lra | apply draw_timing].
Qed.

End Timing.

Lemma X9_witness_released :
  990 <= CYCLE_MS (timing example_released).
Proof.
  destruct (X9_timing_follows_HOLD_MS dist_isqrt example_released 0
              example_released_reachable) as (_ & _ & _ & H & _).
  exact H.
Defined.

(** ** The two arrays of the grid *)

Section TileData.

Variable dist : Q -> Q -> Q -> Q -> Q.

Lemma renderGrid_shape s :
  grid_shape (startMs (tiles (fst (renderGrid dist s)))) /\
  grid_shape (stopAtMs (tiles (fst (renderGrid dist s)))).
Proof.
  unfold renderGrid, renderCells, grid_shape.
  cbn [fst tiles set_tiles startMs stopAtMs].
  rewrite !length_map, length_seq.
  split; (split; [reflexivity|]);
    rewrite !Forall_map; apply Forall_forall; intros iy _;
    now rewrite !length_map, length_seq.
Qed.

Lemma fresh_shape : grid_shape (repeat (repeat (-1) COLS) ROWS).
Proof.
  split; [apply repeat_length|].
  apply Forall_forall. intros row H. apply repeat_spec in H. subst.
  apply repeat_length.
Qed.

(** A tile that is not released while triggered: its iteration leaves the
    cells alone or, during a long press, triggers the tile. *)
Lemma renderTile_held s ix iy :
  let a := cell (startMs (tiles s)) iy ix in
  let b := cell (stopAtMs (tiles s)) iy ix in
  let o := renderTile dist s ix iy in
  isLongPress (gesture s) = true \/ a == UNSET \/ a == DONE ->
  (out_start o = a /\ out_stop o = b) \/
  (isLongPress (gesture s) = true /\ a < 0 /\
   out_start o = logicalNow (clock s) /\ out_stop o = -1).
Proof.
  cbv zeta. intro H. unfold renderTile.
  destruct (isLongPress (gesture s)) eqn:Hlp; cbn [andb].
  - destruct (cell (startMs (tiles s)) iy ix <? 0) eqn:Hneg.
    + apply Qltb_lt in Hneg.
      destruct (hitByAnyEmitter _ _ _ _ _); destruct_ifs; cbn; auto.
    + destruct_ifs; cbn; auto.
  - destruct H as [H | H]; [discriminate|].
    replace ((cell (startMs (tiles s)) iy ix === -1)
             || (cell (startMs (tiles s)) iy ix === -2)) with true; [cbn; auto|].
    symmetry. apply orb_true_iff.
    destruct H as [H | H]; [left | right]; now apply Qeq_eq_bool.
Qed.

Lemma tile_data_ok_later lp now now' a b :
  now <= now' -> tile_data_ok lp now a b -> tile_data_ok lp now' a b.
Proof.
  intros Hle (H1 & H2 & H3 & H4 & H5). repeat split; auto.
  - intro H. specialize (H1 H). lra.
  - now apply H5.
  - destruct (H5 H) as [_ H']. lra.
Qed.

Lemma tile_data_ok_fresh now : tile_data_ok true now (-1) (-1).
Proof.
  unfold tile_data_ok, UNSET, DONE.
  repeat split; intros; try reflexivity; try lra; exfalso; auto.
Qed.

(** One iteration of [renderGrid] keeps the cells of its tile as they
    should be. *)
Lemma renderTile_data_ok s ix iy :
  let a := cell (startMs (tiles s)) iy ix in
  let b := cell (stopAtMs (tiles s)) iy ix in
  let o := renderTile dist s ix iy in
  0 < CYCLE_MS (timing s) -> 0 <= logicalNow (clock s) ->
  tile_ok a -> (isLongPress (gesture s) = true -> ~ a == DONE) ->
  tile_data_ok (isLongPress (gesture s)) (logicalNow (clock s)) a b ->
  tile_data_ok (isLongPress (gesture s)) (logicalNow (clock s))
               (out_start o) (out_stop o).
Proof.
  cbv zeta. intros Hc Hnow Hok Hnd Hd.
  set (a := cell (startMs (tiles s)) iy ix) in *.
  set (b := cell (stopAtMs (tiles s)) iy ix) in *.
  set (now := logicalNow (clock s)) in *.
  assert (Hcase : (isLongPress (gesture s) = true \/ a == UNSET \/ a == DONE)
                  \/ (isLongPress (gesture s) = false /\ 0 <= a)).
  { destruct (isLongPress (gesture s)); [auto|].
    destruct Hok as [H | [H | H]]; auto. }
  destruct Hcase as [Hheld | [Hrel Ha]].
  - destruct (renderTile_held s ix iy Hheld) as [[E1 E2] | (Hlp & Hneg & E1 & E2)];
      rewrite E1, E2; [exact Hd|].
    fold now. rewrite Hlp. unfold tile_data_ok, UNSET, DONE.
    repeat split; intros; try reflexivity; try lra; exfalso; auto.
  - rewrite (renderTile_released dist s ix iy Hrel Ha). fold a b now.
    destruct Hd as (H1 & H2 & H3 & H4 & H5). specialize (H1 Ha).
    set (stop := if b === -1 then _ else b).
    assert (Hstop : a <= stop /\ ~ stop == UNSET).
    { unfold stop. destruct (b === -1) eqn:Eb.
      - destruct (ceil_cycle_boundary (now - a) (CYCLE_MS (timing s)) Hc)
          as (_ & Hk & _); [lra|].
        unfold Math.ceil, UNSET. split; [lra|]. intro E. lra.
      - apply Qeqb_false in Eb. split; [apply H4; auto | exact Eb]. }
    destruct Hstop as [Hs1 Hs2]. rewrite Hrel.
    destruct (now >=? stop) eqn:Eg; cbn [out_start out_stop];
      unfold tile_data_ok, UNSET, DONE in *.
    + apply Qgeb_ge in Eg.
      repeat split; intros; try lra; try discriminate; auto.
    + repeat split; intros; try lra; try discriminate; auto.
Qed.

Lemma simulate_tiles_cases s :
  let s' := simulateEmittersAndActivations s in
  (tiles s' = tiles s /\
   isLongPress (gesture s') = isLongPress (gesture s)) \/
  (isLongPress (gesture s') = true /\
   tiles s' = Tiles (repeat (repeat (-1) COLS) ROWS)
                    (repeat (repeat (-1) COLS) ROWS)).
Proof.
  cbv zeta. unfold simulateEmittersAndActivations.
  destruct (isPointerDown (gesture s) && negb (isLongPress (gesture s))).
  - destruct (_ >=? LONGPRESS_MS).
    + right. unfold pruneEmitters, spawnEmitter. destruct_ifs; cbn; auto.
    + left. unfold pruneEmitters, spawnEmitter. destruct_ifs; cbn; auto.
  - left. unfold pruneEmitters, spawnEmitter. destruct_ifs; cbn; auto.
Qed.

(** The state [sr] on which a frame runs [renderGrid]. *)
Lemma draw_renders_on t s :
  exists sr,
    fst (draw dist t s) = fst (renderGrid dist sr) /\
    logicalNow (clock sr) = logicalNow (clock (updateClock t s)) /\
    timing sr = Timing (HOLD_MS (timing s)) (HALF_MS + HOLD_MS (timing s))
                       (3 * (HALF_MS + HOLD_MS (timing s))) /\
    ((tiles sr = tiles s /\
      isLongPress (gesture sr) = isLongPress (gesture s)) \/
     (isLongPress (gesture sr) = true /\
      tiles sr = Tiles (repeat (repeat (-1) COLS) ROWS)
                       (repeat (repeat (-1) COLS) ROWS))).
Proof.
  unfold draw. cbv zeta.
  match goal with |- context [if ?b then _ else _] => destruct b end.
  - eexists. split; [reflexivity|]. split; [reflexivity|].
    split; [reflexivity|]. left. now split.
  - eexists. split; [reflexivity|]. split; [now rewrite simulate_clock|].
    split; [now rewrite simulate_timing|].
    match goal with
    | |- context [simulateEmittersAndActivations ?x] =>
        destruct (simulate_tiles_cases x) as [[H1 H2] | [H1 H2]]
    end.
    + left. rewrite H1, H2. now split.
    + right. now split.
Qed.

Lemma handle_data_inv ev s :
  reachable dist s -> admissible s ev -> data_inv s -> data_inv (handle dist ev s).
Proof.
  intros Hreach Hadm Hinv iy ix Hy Hx.
  destruct (reachable_grid_inv dist s Hreach) as [Hnow Hcells].
  destruct (reachable_timing_ok dist s Hreach) as (Hh & _ & _).
  destruct (Hcells iy ix Hy Hx) as [Hok Hnd]. specialize (Hinv iy ix Hy Hx).
  destruct ev.
  1: { cbn [handle]. cbn in Hadm.
       destruct (draw_renders_on realNow s) as (sr & E & Hclock & Htm & Hsr).
       rewrite E.
       rewrite renderGrid_startMs, renderGrid_stopAtMs by assumption.
       change (gesture (fst (renderGrid dist sr))) with (gesture sr).
       change (clock (fst (renderGrid dist sr))) with (clock sr).
       assert (Hnow' : 0 <= logicalNow (clock sr))
         by (rewrite Hclock; now apply updateClock_nonneg).
       assert (Hle : logicalNow (clock s) <= logicalNow (clock sr)).
       { rewrite Hclock. unfold updateClock. cbn.
         destruct (clockPaused (clock s)); cbn; lra. }
       apply renderTile_data_ok.
       - rewrite Htm. cbn. unfold HALF_MS, HOLD_MIN in *. lra.
       - exact Hnow'.
       - destruct Hsr as [[Ht _] | [_ Ht]]; rewrite Ht;
           [exact Hok | cbn [startMs]; rewrite cell_fresh by assumption; now left].
       - destruct Hsr as [[Ht Hl] | [_ Ht]]; rewrite Ht;
           [now rewrite Hl
           | cbn [startMs]; rewrite cell_fresh by assumption; discriminate].
       - destruct Hsr as [[Ht Hl] | [Hl Ht]]; rewrite Ht.
         + rewrite Hl. now apply (tile_data_ok_later _ (logicalNow (clock s))).
         + rewrite Hl. cbn [startMs stopAtMs]. rewrite !cell_fresh by assumption.
           apply tile_data_ok_fresh. }
  all: match goal with
       | |- context [handle _ ?e ?s0] =>
           pose proof (handle_tiles dist e s0) as [Ht Hl];
           pose proof (handle_logicalNow dist e s0) as Hc
       end;
    cbn beta iota in Hc; rewrite Hc, Ht;
    destruct Hinv as (H1 & H2 & H3 & H4 & H5); repeat split; auto;
    now apply H5.
Qed.

Lemma reachable_data_inv s : reachable dist s -> data_inv s.
Proof.
  induction 1 as [|s ev Hs IH Hadm]; [|now apply handle_data_inv].
  intros iy ix Hy Hx.
  change (tiles (setup dist sh w h realNow))
    with (Tiles (repeat (repeat (-1) COLS) ROWS) (repeat (repeat (-1) COLS) ROWS)).
  cbn [startMs stopAtMs]. rewrite !cell_fresh by assumption.
  unfold tile_data_ok, UNSET, DONE.
  repeat split; intros; try reflexivity; try lra; try discriminate.
Qed.

Lemma reachable_shape s :
  reachable dist s ->
  grid_shape (startMs (tiles s)) /\ grid_shape (stopAtMs (tiles s)).
Proof.
  induction 1 as [|s ev _ IH _]; [split; apply fresh_shape|].
  destruct ev.
  1: { cbn [handle]. destruct (draw_renders_on realNow s) as (sr & E & _).
       rewrite E. apply renderGrid_shape. }
  all: match goal with
       | |- context [handle _ ?e ?s0] =>
           pose proof (handle_tiles dist e s0) as [Ht _]
       end; now rewrite Ht.
Qed.

(** X10. In every state of the running sketch both arrays hold [ROWS] rows
    of [COLS] cells, and for every tile: a trigger time is not after the
    logical time; no stop is planned ([stopAtMs] = -1) during a long press
    or for a tile that is not triggered; a planned stop is not before the
    trigger; and a done tile has a planned stop, which is not after the
    logical time. *)
Theorem X10_tile_arrays_are_sound (s : state) (iy ix : nat) :
  reachable dist s -> (iy < ROWS)%nat -> (ix < COLS)%nat ->
  let now := logicalNow (clock s) in
  let a := cell (startMs (tiles s)) iy ix in
  let b := cell (stopAtMs (tiles s)) iy ix in
  (grid_shape (startMs (tiles s)) /\ grid_shape (stopAtMs (tiles s))) /\
  (0 <= a -> a <= now) /\
  (isLongPress (gesture s) = true -> b == UNSET) /\
  (a == UNSET -> b == UNSET) /\
  (0 <= a -> ~ b == UNSET -> a <= b) /\
  (a == DONE -> ~ b == UNSET /\ b <= now).
Proof.
  intros H Hy Hx. split; [now apply reachable_shape|].
  exact (reachable_data_inv s H iy ix Hy Hx).
Qed.

End TileData.

Lemma X10_witness_released :
  cell (startMs (tiles example_released)) 0 0
  <= logicalNow (clock example_released).
Proof.
  destruct (X10_tile_arrays_are_sound dist_isqrt example_released 0 0
              example_released_reachable) as (_ & H & _).
  - unfold ROWS. lia.
  - unfold COLS. lia.
  - apply H. qcompute.
Defined.

(** ** A planned stop *)

Section PlannedStop.

Variable dist : Q -> Q -> Q -> Q -> Q.
Variables (iy ix : nat).
Hypothesis Hy : (iy < ROWS)%nat.
Hypothesis Hx : (ix < COLS)%nat.

(** The tile was triggered at [a], its stop is planned for [b], and it is
    still animating or is done. *)
Let stopping (a b : Q) (s : state) : Prop :=
  cell (stopAtMs (tiles s)) iy ix = b /\
  (cell (startMs (tiles s)) iy ix = a \/ cell (startMs (tiles s)) iy ix = DONE).

Lemma handle_stopping a b ev s :
  0 <= a -> ~ b == UNSET ->
  isLongPress (gesture s) = false ->
  isLongPress (gesture (handle dist ev s)) = false ->
  stopping a b s -> stopping a b (handle dist ev s).
Proof.
  intros Ha Hb Hlp Hlp' [Hstop Hstart]. destruct ev.
  1: { cbn [handle] in *.
       destruct (draw_renders_on dist realNow s) as (sr & E & _ & _ & Hsr).
       rewrite E in Hlp' |- *.
       change (gesture (fst (renderGrid dist sr))) with (gesture sr) in Hlp'.
       destruct Hsr as [[Ht Hl] | [Hl _]]; [|congruence].
       unfold stopping.
       rewrite renderGrid_startMs, renderGrid_stopAtMs by assumption.
       destruct Hstart as [Hstart | Hstart].
       - rewrite (renderTile_released dist sr ix iy Hlp');
           rewrite Ht, Hstart, ?Hstop; [|exact Ha].
         replace (b === -1) with false by (symmetry; now apply Qeqb_false).
         destruct (_ >=? b); cbn; auto.
       - destruct (renderTile_held dist sr ix iy) as [[E1 E2] | (Hl' & _)].
         + right. right. rewrite Ht, Hstart. reflexivity.
         + rewrite E1, E2, Ht. auto.
         + congruence. }
  all: match goal with
       | |- context [handle _ ?e ?s0] =>
           pose proof (handle_tiles dist e s0) as [Ht _]
       end; unfold stopping; now rewrite Ht.
Qed.

Lemma run_stopping a b evs : forall s,
  0 <= a -> ~ b == UNSET ->
  no_long_press dist s evs ->
  stopping a b s -> stopping a b (run dist evs s).
Proof.
  induction evs as [|ev evs IH]; intros s Ha Hb Hn Hs; [exact Hs|].
  cbn [no_long_press] in Hn. destruct Hn as [Hlp Hn].
  rewrite run_cons. apply IH; try assumption.
  apply handle_stopping; try assumption.
  destruct evs; cbn [no_long_press] in Hn; tauto.
Qed.

(** X11. A planned stop is never planned again.  For a tile triggered at
    [a >= 0] whose [stopAtMs] is set to [b], over any events during which no
    long press is under way (frames, clicks, resizes, and pinches that
    change [HOLD_MS] and with it [CYCLE_MS]), [stopAtMs] stays [b], and
    [startMs] stays [a] until it becomes -2. *)
Theorem X11_planned_stop_is_kept (s : state) (evs : list event) :
  let a := cell (startMs (tiles s)) iy ix in
  let b := cell (stopAtMs (tiles s)) iy ix in
  let s' := run dist evs s in
  0 <= a -> ~ b == UNSET ->
  no_long_press dist s evs ->
  cell (stopAtMs (tiles s')) iy ix = b /\
  (cell (startMs (tiles s')) iy ix = a \/ cell (startMs (tiles s')) iy ix = DONE).
Proof.
  intros a b s' Ha Hb Hn.
  apply (run_stopping a b evs s Ha Hb Hn). split; [reflexivity | now left].
Qed.

End PlannedStop.

(** The session in which the knob sets [HOLD_MS] to 30 after the stop of the
    first tile was planned for 6400: the stop is still 6400 at 6390. *)
Lemma X11_witness_retuned :
  cell (stopAtMs (tiles (run dist_isqrt (tl example_retune ++ [Draw 6390])
                           (handle dist_isqrt (Draw 2000) example_released))))
       0 0
  = cell (stopAtMs (tiles (handle dist_isqrt (Draw 2000) example_released))) 0 0.
Proof.
  destruct (X11_planned_stop_is_kept dist_isqrt 0 0
              ltac:(unfold ROWS; lia) ltac:(unfold COLS; lia)
              (handle dist_isqrt (Draw 2000) example_released)
              (tl example_retune ++ [Draw 6390])) as [H _].
  - qcompute.
  - qcompute.
  - vm_compute. repeat split; reflexivity.
  - exact H.
Defined.

(** ** The knob under the fingers *)

Lemma constrain_inside (n low high : Q) :
  low <= n -> n <= high -> constrain n low high == n.
Proof.
  intros H1 H2. unfold constrain, Math.max, Math.min.
  rewrite (Q.min_l n high H2). now apply Q.max_l.
Qed.

Lemma constrain_below (n low high : Q) :
  low <= high -> n <= low -> constrain n low high == low.
Proof.
  intros H1 H2. unfold constrain, Math.max, Math.min.
  apply Q.max_r. rewrite Q.min_l; lra.
Qed.

Lemma constrain_above (n low high : Q) :
  low <= high -> high <= n -> constrain n low high == high.
Proof.
  intros H1 H2. unfold constrain, Math.max, Math.min.
  rewrite (Q.min_r n high H2). now apply Q.max_l.
Qed.

(** X12. A pinch update moves [HOLD_MS] by [KNOB_SENSITIVITY] = 3 ms per
    pixel of change in the distance of the two contacts since the last
    update, stopping at [HOLD_MIN] and [HOLD_MAX]; it records the distance,
    so that a second update with the contacts unmoved changes neither
    [HOLD_MS] nor the recorded distance; and the first update after
    [enterKnobMode], with the contacts as they came down, leaves a
    [HOLD_MS] within range as it was. *)
Theorem X12_pinch_moves_HOLD_MS_by_distance
  (dist : Q -> Q -> Q -> Q -> Q) (touches : list point) (s : state) :
  let s1 := updateKnobWithPinch dist touches s in
  let s2 := updateKnobWithPinch dist touches s1 in
  let moved := HOLD_MS (timing s)
               + (lastDist (knob s1) - lastDist (knob s)) * KNOB_SENSITIVITY in
  (HOLD_MIN <= moved -> moved <= HOLD_MAX -> HOLD_MS (timing s1) == moved) /\
  (moved <= HOLD_MIN -> HOLD_MS (timing s1) == HOLD_MIN) /\
  (HOLD_MAX <= moved -> HOLD_MS (timing s1) == HOLD_MAX) /\
  (HOLD_MS (timing s2) == HOLD_MS (timing s1) /\
   lastDist (knob s2) = lastDist (knob s1) /\
   center (knob s2) = center (knob s1)) /\
  (HOLD_MIN <= HOLD_MS (timing s) -> HOLD_MS (timing s) <= HOLD_MAX ->
   HOLD_MS (timing (updateKnobWithPinch dist touches (enterKnobMode dist touches s)))
   == HOLD_MS (timing s)).
Proof.
  cbv zeta. unfold updateKnobWithPinch, enterKnobMode.
  cbn [timing knob set_timing set_knob set_clockPaused set_clock
       HOLD_MS lastDist center].
  set (d := dist _ _ _ _).
  split; [|split; [|split; [|split]]].
  - intros H1 H2. now apply constrain_inside.
  - intro H. apply constrain_below; [discriminate | exact H].
  - intro H. apply constrain_above; [discriminate | exact H].
  - split; [|split; reflexivity].
    destruct (constrain_in_range
                (HOLD_MS (timing s) + (d - lastDist (knob s)) * KNOB_SENSITIVITY))
      as [Hlo Hhi].
    set (h1 := constrain _ HOLD_MIN HOLD_MAX) in *.
    rewrite constrain_inside; unfold KNOB_SENSITIVITY; lra.
  - intros Hlo Hhi. rewrite constrain_inside; unfold KNOB_SENSITIVITY; lra.
Qed.

Lemma X12_witness_enter_then_update :
  HOLD_MS (timing (updateKnobWithPinch dist_isqrt example_pinch
                     (enterKnobMode dist_isqrt example_pinch example_start)))
  == HOLD_MS (timing example_start).
Proof.
  destruct (X12_pinch_moves_HOLD_MS_by_distance dist_isqrt example_pinch example_start)
    as (_ & _ & _ & _ & H).
  apply H; qcompute.
Defined.

(** ** The frame in which a long press begins *)

Section LongPressBegins.

Variable dist : Q -> Q -> Q -> Q -> Q.

(** During a long press, the iteration of a tile that is not triggered
    triggers it exactly when an emitter hits its centre. *)
Lemma renderTile_long_press s ix iy :
  let c := tileCenter (layout s) ix iy in
  let hit := hitByAnyEmitter dist (emitters (field s)) (logicalNow (clock s))
                             (pt_x c) (pt_y c) in
  let o := renderTile dist s ix iy in
  isLongPress (gesture s) = true ->
  cell (startMs (tiles s)) iy ix < 0 ->
  out_start o = (if hit then logicalNow (clock s) else cell (startMs (tiles s)) iy ix) /\
  out_stop o = (if hit then -1 else cell (stopAtMs (tiles s)) iy ix).
Proof.
  cbv zeta. intros Hlp Hneg. unfold renderTile. rewrite Hlp.
  apply Qltb_lt in Hneg. rewrite Hneg. cbn [andb].
  destruct (hitByAnyEmitter _ _ _ _ _); destruct_ifs; cbn; auto.
Qed.

(** [simulateEmittersAndActivations] when the press has lasted
    [LONGPRESS_MS]: a fresh grid and one emitter at the pointer. *)
Lemma simulate_begins x :
  isPointerDown (gesture x) = true -> isLongPress (gesture x) = false ->
  LONGPRESS_MS <= logicalNow (clock x) - downAtMs (gesture x) ->
  0 < maxReachDist (field x) ->
  let x' := simulateEmittersAndActivations x in
  let P := lastPointer (gesture x) in
  isLongPress (gesture x') = true /\
  field x' = Field [Emitter (logicalNow (clock x)) (pt_x P) (pt_y P)]
                   (logicalNow (clock x)) (maxReachDist (field x)) /\
  tiles x' = Tiles (repeat (repeat (-1) COLS) ROWS) (repeat (repeat (-1) COLS) ROWS) /\
  layout x' = layout x /\ clock x' = clock x.
Proof.
  intros Hpd Hlp Hlong Hreach.
  destruct x as [tm ly sh tl [es le mr] [pd lp P d0] [now lr cp] kb].
  cbn in Hpd, Hlp, Hlong, Hreach. subst pd lp.
  cbv zeta. unfold simulateEmittersAndActivations.
  cbn [gesture clock field isPointerDown isLongPress lastPointer downAtMs
       logicalNow lastEmitMs andb negb].
  apply Qgeb_ge in Hlong. rewrite Hlong.
  unfold resetForNewGesture, initStates, spawnEmitter.
  cbn -[Qgeb repeat pruneEmitters].
  replace (now - now >=? EMIT_INTERVAL_MS) with false
    by (symmetry; apply Qgeb_lt; unfold EMIT_INTERVAL_MS; lra).
  rewrite (pruneEmitters_noop now _ (Emitter now (pt_x P) (pt_y P)) []);
    [| reflexivity | cbn; unfold WAVE_SPEED_PX_PER_MS; lra].
  cbn -[repeat]. repeat split; reflexivity.
Qed.

(** X13. In the frame in which a press, with the knob off, has lasted
    [LONGPRESS_MS], the long press begins: the emitters are replaced by one
    emitter at the pointer, spawned now, and on the fresh grid exactly the
    tiles whose centre is within [ACTIVATION_BAND] of the pointer are
    triggered at once.  ([maxReachDist] is positive, as the layout makes
    it.) *)
Theorem X13_long_press_begins (t : Q) (s : state) (iy ix : nat) :
  let now := logicalNow (clock (updateClock t s)) in
  let P := lastPointer (gesture s) in
  let c := tileCenter (layout s) ix iy in
  let d := dist (pt_x c) (pt_y c) (pt_x P) (pt_y P) in
  let s' := fst (draw dist t s) in
  active (knob s) = false ->
  isPointerDown (gesture s) = true -> isLongPress (gesture s) = false ->
  LONGPRESS_MS <= now - downAtMs (gesture s) ->
  0 < maxReachDist (field s) ->
  (iy < ROWS)%nat -> (ix < COLS)%nat ->
  isLongPress (gesture s') = true /\
  emitters (field s') = [Emitter now (pt_x P) (pt_y P)] /\
  lastEmitMs (field s') = now /\
  (Qabs d <= ACTIVATION_BAND ->
   cell (startMs (tiles s')) iy ix = now /\ cell (stopAtMs (tiles s')) iy ix = -1) /\
  (ACTIVATION_BAND < Qabs d -> cell (startMs (tiles s')) iy ix = -1).
Proof.
  intros now P c d s' Hk Hpd Hlp Hlong Hreach Hy Hx.
  unfold s'. rewrite (draw_unpaused dist t s Hk).
  set (x := set_clockPaused false _).
  assert (Hnow : logicalNow (clock x) = now) by reflexivity.
  destruct (simulate_begins x Hpd Hlp) as (H1 & H2 & H3 & H4 & H5);
    [rewrite Hnow; exact Hlong | exact Hreach |].
  set (x' := simulateEmittersAndActivations x) in *.
  change (gesture (fst (renderGrid dist x'))) with (gesture x').
  change (field (fst (renderGrid dist x'))) with (field x').
  rewrite renderGrid_startMs, renderGrid_stopAtMs by assumption.
  rewrite H2. cbn [emitters lastEmitMs]. rewrite Hnow.
  change (lastPointer (gesture x)) with P.
  split; [exact H1|]. split; [reflexivity|]. split; [reflexivity|].
  assert (Hcell : cell (startMs (tiles x')) iy ix = -1)
    by (rewrite H3; cbn [startMs]; now apply cell_fresh).
  assert (Hcell' : cell (stopAtMs (tiles x')) iy ix = -1)
    by (rewrite H3; cbn [stopAtMs]; now apply cell_fresh).
  destruct (renderTile_long_press x' ix iy H1) as [E1 E2];
    [rewrite Hcell; reflexivity|].
  rewrite E1, E2, Hcell, Hcell', H2, H4, H5. cbn [emitters]. rewrite Hnow.
  change (layout x) with (layout s). fold c.
  change (lastPointer (gesture x)) with P.
  assert (Hhit : hitByAnyEmitter dist [Emitter now (pt_x P) (pt_y P)] now
                   (pt_x c) (pt_y c) = true <-> Qabs d <= ACTIVATION_BAND).
  { rewrite hitByAnyEmitter_single, hits_spec. cbn [e_t0 e_x e_y]. fold d.
    assert (E : d - (now - now) * WAVE_SPEED_PX_PER_MS == d) by ring.
    rewrite E. split; [tauto|]. intro H. split; [lra | exact H]. }
  split.
  - intro H. apply Hhit in H. rewrite H. now split.
  - intro H.
    destruct (hitByAnyEmitter dist [Emitter now (pt_x P) (pt_y P)] now
                              (pt_x c) (pt_y c)) eqn:Eh; [|reflexivity].
    pose proof (proj1 Hhit eq_refl). lra.
Qed.

End LongPressBegins.

(** The session: the frame at 1000 begins the long press on the first
    tile. *)
Lemma X13_witness_first_tile :
  cell (startMs (tiles (fst (draw dist_isqrt 1000
          (run dist_isqrt [Draw 650; MousePressed 207.5 30.5] example_start))))) 0 0
  = logicalNow (clock (updateClock 1000
          (run dist_isqrt [Draw 650; MousePressed 207.5 30.5] example_start))).
Proof.
  pose proof (X13_long_press_begins dist_isqrt 1000
                (run dist_isqrt [Draw 650; MousePressed 207.5 30.5] example_start)
                0%nat 0%nat) as H.
  cbv zeta in H.
  specialize (H ltac:(qcompute) ltac:(qcompute) ltac:(qcompute) ltac:(qcompute)
                ltac:(qcompute) ltac:(unfold ROWS; lia) ltac:(unfold COLS; lia)).
  destruct H as (_ & _ & _ & H & _).
  apply H. qcompute.
Defined.

(** ** A frame drawn twice *)

Section Frozen.

Variable dist : Q -> Q -> Q -> Q -> Q.
Variables (s : state) (ix iy : nat).

Let now := logicalNow (clock s).
Let c := tileCenter (layout s) ix iy.
Let sqr := drawShape (sScale (layout s)) (sqrX (shapes s)) (sqrY (shapes s)).
Let loop (elapsed : Q) :=
  drawLoopCycle (shapes s) (timing s) elapsed (sScale (layout s)).
Let hit := hitByAnyEmitter dist (emitters (field s)) now (pt_x c) (pt_y c).
Let planned (a b : Q) : Q :=
  if b === -1
  then a + Math.ceil ((now - a) / CYCLE_MS (timing s)) * CYCLE_MS (timing s)
  else b.

Lemma renderTile_tileStep :
  renderTile dist s ix iy
  = tileStep dist s ix iy (cell (startMs (tiles s)) iy ix)
                          (cell (stopAtMs (tiles s)) iy ix).
Proof. reflexivity. Qed.

Lemma tileStep_triggers a b :
  isLongPress (gesture s) = true -> (a <? 0) = true -> hit = true ->
  tileStep dist s ix iy a b
  = TileOut now (-1) c
      (if (now === -1) || (now === -2) then sqr else loop (now - now)).
Proof.
  intros Hlp Hneg Hhit. unfold tileStep. fold now c hit.
  rewrite Hlp, Hneg, Hhit. cbn [andb]. now destruct (_ || _).
Qed.

Lemma tileStep_long_press a b :
  isLongPress (gesture s) = true -> (a <? 0) && hit = false ->
  tileStep dist s ix iy a b
  = TileOut a b c (if (a === -1) || (a === -2) then sqr else loop (now - a)).
Proof.
  intros Hlp H. unfold tileStep. fold now c hit. rewrite Hlp. cbn [andb].
  assert (E : (if a <? 0 then if hit then (now, -1) else (a, b) else (a, b)) = (a, b)).
  { destruct (a <? 0); [|reflexivity]. cbn in H. now rewrite H. }
  rewrite E. now destruct (_ || _).
Qed.

Lemma tileStep_rest a b :
  isLongPress (gesture s) = false -> (a === -1) || (a === -2) = true ->
  tileStep dist s ix iy a b = TileOut a b c sqr.
Proof.
  intros Hlp H. unfold tileStep. rewrite Hlp. cbn [andb]. now rewrite H.
Qed.

Lemma tileStep_released a b :
  isLongPress (gesture s) = false -> (a === -1) || (a === -2) = false ->
  tileStep dist s ix iy a b
  = if now >=? planned a b then TileOut (-2) (planned a b) c sqr
    else TileOut a (planned a b) c (loop (now - a)).
Proof.
  intros Hlp H. unfold tileStep. rewrite Hlp. cbn [andb]. now rewrite H.
Qed.

(** Run on the cells that it left, the iteration leaves them again and
    draws the same outline. *)
Lemma tileStep_idempotent a b :
  let o := tileStep dist s ix iy a b in
  tileStep dist s ix iy (out_start o) (out_stop o) = o.
Proof.
  cbv zeta. destruct (isLongPress (gesture s)) eqn:Hlp.
  - destruct ((a <? 0) && hit) eqn:E.
    + apply andb_true_iff in E. destruct E as [Hneg Hhit].
      rewrite (tileStep_triggers a b Hlp Hneg Hhit). cbn [out_start out_stop].
      destruct (now <? 0) eqn:Hn.
      * now rewrite (tileStep_triggers now (-1) Hlp Hn Hhit).
      * rewrite tileStep_long_press; [reflexivity | exact Hlp | now rewrite Hn].
    + rewrite (tileStep_long_press a b Hlp E). cbn [out_start out_stop].
      now rewrite (tileStep_long_press a b Hlp E).
  - destruct ((a === -1) || (a === -2)) eqn:E.
    + rewrite (tileStep_rest a b Hlp E). cbn [out_start out_stop].
      now rewrite (tileStep_rest a b Hlp E).
    + rewrite (tileStep_released a b Hlp E).
      destruct (now >=? planned a b) eqn:Hge; cbn [out_start out_stop].
      * now rewrite tileStep_rest.
      * rewrite (tileStep_released a (planned a b) Hlp E).
        assert (Ep : planned a (planned a b) = planned a b).
        { unfold planned. destruct (b === -1) eqn:Hb.
          - match goal with
            | |- (if ?t then _ else _) = _ => destruct t; reflexivity
            end.
          - now rewrite Hb. }
        now rewrite Ep, Hge.
Qed.

End Frozen.

Section FrozenFrame.

Variable dist : Q -> Q -> Q -> Q -> Q.

Lemma tileStep_same_view s1 s2 ix iy a b :
  same_view s1 s2 -> tileStep dist s1 ix iy a b = tileStep dist s2 ix iy a b.
Proof.
  intros (H1 & H2 & H3 & H4 & H5 & H6). unfold tileStep.
  now rewrite H1, H2, H3, H4, H5, H6.
Qed.

Lemma renderCells_ext s1 s2 :
  (forall iy ix, (iy < ROWS)%nat -> (ix < COLS)%nat ->
     renderTile dist s1 ix iy = renderTile dist s2 ix iy) ->
  renderCells dist s1 = renderCells dist s2.
Proof.
  intro H. unfold renderCells.
  apply map_ext_in. intros iy Hy. apply in_seq in Hy.
  apply map_ext_in. intros ix Hx. apply in_seq in Hx.
  apply H; lia.
Qed.

Lemma renderGrid_ext s1 s2 :
  renderCells dist s1 = renderCells dist s2 ->
  tiles (fst (renderGrid dist s1)) = tiles (fst (renderGrid dist s2)) /\
  snd (renderGrid dist s1) = snd (renderGrid dist s2).
Proof.
  intro H. unfold renderGrid. cbn [fst snd tiles set_tiles]. now rewrite H.
Qed.

Lemma renderCells_again s s1 :
  same_view s1 s -> tiles s1 = tiles (fst (renderGrid dist s)) ->
  renderCells dist s1 = renderCells dist s.
Proof.
  intros Hv Ht. apply renderCells_ext. intros iy ix Hy Hx.
  rewrite (renderTile_tileStep dist s1), Ht.
  rewrite renderGrid_startMs, renderGrid_stopAtMs by assumption.
  rewrite (tileStep_same_view s1 s ix iy _ _ Hv).
  rewrite (renderTile_tileStep dist s). apply tileStep_idempotent.
Qed.

(** X14. [renderGrid] run again on the state it left draws the same frame
    and leaves the same tiles.  So in knob mode, where the logical clock
    stands still, a second frame is the first one again, tile for tile,
    whatever the wall clock: the picture is frozen. *)
Theorem X14_frozen_frame (s : state) (t1 t2 : Q) :
  (let r1 := renderGrid dist s in
   let r2 := renderGrid dist (fst r1) in
   tiles (fst r2) = tiles (fst r1) /\ snd r2 = snd r1) /\
  (active (knob s) = true ->
   let d1 := draw dist t1 s in
   let d2 := draw dist t2 (fst d1) in
   tiles (fst d2) = tiles (fst d1) /\ snd d2 = snd d1 /\
   logicalNow (clock (fst d2)) = logicalNow (clock (fst d1))).
Proof.
  assert (Hidem : forall x s1, same_view s1 (fst (renderGrid dist x)) ->
                    tiles s1 = tiles (fst (renderGrid dist x)) ->
                    tiles (fst (renderGrid dist s1)) = tiles (fst (renderGrid dist x)) /\
                    snd (renderGrid dist s1) = snd (renderGrid dist x)).
  { intros x s1 Hv Ht.
    destruct (renderGrid_ext s1 x) as [E1 E2].
    - apply renderCells_again; [exact Hv | exact Ht].
    - split; [|exact E2]. rewrite E1. reflexivity. }
  split.
  - cbv zeta. apply Hidem; [repeat split | reflexivity].
  - intro Hk. cbv zeta.
    assert (Hd : forall t x, active (knob x) = true ->
                   draw dist t x
                   = renderGrid dist
                       (set_clockPaused true
                          (set_timing (Timing (HOLD_MS (timing x))
                                              (HALF_MS + HOLD_MS (timing x))
                                              (3 * (HALF_MS + HOLD_MS (timing x))))
                                      (updateClock t x)))).
    { intros t x Hx. unfold draw. cbv zeta.
      change (active (knob (set_timing
                (Timing (HOLD_MS (timing (updateClock t x)))
                        (HALF_MS + HOLD_MS (timing (updateClock t x)))
                        (3 * (HALF_MS + HOLD_MS (timing (updateClock t x)))))
                (updateClock t x))))
        with (active (knob x)).
      now rewrite Hx. }
    rewrite (Hd t1 s Hk).
    set (x1 := set_clockPaused true _).
    assert (Hk1 : active (knob (fst (renderGrid dist x1))) = true) by exact Hk.
    rewrite (Hd t2 _ Hk1).
    set (x2 := set_clockPaused true _).
    assert (Hv : same_view x2 (fst (renderGrid dist x1))).
    { unfold x2, x1, same_view, set_clockPaused, updateClock. cbn.
      repeat split. }
    destruct (Hidem x1 x2 Hv eq_refl) as [E1 E2].
    split; [exact E1|]. split; [exact E2|].
    destruct Hv as [Hv _]. exact Hv.
Qed.

End FrozenFrame.

Lemma X14_witness_knob_frames :
  snd (draw dist_isqrt 300 (fst (draw dist_isqrt 200 example_tuning)))
  = snd (draw dist_isqrt 200 example_tuning).
Proof.
  destruct (X14_frozen_frame dist_isqrt example_tuning 200 300) as [_ H].
  destruct H as (_ & H & _); [qcompute | exact H].
Defined.

(** ** The trail of a drag *)

Section Trail.

Variable dist : Q -> Q -> Q -> Q -> Q.

Lemma spawnEmitter_suffix t x y s :
  exists gone,
    emitters (field s) ++ [Emitter t x y]
    = gone ++ emitters (field (spawnEmitter t x y s)).
Proof.
  unfold spawnEmitter. cbn [field set_field emitters].
  destruct (MAX_EMITTERS <? _)%nat.
  - eexists. symmetry. apply firstn_skipn.
  - now exists [].
Qed.

(** X15. In a frame during a long press, with the knob off, exactly one
    emitter is spawned when [EMIT_INTERVAL_MS] or more of logical time have
    passed since [lastEmitMs], at the pointer's latest position and with
    the current logical time, and none otherwise; apart from that the frame
    only drops emitters from the old end of the array.  The long press goes
    on. *)
Theorem X15_long_press_leaves_a_trail (t : Q) (s : state) :
  let now := logicalNow (clock (updateClock t s)) in
  let P := lastPointer (gesture s) in
  let due := now - lastEmitMs (field s) >=? EMIT_INTERVAL_MS in
  let s' := fst (draw dist t s) in
  active (knob s) = false -> isLongPress (gesture s) = true ->
  (exists gone,
     emitters (field s) ++ (if due then [Emitter now (pt_x P) (pt_y P)] else [])
     = gone ++ emitters (field s')) /\
  lastEmitMs (field s') = (if due then now else lastEmitMs (field s)) /\
  isLongPress (gesture s') = true /\ lastPointer (gesture s') = P.
Proof.
  intros now P due s' Hk Hlp. unfold s'.
  rewrite (draw_unpaused dist t s Hk).
  set (x := set_clockPaused false _).
  change (field (fst (renderGrid dist ?y))) with (field y).
  change (gesture (fst (renderGrid dist ?y))) with (gesture y).
  unfold simulateEmittersAndActivations.
  change (gesture x) with (gesture s). change (logicalNow (clock x)) with now.
  rewrite Hlp, andb_false_r. change (gesture x) with (gesture s).
  rewrite Hlp. cbn [andb]. change (field x) with (field s). fold due P.
  set (x1 := if due then _ else x).
  destruct (pruneEmitters_split now x1) as (gone & kept & E & E' & _).
  rewrite pruneEmitters_gesture.
  destruct (pruneEmitters_set now x1) as [k Ek].
  assert (Hl : lastEmitMs (field (pruneEmitters now x1)) = lastEmitMs (field x1))
    by now rewrite Ek.
  rewrite E', Hl. unfold x1 in *. destruct due.
  - destruct (spawnEmitter_suffix now (pt_x P) (pt_y P) x) as [gone' E0].
    change (field x) with (field s) in E0.
    split; [|now repeat split].
    exists (gone' ++ gone). now rewrite E0, E, app_assoc.
  - split; [|now repeat split].
    exists gone. rewrite app_nil_r. exact E.
Qed.

End Trail.

(** Dragged after the long press began at 1000, the pointer leaves its next
    emitter at the frame at 1040. *)
Lemma X15_witness_dragged :
  lastEmitMs (field (fst (draw dist_isqrt 1040
     (run dist_isqrt [Draw 650; MousePressed 207.5 30.5; Draw 1000;
                      MouseDragged 250 60] example_start))))
  = 1040.
Proof.
  pose proof (X15_long_press_leaves_a_trail dist_isqrt 1040
     (run dist_isqrt [Draw 650; MousePressed 207.5 30.5; Draw 1000;
                      MouseDragged 250 60] example_start)) as H.
  cbv zeta in H.
  specialize (H ltac:(qcompute) ltac:(qcompute)).
  destruct H as (_ & H & _). rewrite H. qcompute.
Defined.

(** ** Resampling an outline *)

Section ResamplingProofs.

Variable hypot : Q -> Q -> Q.
Hypothesis hypot_nonneg : forall x y, 0 <= hypot x y.

Variable src : list point.
Hypothesis src_two : (2 <= length src)%nat.

Lemma vdist_nonneg p q : 0 <= vdist hypot p q.
Proof. apply hypot_nonneg. Qed.

Lemma perimeter_length_to :
  perimeter hypot src = length_to hypot src (length src - 1).
Proof.
  unfold perimeter. generalize (length src - 1)%nat as m.
  induction m as [|m IH]; [reflexivity|].
  rewrite seq_S, fold_left_app, IH. reflexivity.
Qed.

Lemma length_to_nonneg j : 0 <= length_to hypot src j.
Proof.
  induction j as [|j IH]; [discriminate|]. cbn [length_to].
  pose proof (vdist_nonneg (vertex src j) (vertex src (S j))). lra.
Qed.

(** The cursor is on segment [seg] of the polygon, [d] being the length of
    the polygon up to it. *)
Let cur_ok (c : cursor) : Prop :=
  (cur_seg c <= length src - 2)%nat /\
  cur_a c = vertex src (cur_seg c) /\
  cur_b c = vertex src (S (cur_seg c)) /\
  cur_d c = length_to hypot src (cur_seg c).

Lemma advance_spec target : forall k c,
  cur_ok c -> k = (length src - 2 - cur_seg c)%nat -> cur_d c <= target ->
  let c' := advance hypot src target k c in
  cur_ok c' /\ cur_d c' <= target /\
  (cur_seg c' = (length src - 2)%nat \/
   target <= cur_d c' + vdist hypot (cur_a c') (cur_b c')).
Proof.
  induction k as [|k IH]; intros c Hok Hk Hd; cbn [advance].
  - cbv zeta. split; [exact Hok|]. split; [exact Hd|]. left.
    destruct Hok as (H & _). lia.
  - destruct (cur_d c + vdist hypot (cur_a c) (cur_b c) <? target) eqn:E.
    + apply Qltb_lt in E. apply IH.
      * destruct Hok as (H1 & H2 & H3 & H4). unfold cur_ok. cbn.
        split; [lia|]. split; [reflexivity|]. split; [reflexivity|].
        now rewrite H2, H3, H4.
      * cbn. lia.
      * cbn. lra.
    + apply Qltb_ge in E. cbv zeta. auto.
Qed.

(** A point of a segment of the polygon, at length [target] along the
    polygon from its first vertex. *)
Let on_edge (target : Q) (p : point) : Prop :=
  exists j t, (S j < length src)%nat /\ 0 <= t /\ t <= 1 /\
              p = vlerp (vertex src j) (vertex src (S j)) t /\
              length_to hypot src j + t * vdist hypot (vertex src j) (vertex src (S j))
              == target.

Lemma resample_point_spec step c i :
  cur_ok c -> cur_d c <= Qnat i * step ->
  Qnat i * step <= perimeter hypot src ->
  let r := resample_point hypot src step c i in
  cur_ok (fst r) /\ cur_d (fst r) <= Qnat i * step /\ on_edge (Qnat i * step) (snd r).
Proof.
  intros Hok Hd Hper. unfold resample_point. cbv zeta. cbn [fst snd].
  destruct (advance_spec (Qnat i * step) _ c Hok eq_refl Hd) as (Hok' & Hd' & Hend).
  set (c' := advance hypot src (Qnat i * step) _ c) in *.
  split; [exact Hok'|]. split; [exact Hd'|].
  destruct Hok' as (H1 & H2 & H3 & H4).
  set (L := vdist hypot (cur_a c') (cur_b c')) in *.
  assert (HL : 0 <= L) by apply vdist_nonneg.
  assert (Hrem : Qnat i * step - cur_d c' <= L).
  { destruct Hend as [Hlast | Hle]; [|lra].
    rewrite perimeter_length_to in Hper.
    replace (length src - 1)%nat with (S (cur_seg c')) in Hper by lia.
    cbn [length_to] in Hper. rewrite <- H4, <- H2, <- H3 in Hper.
    fold L in Hper. lra. }
  exists (cur_seg c'), (if L === 0 then 0 else (Qnat i * step - cur_d c') / L).
  split; [lia|]. rewrite <- H2, <- H3, <- H4. fold L.
  destruct (L === 0) eqn:E.
  - apply Qeq_bool_iff in E.
    split; [discriminate|]. split; [discriminate|]. split; [reflexivity|].
    rewrite E in Hrem. lra.
  - apply Qeqb_false in E.
    assert (HL' : 0 < L).
    { apply Qle_lteq in HL. destruct HL as [HL | HL]; [exact HL|].
      exfalso. apply E. now symmetry. }
    split; [apply Qle_shift_div_l; lra|].
    split; [apply Qle_shift_div_r; lra|]. split; [reflexivity|].
    assert (Ht : (Qnat i * step - cur_d c') / L * L == Qnat i * step - cur_d c')
      by (field; exact E).
    lra.
Qed.

Variable n : nat.
Hypothesis n_pos : (0 < n)%nat.

Let step := perimeter hypot src / Qnat n.

Lemma Qnat_le i j : (i <= j)%nat -> Qnat i <= Qnat j.
Proof. intro H. unfold Qnat. rewrite <- Zle_Qle. lia. Qed.

Lemma Qnat_pos : 0 < Qnat n.
Proof. unfold Qnat. change 0 with (inject_Z 0). rewrite <- Zlt_Qlt. lia. Qed.

Lemma perimeter_nonneg : 0 <= perimeter hypot src.
Proof. rewrite perimeter_length_to. apply length_to_nonneg. Qed.

Lemma step_nonneg : 0 <= step.
Proof. apply Qle_shift_div_l; [apply Qnat_pos|]. pose proof perimeter_nonneg. lra. Qed.

Lemma target_within i : (i <= n)%nat -> Qnat i * step <= perimeter hypot src.
Proof.
  intro H.
  assert (E : Qnat n * step == perimeter hypot src).
  { unfold step. field. pose proof Qnat_pos. lra. }
  rewrite <- E. apply Qmult_le_compat_r; [now apply Qnat_le | apply step_nonneg].
Qed.

Lemma resample_loop_spec m : forall start c,
  (start + m <= n)%nat -> cur_ok c -> cur_d c <= Qnat start * step ->
  length (resample_loop hypot src step c (seq start m)) = m /\
  forall k, (k < m)%nat ->
    on_edge (Qnat (start + k) * step)
            (nth k (resample_loop hypot src step c (seq start m)) (Point 0 0)).
Proof.
  induction m as [|m IH]; intros start c Hn Hok Hd; [split; [reflexivity | lia]|].
  cbn [seq resample_loop].
  destruct (resample_point_spec step c start Hok Hd) as (Hok' & Hd' & He).
  { apply target_within. lia. }
  destruct (resample_point hypot src step c start) as [c' p]. cbn [fst snd] in *.
  destruct (IH (S start) c') as [Hlen Hall]; [lia | exact Hok' | |].
  - rewrite Qnat_S. pose proof step_nonneg as Hs. lra.
  - split; [cbn [length]; now rewrite Hlen|].
    intros [|k] Hk; cbn [nth].
    + now rewrite Nat.add_0_r.
    + replace (start + S k)%nat with (S start + k)%nat by lia. apply Hall. lia.
Qed.

Lemma resample_first c :
  cur_d c = 0 ->
  let p := snd (resample_point hypot src step c 0) in
  pt_x p == pt_x (cur_a c) /\ pt_y p == pt_y (cur_a c).
Proof.
  intro Hd. unfold resample_point. cbv zeta. cbn [snd].
  assert (Ht : Qnat 0 * step == 0) by (change (Qnat 0) with 0; ring).
  assert (Hadv : advance hypot src (Qnat 0 * step) (length src - 2 - cur_seg c) c = c).
  { destruct (length src - 2 - cur_seg c)%nat; [reflexivity|]. cbn [advance].
    replace (cur_d c + vdist hypot (cur_a c) (cur_b c) <? Qnat 0 * step) with false;
      [reflexivity|].
    symmetry. apply Qltb_ge. rewrite Hd, Ht.
    pose proof (vdist_nonneg (cur_a c) (cur_b c)). lra. }
  rewrite Hadv, Hd.
  set (t := if _ === 0 then 0 else _).
  assert (E : t == 0).
  { unfold t. destruct (_ === 0); [reflexivity|]. rewrite Ht.
    unfold Qdiv. ring. }
  unfold vlerp. cbn [pt_x pt_y]. split; now apply lerp_0.
Qed.

End ResamplingProofs.

(** X16. [resampleToArrays], on a polygon of two or more vertices and for
    [n > 0] points, with [Math.hypot] never negative: writes [n] numbers to
    each array; the first point is the first vertex; and point [i] lies on
    a segment of the polygon, between its two ends (the interpolation factor
    is within [[0, 1]]), at length [i * per / n] along the polygon from its
    first vertex, [per] being the length of the whole polygon: the points
    are evenly spaced along the outline. *)
Theorem X16_resampled_points_evenly_spaced
  (hypot : Q -> Q -> Q) (src : list point) (n : nat) :
  (forall x y, 0 <= hypot x y) -> (2 <= length src)%nat -> (0 < n)%nat ->
  let pts := resamplePoints hypot src n in
  (length (fst (resampleToArrays hypot src n)) = n /\
   length (snd (resampleToArrays hypot src n)) = n) /\
  (pt_x (nth 0 pts (Point 0 0)) == pt_x (vertex src 0) /\
   pt_y (nth 0 pts (Point 0 0)) == pt_y (vertex src 0)) /\
  forall i, (i < n)%nat ->
    exists j t, (S j < length src)%nat /\ 0 <= t /\ t <= 1 /\
      nth i pts (Point 0 0) = vlerp (vertex src j) (vertex src (S j)) t /\
      length_to hypot src j + t * vdist hypot (vertex src j) (vertex src (S j))
      == Qnat i * (perimeter hypot src / Qnat n).
Proof.
  intros Hh Hsrc Hn pts.
  destruct (resample_loop_spec hypot Hh src Hsrc n Hn n 0
              (Cursor 0 0 (vertex src 0) (vertex src 1))) as [Hlen Hall].
  - lia.
  - cbn. repeat split. lia.
  - cbn. change (Qnat 0) with 0. lra.
  - fold (resamplePoints hypot src n) in Hlen, Hall. fold pts in Hlen, Hall.
    unfold resampleToArrays. cbn [fst snd]. fold pts. rewrite !length_map.
    split; [now split|]. split; [|exact Hall].
    unfold pts, resamplePoints. destruct n as [|n']; [lia|].
    cbn [seq resample_loop].
    pose proof (resample_first hypot Hh src (S n')
                  (Cursor 0 0 (vertex src 0) (vertex src 1)) eq_refl) as Hf.
    cbv zeta in Hf.
    destruct (resample_point hypot src _ _ 0%nat) as [c' p]. exact Hf.
Qed.

(** The square of the sketch: 120 points, the first at the top left
    corner. *)
Lemma X16_witness_square :
  length (fst (buildSquarePoints hypot_isqrt N rBase)) = N /\
  pt_x (nth 0
          (resamplePoints hypot_isqrt
             [Point (- square_side) (- square_side); Point square_side (- square_side);
              Point square_side square_side; Point (- square_side) square_side;
              Point (- square_side) (- square_side)] N) (Point 0 0))
  == - square_side.
Proof.
  pose proof (X16_resampled_points_evenly_spaced hypot_isqrt
     [Point (- square_side) (- square_side); Point square_side (- square_side);
      Point square_side square_side; Point (- square_side) square_side;
      Point (- square_side) (- square_side)] N) as H.
  cbv zeta in H.
  specialize (H (fun x y => dist_isqrt_nonneg 0 0 x y)
                ltac:(cbn; lia) ltac:(unfold N; lia)).
  destruct H as ((H1 & _) & (H2 & _) & _).
  split; [exact H1 | exact H2].
Defined.
